(** * SimpleYamlParser: the dependency-free configuration codec

    A shallow embedding of [SimpleYamlParser] (src/utils/helpers.ts,
    the class between lines 25 and 222): [parse], [stringify],
    [getIndentLevel], [handleArrayItem], [handleKeyValue], [parseValue]
    and [formatValue], followed by the properties of the codec.

    Conventions of the embedding.
    - A JavaScript string is a [string]; every [ascii] stands for one
      UTF-16 code unit below 256.
    - A JavaScript number is the decimal it denotes (see [Num]).
    - The objects [parse] builds are mutated through the references held
      by the frames of its stack.  A frame's reference is modelled by the
      path (list of keys) that leads from the root object to the frame's
      object; every write goes through the root (see [update_at]).
    - [parse] can end in three ways, see [outcome]. *)

From Stdlib Require Import Bool Arith ZArith NArith Lia List Ascii String.
Import ListNotations.
Local Open Scope string_scope.
Local Open Scope Z_scope.

Set Implicit Arguments.
Set Warnings "-register-all".

(* ===================================================================== *)
(** ** Characters and the string built-ins the codec calls               *)
(* ===================================================================== *)

Module Js.

Definition nl : ascii := "010"%char.
Definition tab : ascii := "009"%char.
Definition space : ascii := " "%char.
Definition dquote : ascii := "034"%char.
Definition backslash : ascii := "\"%char.
Definition colon : ascii := ":"%char.
Definition hash : ascii := "#"%char.
Definition dash : ascii := "-"%char.
Definition dot : ascii := "."%char.

(** White space and line terminators of ECMAScript among the code units
    below 256: TAB, LF, VT, FF, CR, SPACE and NBSP.  These are what
    [String.prototype.trim] strips. *)
Definition is_white (c : ascii) : bool :=
  let n := nat_of_ascii c in
  ((9 <=? n) && (n <=? 13) || (n =? 32) || (n =? 160))%nat.

Definition is_digit (c : ascii) : bool :=
  let n := nat_of_ascii c in ((48 <=? n) && (n <=? 57))%nat.

Definition is_empty (s : string) : bool :=
  match s with EmptyString => true | String _ _ => false end.

(** [s.trimStart()], [s.trimEnd()] and [s.trim()]. *)
Fixpoint trimStart (s : string) : string :=
  match s with
  | EmptyString => EmptyString
  | String c r => if is_white c then trimStart r else s
  end.

Fixpoint trimEnd (s : string) : string :=
  match s with
  | EmptyString => EmptyString
  | String c r =>
      let r' := trimEnd r in
      if is_white c && is_empty r' then EmptyString else String c r'
  end.

Definition trim (s : string) : string := trimEnd (trimStart s).

(** [s.startsWith(p)] and [s.endsWith(p)]. *)
Fixpoint startsWith (s p : string) {struct p} : bool :=
  match p, s with
  | EmptyString, _ => true
  | String _ _, EmptyString => false
  | String a p', String b s' => Ascii.eqb a b && startsWith s' p'
  end.

Fixpoint endsWith (s p : string) : bool :=
  match s with
  | EmptyString => is_empty p
  | String _ r => String.eqb s p || endsWith r p
  end.

(** [s.includes(c)] for a one-character needle. *)
Fixpoint includes (s : string) (c : ascii) : bool :=
  match s with
  | EmptyString => false
  | String a r => Ascii.eqb a c || includes r c
  end.

(** [s.indexOf(c)] for a one-character needle: -1 when absent. *)
Fixpoint indexOf (s : string) (c : ascii) : Z :=
  match s with
  | EmptyString => -1
  | String a r =>
      if Ascii.eqb a c then 0
      else let i := indexOf r c in if i <? 0 then -1 else i + 1
  end.

(** [s.substring(0, n)] and [s.substring(n)], for [0 <= n]. *)
Fixpoint take (n : nat) (s : string) : string :=
  match n, s with
  | O, _ => EmptyString
  | S _, EmptyString => EmptyString
  | S n', String c r => String c (take n' r)
  end.

Fixpoint drop (n : nat) (s : string) : string :=
  match n, s with
  | O, _ => s
  | S _, EmptyString => EmptyString
  | S n', String _ r => drop n' r
  end.

Definition substring (s : string) (from to : Z) : string :=
  drop (Z.to_nat from) (take (Z.to_nat to) s).

Definition substringFrom (s : string) (from : Z) : string :=
  drop (Z.to_nat from) s.

(** [s.slice(1, -1)]. *)
Fixpoint dropLast (s : string) : string :=
  match s with
  | EmptyString => EmptyString
  | String c r => if is_empty r then EmptyString else String c (dropLast r)
  end.

Definition slice_1_m1 (s : string) : string := dropLast (drop 1 s).

(** [s.split('\n')]: never empty, the last piece is what follows the
    last line feed. *)
Fixpoint split_nl (s : string) : list string :=
  match s with
  | EmptyString => [EmptyString]
  | String c r =>
      if Ascii.eqb c nl then EmptyString :: split_nl r
      else match split_nl r with
           | [] => [String c EmptyString]
           | l :: ls => String c l :: ls
           end
  end.

(** [ls.join('\n')]. *)
Fixpoint join_nl (ls : list string) : string :=
  match ls with
  | [] => EmptyString
  | [l] => l
  | l :: ls' => l ++ String nl (join_nl ls')
  end.

(** [s.replace(/"/g, '\\"')]. *)
Fixpoint escape_quotes (s : string) : string :=
  match s with
  | EmptyString => EmptyString
  | String c r =>
      if Ascii.eqb c dquote
      then String backslash (String dquote (escape_quotes r))
      else String c (escape_quotes r)
  end.

(** ['  '.repeat(n)]. *)
Fixpoint repeat2 (n : nat) : string :=
  match n with
  | O => EmptyString
  | S n' => String space (String space (repeat2 n'))
  end.

End Js.

(* ===================================================================== *)
(** ** Numbers                                                           *)
(* ===================================================================== *)

(** The codec meets numbers in two places only: [parseValue] reads a
    numeral with [parseInt] or [parseFloat], and [formatValue] prints a
    number with [Number.prototype.toString].  A finite number is
    therefore modelled by a decimal, [mant / 10 ^ scale]: the decimal
    that [toString] prints for it, the shortest one that is read back
    as the same double.  Reading a numeral is exact in the embedding,
    where the program rounds to the nearest double; the two agree on
    the numerals that [toString] prints, on the integers of magnitude
    below 2^53 and on the decimals of at most 15 significant digits
    (see [exact_number]).  The rounding of other numerals is not
    modelled, and neither are [NaN] and the infinities.  [-0] and [0]
    are one number, as they are for [===] and for [toString]. *)
Record Num : Type := mkNum { mant : Z; scale : nat }.

Definition int_num (z : Z) : Num := mkNum z 0.

(** The representation without superfluous fractional zeros. *)
Fixpoint normalize (m : Z) (sc : nat) : Num :=
  match sc with
  | O => mkNum m 0
  | S sc' => if m mod 10 =? 0 then normalize (m / 10) sc' else mkNum m sc
  end.

Definition num_eqb (a b : Num) : bool :=
  (mant a =? mant b) && Nat.eqb (scale a) (scale b).

Module Numeral.

Import Js.

Definition digit_char (d : Z) : ascii := ascii_of_nat (48 + Z.to_nat d).

Definition digit_val (c : ascii) : Z := Z.of_nat (nat_of_ascii c) - 48.

(** Decimal digits of a natural number, most significant first. *)
Fixpoint digits_aux (fuel : nat) (n : Z) (acc : string) : string :=
  match fuel with
  | O => acc
  | S f =>
      let acc' := String (digit_char (n mod 10)) acc in
      if n / 10 =? 0 then acc' else digits_aux f (n / 10) acc'
  end.

Definition digits (n : Z) : string :=
  digits_aux (S (Z.to_nat (Z.log2 n))) n EmptyString.

(** Value of the longest prefix of digits, continuing from [acc]. *)
Fixpoint digits_value (s : string) (acc : Z) : Z :=
  match s with
  | EmptyString => acc
  | String c r =>
      if is_digit c then digits_value r (10 * acc + digit_val c) else acc
  end.

Fixpoint all_digits (s : string) : bool :=
  match s with
  | EmptyString => true
  | String c r => is_digit c && all_digits r
  end.

Definition strip_sign (s : string) : bool * string :=
  match s with
  | String c r => if Ascii.eqb c dash then (true, r) else (false, s)
  | EmptyString => (false, s)
  end.

(** [/^-?\d+$/.test(s)] *)
Definition is_int_literal (s : string) : bool :=
  let body := snd (strip_sign s) in
  negb (is_empty body) && all_digits body.

(** Splits at the first '.', if any. *)
Fixpoint split_dot (s : string) : option (string * string) :=
  match s with
  | EmptyString => None
  | String c r =>
      if Ascii.eqb c dot then Some (EmptyString, r)
      else match split_dot r with
           | Some (a, b) => Some (String c a, b)
           | None => None
           end
  end.

(** [/^-?\d*\.\d+$/.test(s)] *)
Definition is_float_literal (s : string) : bool :=
  match split_dot (snd (strip_sign s)) with
  | Some (ip, fp) => all_digits ip && negb (is_empty fp) && all_digits fp
  | None => false
  end.

(** [parseInt(s, 10)] on a string that passed [is_int_literal]: the
    integer its digits denote, which is the result of the program when
    that integer is a double (every integer of magnitude below 2^53
    is). *)
Definition parseInt (s : string) : Num :=
  let (neg, body) := strip_sign s in
  let v := digits_value body 0 in
  int_num (if neg then - v else v).

(** [parseFloat(s)] on a string that passed [is_float_literal]: the
    decimal it denotes, which stands for the result of the program when
    the numeral is one that [toString] prints or has at most 15
    significant digits. *)
Definition parseFloat (s : string) : Num :=
  let (neg, body) := strip_sign s in
  match split_dot body with
  | Some (ip, fp) =>
      let v := digits_value fp (digits_value ip 0) in
      normalize (if neg then - v else v) (String.length fp)
  | None => int_num 0
  end.

(** Number of trailing decimal zeros of a positive integer, and the
    integer without them. *)
Fixpoint strip_zeros (fuel : nat) (m : Z) (z : nat) : Z * nat :=
  match fuel with
  | O => (m, z)
  | S f => if (m mod 10 =? 0) && negb (m =? 0)
           then strip_zeros f (m / 10) (S z) else (m, z)
  end.

Fixpoint zeros (n : nat) : string :=
  match n with O => EmptyString | S n' => String "0"%char (zeros n') end.

(** [Number::toString(x)] for [x > 0], where [x = m / 10 ^ sc] is
    normal: with [s] the digits of [x] without trailing zeros, [k] their
    number and [x = s * 10 ^ (n - k)], the five cases of the standard. *)
Definition toString_pos (m : Z) (sc : nat) : string :=
  let (s, z) := strip_zeros (S (Z.to_nat (Z.log2 m))) m 0 in
  let ds := digits s in
  let k := Z.of_nat (String.length ds) in
  let n := k + Z.of_nat z - Z.of_nat sc in
  if (k <=? n) && (n <=? 21) then ds ++ zeros (Z.to_nat (n - k))
  else if (0 <? n) && (n <=? 21)
       then take (Z.to_nat n) ds ++ String dot (drop (Z.to_nat n) ds)
  else if (-6 <? n) && (n <=? 0)
       then String "0"%char (String dot (zeros (Z.to_nat (- n)) ++ ds))
  else
    let e := n - 1 in
    let sign := if 0 <=? e then "+" else "-" in
    let head := if k =? 1 then ds
                else take 1 ds ++ String dot (drop 1 ds) in
    head ++ "e" ++ sign ++ digits (Z.abs e).

(** [x.toString()], for the number whose shortest decimal is [x]. *)
Definition toString (x : Num) : string :=
  let x' := normalize (mant x) (scale x) in
  let m := mant x' in
  if m =? 0 then "0"
  else if m <? 0 then String dash (toString_pos (- m) (scale x'))
  else toString_pos m (scale x').

End Numeral.

(* ===================================================================== *)
(** ** Values                                                            *)
(* ===================================================================== *)

(** The scalars: [null], booleans, numbers and strings. *)
Inductive Scalar : Type :=
| Null
| Boolean (b : bool)
| Number (n : Num)
| Str (s : string).

(** A value is a scalar, an object (a mapping: its own enumerable
    properties in the order of [Object.keys]) or an array (a sequence). *)
Inductive Value : Type :=
| Prim (s : Scalar)
| Mapping (props : list (string * Value))
| Sequence (items : list Value).

Coercion Prim : Scalar >-> Value.

Definition Props : Type := list (string * Value).

Definition scalar_eqb (a b : Scalar) : bool :=
  match a, b with
  | Null, Null => true
  | Boolean x, Boolean y => Bool.eqb x y
  | Number x, Number y => num_eqb x y
  | Str x, Str y => String.eqb x y
  | _, _ => false
  end.

(** Truthiness of a value: [null], [false], [0] and [''] are falsy. *)
Definition truthy (v : Value) : bool :=
  match v with
  | Prim Null => false
  | Prim (Boolean b) => b
  | Prim (Number n) => negb (mant n =? 0)
  | Prim (Str s) => negb (Js.is_empty s)
  | Mapping _ | Sequence _ => true
  end.

(* ===================================================================== *)
(** ** Objects: own properties in JavaScript's order, inherited members  *)
(* ===================================================================== *)

Module Object.

(** An array index is the canonical numeral of an integer between 0 and
    2^32 - 2.  [Object.keys] lists the array-index keys first, in
    ascending order, and then the other keys in the order of creation. *)
Definition array_index (k : string) : option Z :=
  let canonical :=
    match k with
    | EmptyString => false
    | String c r =>
        Numeral.all_digits k && (negb (Ascii.eqb c "0"%char) || Js.is_empty r)
    end in
  if canonical
  then let v := Numeral.digits_value k 0 in
       if v <=? 4294967294 then Some v else None
  else None.

(** The own property [k], if there is one. *)
Fixpoint get (o : Props) (k : string) : option Value :=
  match o with
  | [] => None
  | (k', v) :: r => if String.eqb k' k then Some v else get r k
  end.

Definition has (o : Props) (k : string) : bool :=
  match get o k with Some _ => true | None => false end.

(** Overwrites the value of the existing property [k] in place. *)
Fixpoint replace (k : string) (v : Value) (o : Props) : Props :=
  match o with
  | [] => []
  | (k', v') :: r =>
      if String.eqb k' k then (k, v) :: r else (k', v') :: replace k v r
  end.

(** Creates the array-index property [k] (of index [i]) at its place. *)
Fixpoint insert_index (i : Z) (k : string) (v : Value) (o : Props) : Props :=
  match o with
  | [] => [(k, v)]
  | (k', v') :: r =>
      match array_index k' with
      | Some j => if j <? i then (k', v') :: insert_index i k v r
                  else (k, v) :: o
      | None => (k, v) :: o
      end
  end.

(** [o[k] = v] on own properties. *)
Definition set (k : string) (v : Value) (o : Props) : Props :=
  if has o k then replace k v o
  else match array_index k with
       | Some i => insert_index i k v o
       | None => (o ++ [(k, v)])%list
       end.

(** [Object.keys(o)] *)
Definition keys (o : Props) : list string := map fst o.

(** The members every object literal inherits from [Object.prototype]. *)
Definition prototype_members : list string :=
  ["constructor"; "hasOwnProperty"; "isPrototypeOf"; "propertyIsEnumerable";
   "toLocaleString"; "toString"; "valueOf"; "__defineGetter__";
   "__defineSetter__"; "__lookupGetter__"; "__lookupSetter__"; "__proto__"].

Definition inherited (k : string) : bool :=
  existsb (String.eqb k) prototype_members.

(** What the expression [o[k]] evaluates to: the own property, else an
    inherited member (a function, or the prototype itself for
    [__proto__]: truthy and not an array), else [undefined]. *)
Inductive Lookup : Type :=
| Own (v : Value)
| Inherited
| Undefined.

Definition lookup (o : Props) (k : string) : Lookup :=
  match get o k with
  | Some v => Own v
  | None => if inherited k then Inherited else Undefined
  end.

Definition lookup_truthy (r : Lookup) : bool :=
  match r with
  | Own v => truthy v
  | Inherited => true
  | Undefined => false
  end.

(** [Array.isArray(o[k])] *)
Definition lookup_is_array (r : Lookup) : bool :=
  match r with Own (Sequence _) => true | _ => false end.

End Object.

(* ===================================================================== *)
(** ** How a call can end                                                *)
(* ===================================================================== *)

(** [Ok]: the call returns.  [TypeError]: the call throws (the only
    exception the codec can raise: calling [push] on something that has
    none, or reading a property of [undefined]).  [Unmodelled]: the call
    leaves the embedding, which happens in two cases only: an assignment
    to the key [__proto__] (it would replace the prototype of the
    object), and a frame whose path leads to no object (no run of
    [parse] creates one, see [frames_resolve]). *)
Inductive outcome (A : Type) : Type :=
| Ok (a : A)
| TypeError
| Unmodelled.

Arguments Ok {A} a.
Arguments TypeError {A}.
Arguments Unmodelled {A}.

Definition bind {A B : Type} (m : outcome A) (f : A -> outcome B) : outcome B :=
  match m with
  | Ok a => f a
  | TypeError => TypeError
  | Unmodelled => Unmodelled
  end.

Notation "x <- m ;; k" := (bind m (fun x => k))
  (at level 61, m at next level, right associativity).

(** [o[k] = v] as a statement. *)
Definition assign (k : string) (v : Value) (o : Props) : outcome Props :=
  if String.eqb k "__proto__" then Unmodelled else Ok (Object.set k v o).

(* ===================================================================== *)
(** ** Scalar coercion: parseValue and formatValue                       *)
(* ===================================================================== *)

Import Js.

(** helpers.ts 185-206 *)
Definition parseValue (value : string) : Scalar :=
  if String.eqb value "true" then Boolean true
  else if String.eqb value "false" then Boolean false
  else if String.eqb value "null" || String.eqb value "~" then Null
  else if String.eqb value "" then Str ""
  else if Numeral.is_int_literal value then Number (Numeral.parseInt value)
  else if Numeral.is_float_literal value then Number (Numeral.parseFloat value)
  else if (startsWith value (String dquote "") && endsWith value (String dquote ""))
          || (startsWith value "'" && endsWith value "'")
       then Str (slice_1_m1 value)
  else Str value.

(** The test of helpers.ts 214-215. *)
Definition needs_quotes (value : string) : bool :=
  includes value colon || includes value hash || includes value nl
  || startsWith value "-" || startsWith value "[" || startsWith value "{".

(** helpers.ts 208-221, on the values [stringify] passes: scalars. *)
Definition formatValue (value : Scalar) : string :=
  match value with
  | Null => "null"
  | Boolean b => if b then "true" else "false"
  | Number n => Numeral.toString n
  | Str s =>
      if needs_quotes s
      then String dquote (escape_quotes s ++ String dquote "")
      else s
  end.

(* ===================================================================== *)
(** ** The encoder: stringify                                            *)
(* ===================================================================== *)

Definition concat_map {A : Type} (f : A -> string) (l : list A) : string :=
  fold_right (fun a acc => f a ++ acc) "" l.

(** helpers.ts 77-109.  An item or a value with
    [typeof item === 'object' && item !== null] is a [Mapping] or a
    [Sequence]; the others are the scalars.  A scalar at the top gives
    the empty text. *)
Fixpoint stringify (obj : Value) (indent : nat) {struct obj} : string :=
  let spaces := repeat2 indent in
  match obj with
  | Sequence items =>
      concat_map (fun item =>
        match item with
        | Prim s => spaces ++ "- " ++ formatValue s ++ String nl ""
        | _ => spaces ++ "- " ++ String nl (stringify item (indent + 1))
        end) items
  | Mapping props =>
      concat_map (fun entry =>
        let key := fst entry in
        let value := snd entry in
        match value with
        | Sequence items =>
            spaces ++ key ++ ":" ++ String nl
              (concat_map (fun item =>
                 match item with
                 | Prim s => spaces ++ "  - " ++ formatValue s ++ String nl ""
                 | _ => spaces ++ "  - "
                        ++ String nl (stringify item (indent + 2))
                 end) items)
        | Mapping _ =>
            spaces ++ key ++ ":" ++ String nl (stringify value (indent + 1))
        | Prim s => spaces ++ key ++ ": " ++ formatValue s ++ String nl ""
        end) props
  | Prim _ => ""
  end.

Definition encode (v : Value) : string := stringify v 0.

(* ===================================================================== *)
(** ** The decoder: parse                                                *)
(* ===================================================================== *)

(** helpers.ts 111-123 *)
Fixpoint getIndentLevel (line : string) : Z :=
  match line with
  | EmptyString => 0
  | String char r =>
      if Ascii.eqb char space then 1 + getIndentLevel r
      else if Ascii.eqb char tab then 2 + getIndentLevel r
      else 0
  end.

(** One entry of [stack]: [{ obj, indent, key }].  [obj] is the path from
    [result] to the object the entry refers to. *)
Record Frame : Type := mkFrame {
  obj : list string;
  indent : Z;
  key : option string
}.

(** The object graph under [result] together with [stack]; the top of the
    stack (its last element in the source) is the head of the list. *)
Record Store : Type := mkStore {
  result : Props;
  stack : list Frame
}.

(** The object at the end of a path. *)
Fixpoint get_at (path : list string) (o : Props) : option Props :=
  match path with
  | [] => Some o
  | k :: p =>
      match Object.get o k with
      | Some (Mapping o') => get_at p o'
      | _ => None
      end
  end.

(** Replaces the value of the first property named [k]. *)
Fixpoint modify (k : string) (f : Value -> Value) (o : Props) : Props :=
  match o with
  | [] => []
  | (k', v) :: r =>
      if String.eqb k' k then (k', f v) :: r else (k', v) :: modify k f r
  end.

(** A mutation of the object at the end of a path, seen from the root. *)
Fixpoint update_at (path : list string) (f : Props -> Props) (o : Props)
  : Props :=
  match path with
  | [] => f o
  | k :: p =>
      modify k (fun v => match v with
                         | Mapping o' => Mapping (update_at p f o')
                         | _ => v
                         end) o
  end.

(** [while (stack.length > 1 && stack[stack.length - 1].indent >= indent)
    stack.pop();] *)
Fixpoint unwind (indent0 : Z) (stack0 : list Frame) : list Frame :=
  match stack0 with
  | top :: (_ :: _) as rest =>
      if indent0 <=? indent top then unwind indent0 rest else stack0
  | _ => stack0
  end.

(** [stack[stack.length - 1].obj] after the unwinding, with the path that
    leads to it. *)
Definition parent_of (st : Store) (stack' : list Frame)
  : outcome (list string * Props) :=
  match stack' with
  | [] => TypeError
  | top :: _ =>
      match get_at (obj top) (result st) with
      | Some parent => Ok (obj top, parent)
      | None => Unmodelled
      end
  end.

(** [targetArray.push(parsedValue)] where [targetArray] is [parent[k]]. *)
Definition push_into (k : string) (parsedValue : Value) (parent : Props)
  : outcome Props :=
  match Object.lookup parent k with
  | Object.Own (Sequence a) =>
      Ok (Object.replace k (Sequence (a ++ [parsedValue])) parent)
  | _ => TypeError
  end.

(** A key that is [null], [undefined] or [''] is falsy. *)
Definition falsy_key (k : option string) : bool :=
  match k with
  | None => true
  | Some s => is_empty s
  end.

Definition default_key (k : option string) : string :=
  match k with
  | None => ""
  | Some s => s
  end.

(** The test of helpers.ts 144-145 on [parent[lastKey]]:
    [null], [undefined], or an object without own enumerable keys. *)
Definition null_or_empty (r : Object.Lookup) : bool :=
  match r with
  | Object.Own (Prim Null) => true
  | Object.Own (Mapping []) => true
  | Object.Own (Sequence []) => true
  | Object.Undefined => true
  | _ => false
  end.

(** [keys[keys.length - 1]] for [keys = Object.keys(parent)]. *)
Definition last_key (parent : Props) : option string :=
  match rev (Object.keys parent) with
  | [] => None
  | k :: _ => Some k
  end.

(** [parent['items'] || []] *)
Definition items_or_new (parent : Props) : Value :=
  match Object.lookup parent "items" with
  | Object.Own v => if truthy v then v else Sequence []
  | _ => Sequence []
  end.

(** helpers.ts 133-153: the mutation of [parent] that selects the target
    array, and the key under which the target array then sits. *)
Definition select_target (parent : Props) (arrayKey : option string)
  : outcome (Props * string) :=
  if negb (falsy_key arrayKey)
     && Object.lookup_truthy (Object.lookup parent (default_key arrayKey))
  then
    let k := default_key arrayKey in
    if negb (Object.lookup_is_array (Object.lookup parent k))
    then parent' <- assign k (Sequence []) parent ;; Ok (parent', k)
    else Ok (parent, k)
  else
    let lastKey := last_key parent in
    if negb (falsy_key lastKey)
       && null_or_empty (Object.lookup parent (default_key lastKey))
    then
      parent' <- assign (default_key lastKey) (Sequence []) parent ;;
      Ok (parent', default_key lastKey)
    else
      parent' <- assign "items" (items_or_new parent) parent ;;
      Ok (parent', "items").

(** helpers.ts 125-157 *)
Definition handleArrayItem (st : Store) (indent0 : Z) (value : string)
                           (arrayKey : option string) : outcome Store :=
  let stack' := unwind indent0 (stack st) in
  pp <- parent_of st stack' ;;
  let (path, parent) := pp in
  sel <- select_target parent arrayKey ;;
  let (parent1, target) := sel in
  let parsedValue := parseValue value in
  parent2 <- push_into target parsedValue parent1 ;;
  Ok (mkStore (update_at path (fun _ => parent2) (result st)) stack').

(** helpers.ts 159-175 *)
Definition handleKeyValue (st : Store) (indent0 : Z) (key0 value : string)
  : outcome Store :=
  let stack' := unwind indent0 (stack st) in
  pp <- parent_of st stack' ;;
  let (path, parent) := pp in
  if String.eqb value "" then
    parent1 <- assign key0 (Mapping []) parent ;;
    Ok (mkStore (update_at path (fun _ => parent1) (result st))
                (mkFrame (path ++ [key0]) indent0 (Some key0) :: stack'))
  else
    parent1 <- assign key0 (parseValue value) parent ;;
    Ok (mkStore (update_at path (fun _ => parent1) (result st)) stack').

(** The state of the loop of [parse]: the store and [currentArrayKey]. *)
Record State : Type := mkState {
  store : Store;
  currentArrayKey : option string
}.

Definition initial : State :=
  mkState (mkStore [] [mkFrame [] (-1) None]) None.

(** [nextLine.trim().startsWith('- ')], for [i + 1 < lines.length]. *)
Definition next_is_item (next : option string) : bool :=
  match next with
  | Some nextLine => startsWith (trim nextLine) "- "
  | None => false
  end.

(** The body of the loop of helpers.ts 35-69 for [line = lines[i]];
    [next] is [lines[i + 1]] when it exists. *)
Definition step (s : State) (line : string) (next : option string)
  : outcome State :=
  if is_empty (trim line) || startsWith (trim line) "#" then Ok s
  else
    let indent0 := getIndentLevel line in
    let trimmedLine := trim line in
    if startsWith trimmedLine "- " then
      let value := trim (substringFrom trimmedLine 2) in
      st <- handleArrayItem (store s) indent0 value (currentArrayKey s) ;;
      Ok (mkState st (currentArrayKey s))
    else
      let colonIndex := indexOf trimmedLine colon in
      if 0 <? colonIndex then
        let key0 := trim (substring trimmedLine 0 colonIndex) in
        let value := trim (substringFrom trimmedLine (colonIndex + 1)) in
        let cak := if String.eqb value "" && next_is_item next
                   then Some key0 else currentArrayKey s in
        st <- handleKeyValue (store s) indent0 key0 value ;;
        Ok (mkState st cak)
      else Ok s.

Fixpoint run (s : State) (lines : list string) : outcome State :=
  match lines with
  | [] => Ok s
  | line :: rest =>
      s' <- step s line (hd_error rest) ;;
      run s' rest
  end.

(** helpers.ts 29-72 *)
Definition parse (yamlString : string) : outcome Value :=
  s <- run initial (split_nl yamlString) ;;
  Ok (Mapping (result (store s))).

Definition decode : string -> outcome Value := parse.

(* ===================================================================== *)
(** ** Transformations of documents used by the properties               *)
(* ===================================================================== *)

(** Two spaces for every tab of the indentation of a line (its leading
    run of spaces and tabs). *)
Fixpoint retab_line (line : string) : string :=
  match line with
  | EmptyString => EmptyString
  | String c r =>
      if Ascii.eqb c space then String space (retab_line r)
      else if Ascii.eqb c tab then String space (String space (retab_line r))
      else line
  end.

Definition retab (doc : string) : string :=
  join_nl (map retab_line (split_nl doc)).

(** The indentation of a line, and the number of occurrences of a
    character in a string. *)
Fixpoint indentation (line : string) : string :=
  match line with
  | EmptyString => EmptyString
  | String c r =>
      if Ascii.eqb c space || Ascii.eqb c tab then String c (indentation r)
      else EmptyString
  end.

Fixpoint count (c : ascii) (s : string) : Z :=
  match s with
  | EmptyString => 0
  | String a r => (if Ascii.eqb a c then 1 else 0) + count c r
  end.

(** The classes of lines of the line classifier. *)
Definition is_blank (line : string) : bool := is_empty (trim line).
Definition is_comment (line : string) : bool := startsWith (trim line) "#".
Definition is_item (line : string) : bool := startsWith (trim line) "- ".
Definition is_keyvalue (line : string) : bool :=
  0 <? indexOf (trim line) colon.

(** A malformed line: not blank, not a comment, no ["- "] prefix and no
    colon at an index greater than 0. *)
Definition malformed (line : string) : bool :=
  negb (is_blank line) && negb (is_comment line)
  && negb (is_item line) && negb (is_keyvalue line).

(** The lines that stay when the malformed ones are removed. *)
Definition keep (l : string) : bool := negb (malformed l).

Definition remove_malformed (doc : string) : string :=
  join_nl (filter keep (split_nl doc)).

(** A line holds no line feed. *)
Definition no_nl (l : string) : Prop := includes l nl = false.

(** The document made of the given lines, each ended by a line feed. *)
Definition text (lines : list string) : string :=
  concat_map (fun l => l ++ String nl "") lines.

(** [encode] after [decode]. *)
Definition reencode (doc : string) : outcome string :=
  v <- decode doc ;; Ok (encode v).

(** The parts of a key-value line and of a sequence-item line. *)
Definition line_key (line : string) : string :=
  trim (substring (trim line) 0 (indexOf (trim line) colon)).

Definition line_value (line : string) : string :=
  trim (substringFrom (trim line) (indexOf (trim line) colon + 1)).

Definition item_payload (line : string) : string :=
  trim (substringFrom (trim line) 2).

(** The line is a key-value line with an empty value and the next
    physical line is a sequence item: the only lines at which [parse]
    writes [currentArrayKey]. *)
Definition sets_pending (line : string) (next : option string) : bool :=
  negb (is_blank line) && negb (is_comment line) && negb (is_item line)
  && is_keyvalue line && String.eqb (line_value line) ""
  && next_is_item next.

(** A key line with an empty value: the only kind of line at which
    [parse] looks at the next line (helpers.ts 60-64). *)
Definition opens_block (line : string) : bool :=
  negb (is_blank line) && negb (is_comment line) && negb (is_item line)
  && is_keyvalue line && String.eqb (line_value line) "".

(** The lines start with a malformed line, and the first of them that
    is not malformed is a sequence item. *)
Definition item_behind_malformed (rest : list string) : bool :=
  match rest with
  | l :: _ => malformed l && next_is_item (hd_error (filter keep rest))
  | [] => false
  end.

(** No malformed line stands between a key line with an empty value and
    a sequence-item line. *)
Fixpoint no_malformed_gap (lines : list string) : bool :=
  match lines with
  | [] => true
  | l :: rest =>
      negb (opens_block l && item_behind_malformed rest)
      && no_malformed_gap rest
  end.

(** The elements of [parent[k]] when it is an array, none otherwise. *)
Definition items_of (parent : Props) (k : string) : list Value :=
  match Object.get parent k with
  | Some (Sequence a) => a
  | _ => []
  end.

(* ===================================================================== *)
(** ** The values that survive a round trip                              *)
(* ===================================================================== *)

(** A key that [parse] reads back from the line [stringify] prints for
    it: not empty, without surrounding white space, colon or line feed,
    not a comment or item marker, and not [__proto__]. *)
Definition key_ok (k : string) : bool :=
  negb (is_empty k) && String.eqb (trim k) k
  && negb (includes k colon) && negb (includes k nl)
  && negb (startsWith k "#") && negb (startsWith k "- ")
  && negb (String.eqb k "__proto__").

(** A scalar whose printed form fits on the value side of a line: not
    empty, without line feed and without surrounding white space. *)
Definition leaf_ok (s : Scalar) : bool :=
  let t := formatValue s in
  negb (is_empty t) && String.eqb (trim t) t && negb (includes t nl).

(** Mappings nested in mappings with such keys and scalars, and no
    sequence. *)
Fixpoint plain (v : Value) : bool :=
  match v with
  | Prim s => leaf_ok s
  | Mapping props => forallb (fun e => key_ok (fst e) && plain (snd e)) props
  | Sequence _ => false
  end.

(** The order of [Object.keys]: [k] may stand before [k']. *)
Definition precedes (k k' : string) : bool :=
  negb (String.eqb k k')
  && match Object.array_index k, Object.array_index k' with
     | Some i, Some j => i <? j
     | None, Some _ => false
     | _, None => true
     end.

Fixpoint keys_ordered (ks : list string) : bool :=
  match ks with
  | [] => true
  | k :: rest => forallb (precedes k) rest && keys_ordered rest
  end.

(** Every object of the value lists distinct keys in the order of
    [Object.keys], as every JavaScript object does. *)
Fixpoint js_object (v : Value) : bool :=
  match v with
  | Prim _ => true
  | Mapping props =>
      keys_ordered (map fst props) && forallb (fun e => js_object (snd e)) props
  | Sequence items => forallb js_object items
  end.

(** What [parse] reads from the printed form of a scalar. *)
Definition reread (s : Scalar) : Scalar := parseValue (formatValue s).

(** Every scalar of the value is read back as itself. *)
Fixpoint leaves_stable (v : Value) : bool :=
  match v with
  | Prim s => scalar_eqb (reread s) s
  | Mapping props => forallb (fun e => leaves_stable (snd e)) props
  | Sequence items => forallb leaves_stable items
  end.

(** Every scalar of the value is printed again as it was printed. *)
Fixpoint leaves_reprint (v : Value) : bool :=
  match v with
  | Prim s => String.eqb (formatValue (reread s)) (formatValue s)
  | Mapping props => forallb (fun e => leaves_reprint (snd e)) props
  | Sequence items => forallb leaves_reprint items
  end.

(** The value with every scalar read back from its printed form. *)
Fixpoint reread_value (v : Value) : Value :=
  match v with
  | Prim s => Prim (reread s)
  | Mapping props => Mapping (map (fun e => (fst e, reread_value (snd e))) props)
  | Sequence items => Sequence (map reread_value items)
  end.

(** The properties that the lines of a mapping add to the object [o],
    one assignment per entry. *)
Fixpoint decoded (v : Value) : Value :=
  match v with
  | Prim s => Prim (reread s)
  | Mapping props =>
      Mapping (fold_left (fun o e => Object.set (fst e) (decoded (snd e)) o)
                         props [])
  | Sequence items => Sequence items
  end.

Definition absorb (props o : Props) : Props :=
  fold_left (fun o e => Object.set (fst e) (decoded (snd e)) o) props o.

(** The lines [stringify] prints for an entry of a mapping at depth [d],
    for a plain value. *)
Fixpoint entry_lines (d : nat) (k : string) (v : Value) : list string :=
  match v with
  | Prim s => [repeat2 d ++ k ++ ": " ++ formatValue s]
  | Mapping props =>
      (repeat2 d ++ k ++ ":")
        :: flat_map (fun e => entry_lines (S d) (fst e) (snd e)) props
  | Sequence _ => []
  end.

Definition props_lines (d : nat) (props : Props) : list string :=
  flat_map (fun e => entry_lines d (fst e) (snd e)) props.

(** A mutation of an object seen as a mutation of the value that holds
    it. *)
Definition in_mapping (f : Props -> Props) (v : Value) : Value :=
  match v with
  | Mapping o => Mapping (f o)
  | _ => v
  end.

(** [s'] is [s] after lines that worked on the object at [path], the
    parent of the lines of width [w]: the object has become [o'], the
    frames pushed meanwhile are all at width [w] or deeper, and
    [currentArrayKey] is as before. *)
Definition lands (s s' : State) (w : Z) (path : list string) (o' : Props)
  : Prop :=
  result (store s') = update_at path (fun _ => o') (result (store s))
  /\ (exists extra,
        stack (store s') = (extra ++ unwind w (stack (store s)))%list
        /\ Forall (fun f => w <= indent f) extra)
  /\ currentArrayKey s' = currentArrayKey s.

(** The lines of an entry, and of the entries of a mapping, printed at
    depth [d] and read from a state whose parent for that depth is the
    object [o] at [path]: reading them amounts to the assignments of
    [decoded] and [absorb] on that object. *)
Definition entry_decodes (v : Value) : Prop :=
  forall (k : string) (d : nat) (s : State) (rest : list string)
         (path : list string) (o : Props),
    key_ok k = true -> plain v = true ->
    parent_of (store s) (unwind (2 * Z.of_nat d) (stack (store s)))
    = Ok (path, o) ->
    next_is_item (hd_error rest) = false ->
    exists s',
      run s (entry_lines d k v ++ rest) = run s' rest
      /\ lands s s' (2 * Z.of_nat d) path (Object.set k (decoded v) o).

Definition props_decode (props : Props) : Prop :=
  forall (d : nat) (s : State) (rest : list string)
         (path : list string) (o : Props),
    plain (Mapping props) = true ->
    parent_of (store s) (unwind (2 * Z.of_nat d) (stack (store s)))
    = Ok (path, o) ->
    next_is_item (hd_error rest) = false ->
    exists s',
      run s (props_lines d props ++ rest) = run s' rest
      /\ lands s s' (2 * Z.of_nat d) path (absorb props o).

(* ===================================================================== *)
(** ** The scalars of the round trip, by their shape                     *)
(* ===================================================================== *)

(** The texts [parseValue] reads as [true], [false] or [null]. *)
Definition keyword (x : string) : bool :=
  String.eqb x "true" || String.eqb x "false"
  || String.eqb x "null" || String.eqb x "~".

(** A text between two double quotes or two single quotes. *)
Definition quote_wrapped (x : string) : bool :=
  (startsWith x (String dquote "") && endsWith x (String dquote ""))
  || (startsWith x "'" && endsWith x "'").

(** A string that is printed bare and read back as the same string. *)
Definition bare_string (x : string) : bool :=
  negb (needs_quotes x) && negb (is_empty x) && String.eqb (trim x) x
  && negb (keyword x) && negb (Numeral.is_int_literal x)
  && negb (Numeral.is_float_literal x) && negb (quote_wrapped x).

(** A string that is printed between quotes and read back as the same
    string. *)
Definition quotable_string (x : string) : bool :=
  needs_quotes x && negb (includes x dquote) && negb (includes x nl).

(** The number is in the form in which [parseInt] and [parseFloat]
    return it: no zero at the end of its fraction. *)
Definition normalized (n : Num) : bool :=
  num_eqb (normalize (mant n) (scale n)) n.

(** The number is one that [Number::toString] prints in plain notation,
    without an exponent: zero, or a number of magnitude at least 10^-6
    and below 10^21. *)
Definition plain_notation (n : Num) : bool :=
  (mant n =? 0)
  || ((10 ^ Z.of_nat (scale n) <=? Z.abs (mant n) * 10 ^ 6)
      && (Z.abs (mant n) <? 10 ^ (21 + Z.of_nat (scale n)))).

(** [null], the booleans, the numbers printed in plain notation and the
    bare and quotable strings. *)
Definition simple_scalar (s : Scalar) : bool :=
  match s with
  | Null | Boolean _ => true
  | Number n => normalized n && plain_notation n
  | Str x => bare_string x || quotable_string x
  end.

(** The digits of the number without the zeros at their end, as an
    integer. *)
Definition significand (n : Num) : Z :=
  fst (Numeral.strip_zeros (S (Z.to_nat (Z.log2 (Z.abs (mant n)))))
                           (Z.abs (mant n)) 0).

(** The numbers whose numerals [parseInt] and [parseFloat] read without
    rounding, or with a rounding that [toString] undoes: the integers of
    magnitude below 2^53 and the decimals of at most 15 significant
    digits. *)
Definition exact_number (n : Num) : bool :=
  (Nat.eqb (scale n) 0 && (Z.abs (mant n) <? 2 ^ 53))
  || (significand n <? 10 ^ 15).

(** The texts [parseValue] reads as a number, and the number it reads. *)
Definition numeral (x : string) : bool :=
  Numeral.is_int_literal x || Numeral.is_float_literal x.

Definition read_number (x : string) : Num :=
  if Numeral.is_int_literal x then Numeral.parseInt x
  else Numeral.parseFloat x.

(** A string that is printed bare and read back as a boolean, as [null]
    or as a number that prints the same text. *)
Definition relabelled_string (x : string) : bool :=
  String.eqb x "true" || String.eqb x "false" || String.eqb x "null"
  || (negb (needs_quotes x) && numeral x
      && exact_number (read_number x)
      && String.eqb (Numeral.toString (read_number x)) x).

(** A string that is printed bare and carries double quotes around a
    text that [formatValue] quotes: [parseValue] takes the quotes off
    and [formatValue] puts them back. *)
Definition requoted_string (x : string) : bool :=
  negb (needs_quotes x)
  && String.eqb x (String dquote (slice_1_m1 x ++ String dquote ""))
  && needs_quotes (slice_1_m1 x)
  && negb (includes (slice_1_m1 x) dquote).

(** The scalars that are printed, once read back, as they were printed:
    the simple scalars, the positive numbers printed with an exponent
    (they are read back as the string of their text), and the relabelled
    and requoted strings. *)
Definition reprintable_scalar (s : Scalar) : bool :=
  simple_scalar s
  || match s with
     | Number n => normalized n && (0 <? mant n)
     | Str x => relabelled_string x || requoted_string x
     | _ => false
     end.

(** The scalars within the range of the embedding of numbers: a number
    is in the form without superfluous zeros, and a numeral in a bare
    string denotes an exact number. *)
Definition scalar_in_range (s : Scalar) : bool :=
  match s with
  | Number n => normalized n
  | Str x => needs_quotes x || negb (numeral x) || exact_number (read_number x)
  | _ => true
  end.

Fixpoint in_range (v : Value) : bool :=
  match v with
  | Prim s => scalar_in_range s
  | Mapping props => forallb (fun e => in_range (snd e)) props
  | Sequence items => forallb in_range items
  end.

(** What [parseValue] makes of a string that is printed bare. *)
Inductive bare_reading (x : string) : Scalar -> Prop :=
| reads_true : x = "true" -> bare_reading x (Boolean true)
| reads_false : x = "false" -> bare_reading x (Boolean false)
| reads_null : x = "null" -> bare_reading x Null
| reads_tilde : x = "~" -> bare_reading x Null
| reads_number :
    keyword x = false -> numeral x = true ->
    bare_reading x (Number (read_number x))
| reads_unquoted :
    keyword x = false -> numeral x = false -> quote_wrapped x = true ->
    bare_reading x (Str (slice_1_m1 x))
| reads_itself :
    keyword x = false -> numeral x = false -> quote_wrapped x = false ->
    bare_reading x (Str x).

(** Every character of the string is of the given class. *)
Fixpoint every (p : ascii -> bool) (s : string) : bool :=
  match s with
  | EmptyString => true
  | String c r => p c && every p r
  end.

(** The characters of the texts [Number::toString] prints. *)
Definition numeric_char (c : ascii) : bool :=
  is_digit c || Ascii.eqb c dot || Ascii.eqb c dash
  || Ascii.eqb c "e" || Ascii.eqb c "+".

(** Mappings nested in mappings, with printable keys and scalars of the
    given class. *)
Fixpoint mapping_of (leaf : Scalar -> bool) (v : Value) : bool :=
  match v with
  | Prim s => leaf s
  | Mapping props =>
      forallb (fun e => key_ok (fst e) && mapping_of leaf (snd e)) props
  | Sequence _ => false
  end.

Definition is_nil {A : Type} (l : list A) : bool :=
  match l with [] => true | _ :: _ => false end.

(** As [mapping_of], with lists without elements among the values. *)
Fixpoint mapping_or_nil_of (leaf : Scalar -> bool) (v : Value) : bool :=
  match v with
  | Prim s => leaf s
  | Mapping props =>
      forallb (fun e => key_ok (fst e) && mapping_or_nil_of leaf (snd e)) props
  | Sequence items => is_nil items
  end.

(** The values that [encode] prints to a text which is printed again
    from what [decode] reads in it: a scalar or a list without elements
    (both are printed as the empty text), or a mapping with printable
    keys whose values are such mappings, lists without elements or
    reprintable scalars. *)
Definition reprintable (v : Value) : bool :=
  match v with
  | Prim _ => true
  | Mapping _ => mapping_or_nil_of reprintable_scalar v
  | Sequence items => is_nil items
  end.

(* ===================================================================== *)
(** ** The frames of a run                                               *)
(* ===================================================================== *)

(** Every frame refers to an object inside the object of each frame
    below it. *)
Fixpoint nested_paths (stk : list Frame) : Prop :=
  match stk with
  | [] => True
  | f :: rest =>
      Forall (fun g => exists q, obj f = (obj g ++ q)%list) rest
      /\ nested_paths rest
  end.

(** The stack is not empty and the path of every frame leads to an
    object. *)
Definition frames_ok (st : Store) : Prop :=
  stack st <> []
  /\ nested_paths (stack st)
  /\ Forall (fun f => get_at (obj f) (result st) <> None) (stack st).

(** The document line with a malformed line blanked. *)
Definition blank_malformed (line : string) : string :=
  if malformed line then "" else line.

(** The document with every malformed line replaced by an empty line. *)
Definition blank_malformed_lines (doc : string) : string :=
  join_nl (map blank_malformed (split_nl doc)).

(** ['items'] is absent from the object, or bound to an array or to a
    falsy value: the cases in which [parent['items'] || []] is an
    array. *)
Definition items_usable (parent : Props) : bool :=
  match Object.get parent "items" with
  | Some (Sequence _) => true
  | Some v => negb (truthy v)
  | None => true
  end.

(* ===================================================================== *)
(** ** Sample states and values                                          *)
(* ===================================================================== *)

(** The state of [parse] after the lines "k:" and "- a". *)
Definition after_first_list : State :=
  mkState (mkStore [("k", Sequence [Prim (Str "a")])] [mkFrame [] (-1) None])
          (Some "k").

(** The state of [parse] after the lines "k:", "- a", "x: 1" and
    "k: 5". *)
Definition after_scalar_rebinding : State :=
  mkState (mkStore [("k", Prim (Number (int_num 5)));
                    ("x", Prim (Number (int_num 1)))]
                   [mkFrame [] (-1) None])
          (Some "k").

(** A configuration of simple scalars, with an array-index key, a quoted
    string, decimals and an empty mapping. *)
Definition sample_config : Props :=
  [("9", Prim (Str "first"));
   ("name", Prim (Str "source_db"));
   ("port", Prim (Number (int_num 5432)));
   ("ratio", Prim (Number (mkNum (-125) 2)));
   ("step", Prim (Number (mkNum 15 7)));
   ("ssl", Prim (Boolean false));
   ("options",
    Mapping [("note", Prim (Str "a: b")); ("none", Prim Null);
             ("empty", Mapping [])])].

(** Scalars that are not read back as themselves and are printed again
    as they were: strings read as a boolean and as numbers, a number
    printed with an exponent, a string that carries its quotes; and a
    list without elements. *)
Definition sample_strings : Props :=
  [("flag", Prim (Str "true"));
   ("count", Prim (Str "42"));
   ("share", Prim (Str "0.5"));
   ("limit", Prim (Number (mkNum 1000000000000000000000 0)));
   ("offset", Prim (Str (String dquote ("-5" ++ String dquote ""))));
   ("tags", Sequence []);
   ("host", Prim (Str "localhost"));
   ("inner", Mapping [("url", Prim (Str "http://x"))])].
(* ===================================================================== *)
(** * The rest of the codec and the code around it                       *)
(* ===================================================================== *)

(** ** The stack of [parse]                                              *)

(** The frame [parse] starts with: [{ obj: result, indent: -1, key: null }]. *)
Definition sentinel : Frame := mkFrame [] (-1) None.

(** helpers.ts 177-183: the stack after the unwinding, and its top. *)
Definition findParentAtIndent (stack0 : list Frame) (indent0 : Z)
  : list Frame * option Frame :=
  let stack' := unwind indent0 stack0 in
  (stack', hd_error stack').

(** The sentinel is at the bottom and the widths grow strictly from the
    bottom to the top. *)
Fixpoint stack_ordered (stk : list Frame) : Prop :=
  match stk with
  | [] => False
  | f :: rest =>
      match rest with
      | [] => f = sentinel
      | g :: _ => indent g < indent f /\ stack_ordered rest
      end
  end.

(** ** Shapes of decoded values                                          *)

Definition is_scalar (v : Value) : bool :=
  match v with Prim _ => true | _ => false end.

(** Every sequence of the value holds scalars only. *)
Fixpoint flat_sequences (v : Value) : bool :=
  match v with
  | Prim _ => true
  | Mapping props => forallb (fun e => flat_sequences (snd e)) props
  | Sequence items => forallb is_scalar items
  end.

(** Every sequence of the object holds scalars only. *)
Definition flat (o : Props) : bool := flat_sequences (Mapping o).

(** ** Lines the loop of [parse] passes over                             *)

(** Blank lines, comments and malformed lines. *)
Definition ignored (line : string) : bool :=
  is_blank line || is_comment line || malformed line.

Definition strip_ignored (doc : string) : string :=
  join_nl (filter (fun l => negb (ignored l)) (split_nl doc)).

(** No ignored line stands directly before a sequence-item line. *)
Fixpoint no_item_after_ignored (lines : list string) : bool :=
  match lines with
  | l :: (l' :: _) as rest =>
      negb (ignored l && is_item l') && no_item_after_ignored rest
  | _ => true
  end.

(** The key of a key-value line is [__proto__]. *)
Definition proto_line (line : string) : bool :=
  negb (ignored line) && negb (is_item line)
  && String.eqb (line_key line) "__proto__".

(** ** Line endings                                                      *)

Definition cr : ascii := "013"%char.

(** The document with a carriage return before every line feed. *)
Fixpoint to_crlf (doc : string) : string :=
  match doc with
  | EmptyString => EmptyString
  | String c r =>
      if Ascii.eqb c nl then String cr (String nl (to_crlf r))
      else String c (to_crlf r)
  end.

(** A carriage return at the end of every line but the last. *)
Fixpoint add_cr (lines : list string) : list string :=
  match lines with
  | [] => []
  | l :: rest =>
      match rest with
      | [] => [l]
      | _ :: _ => (l ++ String cr "") :: add_cr rest
      end
  end.

(** ** Indentation                                                       *)

(** The line with every space and every tab of its indentation written
    twice, and the document with every line so widened. *)
Fixpoint widen_line (line : string) : string :=
  match line with
  | EmptyString => EmptyString
  | String c r =>
      if Ascii.eqb c space || Ascii.eqb c tab
      then String c (String c (widen_line r))
      else line
  end.

Definition widen (doc : string) : string :=
  join_nl (map widen_line (split_nl doc)).

(** The frame, and the state, that the widened document reaches where
    the document reaches the given one: the indentations of the frames
    pushed by key lines are doubled. *)
Definition widen_frame (f : Frame) : Frame :=
  mkFrame (obj f) (if indent f <? 0 then indent f else 2 * indent f) (key f).

Definition widen_store (st : Store) : Store :=
  mkStore (result st) (map widen_frame (stack st)).

Definition widen_state (s : State) : State :=
  mkState (widen_store (store s)) (currentArrayKey s).

(** ** Sequences                                                         *)

(** The payload of an item line that [parse] reads back as written: not
    empty, without surrounding white space or line feed. *)
Definition payload_ok (t : string) : bool :=
  negb (is_empty t) && String.eqb (trim t) t && negb (includes t nl).

(** ** Mappings with lists of scalars                                    *)

(** An element of a sequence that [stringify] prints on one item line. *)
Definition scalar_item (v : Value) : bool :=
  match v with Prim s => leaf_ok s | _ => false end.

(** A key bound to a sequence that has elements is not the name of a
    member of [Object.prototype]. *)
Definition list_key_ok (k : string) (v : Value) : bool :=
  match v with
  | Sequence (_ :: _) => negb (Object.inherited k)
  | _ => true
  end.

(** Mappings nested in mappings, with printable keys, scalars that fit
    on a line and sequences of such scalars. *)
Fixpoint listed (v : Value) : bool :=
  match v with
  | Prim s => leaf_ok s
  | Mapping props =>
      forallb (fun e => key_ok (fst e) && list_key_ok (fst e) (snd e)
                        && listed (snd e)) props
  | Sequence items => forallb scalar_item items
  end.

(** The object the item lines of a list leave behind: the list under
    ['items'], or nothing when there was no item line. *)
Definition items_obj (a : list Value) : Props :=
  match a with
  | [] => []
  | _ :: _ => [("items", Sequence a)]
  end.

(** The value with every scalar read back from its printed form and
    every sequence replaced by the object that holds it under
    ['items']. *)
Fixpoint itemised (v : Value) : Value :=
  match v with
  | Prim s => Prim (reread s)
  | Mapping props => Mapping (map (fun e => (fst e, itemised (snd e))) props)
  | Sequence items => Mapping (items_obj (map reread_value items))
  end.

(** The same, built by one assignment per entry. *)
Fixpoint relisted (v : Value) : Value :=
  match v with
  | Prim s => Prim (reread s)
  | Mapping props =>
      Mapping (fold_left (fun o e => Object.set (fst e) (relisted (snd e)) o)
                         props [])
  | Sequence items => Mapping (items_obj (map reread_value items))
  end.

(** The line [stringify] prints for a scalar element at depth [d]. *)
Definition item_line (d : nat) (v : Value) : string :=
  repeat2 d ++ "- " ++ match v with Prim s => formatValue s | _ => "" end.

(** The lines [stringify] prints for an entry of a mapping at depth [d]
    when the sequences hold scalars. *)
Fixpoint block_lines (d : nat) (k : string) (v : Value) : list string :=
  match v with
  | Prim s => [repeat2 d ++ k ++ ": " ++ formatValue s]
  | Mapping props =>
      (repeat2 d ++ k ++ ":")
        :: flat_map (fun e => block_lines (S d) (fst e) (snd e)) props
  | Sequence items => (repeat2 d ++ k ++ ":") :: map (item_line (S d)) items
  end.

Definition blocks_lines (d : nat) (props : Props) : list string :=
  flat_map (fun e => block_lines d (fst e) (snd e)) props.

(** [lands] without the clause on [currentArrayKey]. *)
Definition settles (s s' : State) (w : Z) (path : list string) (o' : Props)
  : Prop :=
  result (store s') = update_at path (fun _ => o') (result (store s))
  /\ (exists extra,
        stack (store s') = (extra ++ unwind w (stack (store s)))%list
        /\ Forall (fun f => w <= indent f) extra).

(** The pending key is absent or no member of [Object.prototype]. *)
Definition pending_ok (k : option string) : bool :=
  match k with
  | Some k => negb (Object.inherited k)
  | None => true
  end.

Definition block_decodes (v : Value) : Prop :=
  forall (k : string) (d : nat) (s : State) (rest : list string)
         (path : list string) (o : Props),
    key_ok k = true -> list_key_ok k v = true -> listed v = true ->
    parent_of (store s) (unwind (2 * Z.of_nat d) (stack (store s)))
    = Ok (path, o) ->
    next_is_item (hd_error rest) = false ->
    exists s',
      run s (block_lines d k v ++ rest) = run s' rest
      /\ settles s s' (2 * Z.of_nat d) path (Object.set k (relisted v) o).

Definition blocks_decode (props : Props) : Prop :=
  forall (d : nat) (s : State) (rest : list string)
         (path : list string) (o : Props),
    listed (Mapping props) = true ->
    parent_of (store s) (unwind (2 * Z.of_nat d) (stack (store s)))
    = Ok (path, o) ->
    next_is_item (hd_error rest) = false ->
    exists s',
      run s (blocks_lines d props ++ rest) = run s' rest
      /\ settles s s' (2 * Z.of_nat d) path
           (fold_left (fun o e => Object.set (fst e) (relisted (snd e)) o)
                      props o).

(** ** Lists written at the indentation of their key                     *)

(** The lines of a list under the key [k] at depth [d], the item lines
    indented as the key line is. *)
Definition flush_block (d : nat) (k : string) (ts : list string) : list string :=
  (repeat2 d ++ k ++ ":") :: map (fun t => repeat2 d ++ "- " ++ t) ts.

(** A printable key with at least one payload, all payloads readable. *)
Definition flush_ok (b : string * list string) : bool :=
  key_ok (fst b)
  && match snd b with [] => false | _ :: _ => true end
  && forallb payload_ok (snd b).

(** The array [parse] builds from the payloads. *)
Definition flush_value (ts : list string) : Value :=
  Sequence (map (fun t => Prim (parseValue t)) ts).

Definition flush_lines (blocks : list (string * list string)) : list string :=
  flat_map (fun b => flush_block 0 (fst b) (snd b)) blocks.

(** ** Documents of key-value lines                                      *)

(** A key-value line at the top level, and the entries that make
    readable ones. *)
Definition entry_line (e : string * string) : string :=
  fst e ++ ": " ++ snd e.

Definition entry_ok (e : string * string) : bool :=
  key_ok (fst e) && payload_ok (snd e).

(** The payload of the last line that has the key [k]. *)
Fixpoint last_value (entries : list (string * string)) (k : string)
  : option string :=
  match entries with
  | [] => None
  | (k', t) :: rest =>
      match last_value rest k with
      | Some t' => Some t'
      | None => if String.eqb k' k then Some t else None
      end
  end.

(** ** What [stringify] cannot tell apart                                *)

(** The value with every empty sequence replaced by an empty mapping. *)
Fixpoint emptied (v : Value) : Value :=
  match v with
  | Prim s => Prim s
  | Mapping props => Mapping (map (fun e => (fst e, emptied (snd e))) props)
  | Sequence items =>
      match items with
      | [] => Mapping []
      | _ :: _ => Sequence (map emptied items)
      end
  end.

(** The value prints the same text with its empty sequences replaced. *)
Definition same_text (v : Value) : Prop :=
  forall d, stringify (emptied v) d = stringify v d.

(* ===================================================================== *)
(** * The helper functions of helpers.ts 1-21                            *)
(* ===================================================================== *)

(** [String.prototype.toLowerCase] on one code unit below 256: the
    letters A-Z and the capital letters of Latin-1 (192-214 and 216-222)
    move up by 32, every other code unit stays. *)
Definition toLowerCase_unit (c : ascii) : ascii :=
  let n := nat_of_ascii c in
  if ((65 <=? n) && (n <=? 90) || (192 <=? n) && (n <=? 214)
      || (216 <=? n) && (n <=? 222))%nat
  then ascii_of_nat (n + 32) else c.

Fixpoint toLowerCase (s : string) : string :=
  match s with
  | EmptyString => EmptyString
  | String c r => String (toLowerCase_unit c) (toLowerCase r)
  end.

(** [s.replace(/ /g, '_')] *)
Definition underscore (c : ascii) : ascii :=
  if Ascii.eqb c space then "_"%char else c.

Fixpoint replace_spaces (s : string) : string :=
  match s with
  | EmptyString => EmptyString
  | String c r => String (underscore c) (replace_spaces r)
  end.

(** helpers.ts 1-3 *)
Definition formatTableName (tableName : string) : string :=
  replace_spaces (toLowerCase tableName).

(** [typeof v === 'object'] *)
Definition is_object (v : Value) : bool :=
  match v with
  | Prim Null | Mapping _ | Sequence _ => true
  | Prim _ => false
  end.

(** helpers.ts 5-12 *)
Definition validateMigrationConfig (config : Value) : bool :=
  if negb (truthy config) || negb (is_object config) then false else true.

(** helpers.ts 14-16 *)
Definition generateYAMLHeader (title : string) : string :=
  "# Migration Configuration for " ++ title ++ String nl "".

(** The pieces with one more character in front of the first. *)
Definition prepend (c : ascii) (pieces : list string) : list string :=
  match pieces with
  | [] => [String c EmptyString]
  | l :: ls => String c l :: ls
  end.

(** [s.split('->')]: the pieces between the occurrences of the
    separator, found from the left without overlap; never empty. *)
Fixpoint split_arrow (s : string) : list string :=
  match s with
  | EmptyString => [EmptyString]
  | String c r =>
      match r with
      | String c' r' =>
          if Ascii.eqb c "-" && Ascii.eqb c' ">"
          then EmptyString :: split_arrow r'
          else prepend c (split_arrow r)
      | EmptyString => [String c EmptyString]
      end
  end.

(** The string holds the separator ["->"]. *)
Fixpoint has_arrow (s : string) : bool :=
  match s with
  | EmptyString => false
  | String c r =>
      match r with
      | String c' _ => (Ascii.eqb c "-" && Ascii.eqb c' ">") || has_arrow r
      | EmptyString => false
      end
  end.

(** [{ from, to }]; a piece that does not exist is [undefined]. *)
Record Relationship : Type := mkRelationship {
  from : option string;
  to : option string
}.

(** helpers.ts 18-21 *)
Definition parseSoftDefinedRelationship (relationship : string) : Relationship :=
  let pieces := map trim (split_arrow relationship) in
  mkRelationship (nth_error pieces 0) (nth_error pieces 1).

(* ===================================================================== *)
(** * The callers of the codec                                           *)
(* ===================================================================== *)

(** ** The class YamlParser                                              *)

Module YamlParser.

Definition parse (input : string) : outcome Value := parse input.

Definition requiredFields : list string := ["database"; "host"; "port"].

(** [field in parsedData] for a required field and a truthy value of
    type object.  The required fields are no indices and no members of
    [Array.prototype], so an array has none of them. *)
Definition has_field (parsedData : Value) (field : string) : bool :=
  match parsedData with
  | Mapping o =>
      match Object.lookup o field with
      | Object.Undefined => false
      | _ => true
      end
  | _ => false
  end.

Definition validate (parsedData : Value) : bool :=
  if negb (truthy parsedData) || negb (is_object parsedData) then false
  else forallb (has_field parsedData) requiredFields.

End YamlParser.

(** ** The class YamlGenerator                                           *)

Module YamlGenerator.

Definition convertToYaml (obj : Value) : string := stringify obj 0.

Definition ports : Props :=
  [("mysql", Prim (Number (int_num 3306)));
   ("postgresql", Prim (Number (int_num 5432)));
   ("sqlite", Prim (Number (int_num 0)));
   ("mssql", Prim (Number (int_num 1433)));
   ("oracle", Prim (Number (int_num 1521)));
   ("mongodb", Prim (Number (int_num 27017)))].

(** [table[provider] || fallback]; [None] when [provider] names a member
    of [Object.prototype], whose value is a function. *)
Definition entry_or (table : Props) (provider : string) (fallback : Value)
  : option Value :=
  match Object.lookup table provider with
  | Object.Own v => Some (if truthy v then v else fallback)
  | Object.Inherited => None
  | Object.Undefined => Some fallback
  end.

Definition getDefaultPort (provider : string) : option Value :=
  entry_or ports provider (Prim (Number (int_num 0))).

Definition options : Props :=
  [("mysql", Mapping [("ssl", Prim (Boolean false))]);
   ("postgresql", Mapping [("ssl", Prim (Boolean false))]);
   ("sqlite", Mapping [("filePath", Prim (Str "./database.sqlite"))]);
   ("mssql", Mapping [("encrypt", Prim (Boolean true));
                      ("trustServerCertificate", Prim (Boolean false))]);
   ("oracle", Mapping [("serviceName", Prim (Str "your_service_name"))]);
   ("mongodb", Mapping [("authSource", Prim (Str "admin"));
                        ("ssl", Prim (Boolean false))])].

Definition getProviderOptions (provider : string) : option Value :=
  entry_or options provider (Mapping []).

(** The object under [source] and under [target]. *)
Definition connection (provider port opts : Value) (database : string) : Value :=
  Mapping [("provider", provider);
           ("host", Prim (Str "localhost"));
           ("port", port);
           ("username", Prim (Str "your_username"));
           ("password", Prim (Str "your_password"));
           ("database", Prim (Str database));
           ("options", opts)].

(** The local [template] of [generateConfigTemplate]. *)
Definition template (provider : string) (port opts : Value) : Value :=
  Mapping
    [("version", Prim (Str "2.0"));
     ("migration",
      Mapping
        [("source", connection (Prim (Str provider)) port opts "your_database");
         ("target", connection (Prim (Str provider)) port opts "target_database");
         ("options",
          Mapping [("includeData", Prim (Boolean false));
                   ("batchSize", Prim (Number (int_num 1000)));
                   ("generateScripts", Prim (Boolean false));
                   ("tables", Sequence []);
                   ("collections", Sequence [])])])].

Definition generateConfigTemplate (provider : string) : option string :=
  match getDefaultPort provider, getProviderOptions provider with
  | Some port, Some opts => Some (convertToYaml (template provider port opts))
  | _, _ => None
  end.

Definition generateTableMigrationYaml (tableName : string)
                                      (relationships : list Value) : string :=
  convertToYaml (Mapping [("table", Prim (Str tableName));
                          ("relationships", Sequence relationships)]).

(** The legacy [generate] passes no relationship on. *)
Definition generate (tableName : string) (relationships : list Value) : string :=
  generateTableMigrationYaml tableName [].

(** What [parse] reads from the text of the template. *)
Definition template_read (provider : string) (port opts : Value) : Value :=
  Mapping
    [("version", Prim (Number (int_num 2)));
     ("migration",
      Mapping
        [("source",
          connection (Prim (reread (Str provider))) port opts "your_database");
         ("target",
          connection (Prim (reread (Str provider))) port opts "target_database");
         ("options",
          Mapping [("includeData", Prim (Boolean false));
                   ("batchSize", Prim (Number (int_num 1000)));
                   ("generateScripts", Prim (Boolean false));
                   ("tables", Mapping []);
                   ("collections", Mapping [])])])].

End YamlGenerator.

(** ** loadConfigFromFile (cli/commands/migrate.ts), after the file is read *)

(** [v?.k] for the keys [source], [target] and [migration], which no
    prototype defines: the own property of an object, [undefined] on
    anything else. *)
Definition property (v : option Value) (k : string) : option Value :=
  match v with
  | Some (Mapping o) => Object.get o k
  | _ => None
  end.

(** [a || b] *)
Definition or_else (a b : option Value) : option Value :=
  match a with
  | Some v => if truthy v then a else b
  | None => b
  end.

(** migrate.ts 126-141 for a file that is no JSON file: the pair
    [{ source, target }]. *)
Definition loadConfigFromFile (configContent : string)
  : outcome (option Value * option Value) :=
  config <- parse configContent ;;
  Ok (or_else (property (Some config) "source")
              (property (property (Some config) "migration") "source"),
      or_else (property (Some config) "target")
              (property (property (Some config) "migration") "target")).

(** ** DatabaseFactory.validateConfig, as executeMigrate calls it on the
    loaded configurations                                               *)

Module DatabaseFactory.

Definition getSupportedProviders : list string :=
  ["mysql"; "postgresql"; "sqlite"; "mssql"; "oracle"; "mongodb"].

(** The messages [validateConfig] pushes, in the order of the source:
    'Database provider is required', 'Unsupported database provider: ...'
    (with the provider), 'Host is required', 'Valid port number is
    required', 'Username is required', 'Password is required', 'File
    path is required for SQLite', 'Database name is required', 'Either
    serviceName or SID is required for Oracle'. *)
Inductive ConfigError : Type :=
| ProviderRequired
| UnsupportedProvider (provider : Value)
| HostRequired
| PortRequired
| UsernameRequired
| PasswordRequired
| FilePathRequired
| DatabaseRequired
| ServiceNameRequired.

(** [config.k] on a value that is neither [null] nor [undefined], for
    the keys [validateConfig] reads, which no prototype defines. *)
Definition member (config : Value) (k : string) : option Value :=
  match config with
  | Mapping o => Object.get o k
  | _ => None
  end.

(** [!v] *)
Definition falsy (v : option Value) : bool :=
  match v with
  | None => true
  | Some x => negb (truthy x)
  end.

(** [v === s] for a string [s] *)
Definition is_string (v : option Value) (s : string) : bool :=
  match v with
  | Some (Prim (Str x)) => String.eqb x s
  | _ => false
  end.

(** [this.getSupportedProviders().includes(v)] *)
Definition supported (v : option Value) : bool :=
  existsb (is_string v) getSupportedProviders.

(** [!port || port <= 0]: on a truthy string, object or array the
    comparison converts the value to a number, which the embedding does
    not follow. *)
Definition port_invalid (port : option Value) : outcome bool :=
  match port with
  | None => Ok true
  | Some v =>
      if negb (truthy v) then Ok true
      else match v with
           | Prim (Number n) => Ok (mant n <=? 0)
           | Prim (Boolean _) => Ok false
           | _ => Unmodelled
           end
  end.

Definition when (b : bool) (e : ConfigError) : list ConfigError :=
  if b then [e] else [].

(** The factory's validateConfig; reading [config.provider] throws when
    [config] is [undefined] or [null]. *)
Definition validateConfig (config : option Value)
  : outcome (list ConfigError) :=
  match config with
  | None | Some (Prim Null) => TypeError
  | Some c =>
      let provider := member c "provider" in
      let options := member c "options" in
      let about_provider :=
        if falsy provider then [ProviderRequired]
        else match provider with
             | Some p => when (negb (supported provider)) (UnsupportedProvider p)
             | None => []
             end in
      about_connection <-
        (if negb (is_string provider "sqlite") then
           bad_port <- port_invalid (member c "port") ;;
           Ok (when (falsy (member c "host")) HostRequired
               ++ when bad_port PortRequired
               ++ when (falsy (member c "username")) UsernameRequired
               ++ when (falsy (member c "password")) PasswordRequired)%list
         else Ok []) ;;
      let about_database :=
        if falsy (member c "database") then
          if is_string provider "sqlite"
          then when (falsy (property options "filePath")) FilePathRequired
          else [DatabaseRequired]
        else [] in
      let about_oracle :=
        if is_string provider "oracle"
        then when (falsy (property options "serviceName")
                   && falsy (property options "sid")) ServiceNameRequired
        else [] in
      Ok (about_provider ++ about_connection ++ about_database
          ++ about_oracle)%list
  end.

End DatabaseFactory.

(** executeMigrate (migrate.ts 30-62) up to the validation, for a
    configuration file that is no JSON file: the errors found in the
    source and in the target. *)
Definition validate_loaded (configContent : string)
  : outcome (list DatabaseFactory.ConfigError
             * list DatabaseFactory.ConfigError) :=
  configs <- loadConfigFromFile configContent ;;
  sourceErrors <- DatabaseFactory.validateConfig (fst configs) ;;
  targetErrors <- DatabaseFactory.validateConfig (snd configs) ;;
  Ok (sourceErrors, targetErrors).

(** The errors of a template: none for a supported provider. *)
Definition template_errors (provider : string)
  : list DatabaseFactory.ConfigError :=
  if existsb (String.eqb provider) DatabaseFactory.getSupportedProviders
  then []
  else [DatabaseFactory.UnsupportedProvider (Prim (Str provider));
        DatabaseFactory.PortRequired].

(** The cases of a lookup in a table written out as a list. *)
Ltac table_cases G :=
  cbn [Object.get] in G;
  repeat match type of G with
         | (if ?b then _ else _) = _ => destruct b
         end;
  try discriminate.
(* ===================================================================== *)
(** * Properties                                                         *)
(* ===================================================================== *)

Unset Implicit Arguments.

#[local] Arguments Z.add : simpl never.
#[local] Arguments Z.mul : simpl never.
#[local] Arguments Z.sub : simpl never.
#[local] Arguments Z.leb : simpl never.
#[local] Arguments Z.ltb : simpl never.
#[local] Arguments startsWith : simpl never.

(** ** Numerals: examples *)

Example toString_examples :
  map Numeral.toString
      [int_num 0; int_num 42; int_num (-7); mkNum 15 1; mkNum (-125) 2;
       mkNum 5 3; mkNum 1 7; int_num (10 ^ 21); int_num 1200; mkNum 150 2;
       mkNum 123 8; int_num (12 * 10 ^ 21)]
  = ["0"; "42"; "-7"; "1.5"; "-1.25"; "0.005"; "1e-7"; "1e+21"; "1200";
     "1.5"; "0.00000123"; "1.2e+22"].
Proof. vm_compute. reflexivity. Qed.

Example parse_number_examples :
  (Numeral.parseInt "-007", Numeral.parseFloat "-12.50",
   Numeral.parseFloat ".5", Numeral.is_float_literal "1.",
   Numeral.is_int_literal "-", Numeral.is_float_literal "-.5")
  = (int_num (-7), mkNum (-125) 1, mkNum 5 1, false, false, true).
Proof. vm_compute. reflexivity. Qed.

(** ** Lines of a document *)

Section Lines.

Lemma split_nl_nonempty (s : string) : split_nl s <> [].
Proof.
  destruct s as [|c r]; simpl; [discriminate|].
  destruct (Ascii.eqb c nl); [discriminate|].
  destruct (split_nl r); discriminate.
Qed.

Lemma split_nl_no_nl (s : string) : Forall no_nl (split_nl s).
Proof.
  induction s as [|c r IH]; simpl.
  - repeat constructor.
  - destruct (Ascii.eqb c nl) eqn:E.
    + constructor; [reflexivity | exact IH].
    + destruct (split_nl r) as [|l ls].
      * repeat constructor. unfold no_nl; simpl. now rewrite E.
      * inversion IH; subst. constructor; [|assumption].
        unfold no_nl in *; simpl. now rewrite E.
Qed.

Lemma split_nl_single (l : string) : no_nl l -> split_nl l = [l].
Proof.
  unfold no_nl. induction l as [|c r IH]; simpl; intros H; [reflexivity|].
  apply orb_false_iff in H as [Hc Hr]. rewrite Hc, (IH Hr). reflexivity.
Qed.

Lemma split_nl_app (l t : string) :
  no_nl l -> split_nl (l ++ String nl t) = l :: split_nl t.
Proof.
  unfold no_nl. induction l as [|c r IH]; simpl; intros H.
  - reflexivity.
  - apply orb_false_iff in H as [Hc Hr]. rewrite Hc, (IH Hr). reflexivity.
Qed.

Lemma split_join (ls : list string) :
  ls <> [] -> Forall no_nl ls -> split_nl (join_nl ls) = ls.
Proof.
  induction ls as [|l ls IH]; intros Hne Hall; [congruence|].
  inversion Hall as [|? ? Hl Hls]; subst.
  destruct ls as [|l' ls'].
  - simpl. now apply split_nl_single.
  - change (join_nl (l :: l' :: ls'))
      with (l ++ String nl (join_nl (l' :: ls'))).
    rewrite split_nl_app by assumption.
    f_equal. apply IH; [discriminate | assumption].
Qed.

End Lines.

(** ** What a step reads of a line *)

Section LineView.

(** The loop body reads a line through its indentation width and its
    trimmed form only, and the next line through the item test only. *)
Lemma step_ext (s : State) (l1 l2 : string) (n1 n2 : option string) :
  getIndentLevel l1 = getIndentLevel l2 ->
  trim l1 = trim l2 ->
  next_is_item n1 = next_is_item n2 ->
  step s l1 n1 = step s l2 n2.
Proof.
  intros Hi Ht Hn. unfold step. rewrite Hi, Ht, Hn. reflexivity.
Qed.

Lemma run_ext (f : string -> string) :
  (forall l, getIndentLevel (f l) = getIndentLevel l) ->
  (forall l, trim (f l) = trim l) ->
  forall (ls : list string) (s : State), run s (map f ls) = run s ls.
Proof.
  intros Hi Ht. induction ls as [|l ls IH]; intros s; [reflexivity|].
  simpl. rewrite (step_ext s (f l) l (hd_error (map f ls)) (hd_error ls)).
  - destruct (step s l (hd_error ls)); simpl; auto.
  - apply Hi.
  - apply Ht.
  - destruct ls; simpl; [reflexivity|]. now rewrite Ht.
Qed.

End LineView.

(** ** Tabs in the indentation *)

Section Retab.

Lemma getIndentLevel_retab (l : string) :
  getIndentLevel (retab_line l) = getIndentLevel l.
Proof.
  induction l as [|c r IH]; [reflexivity|]. simpl.
  destruct (Ascii.eqb c space) eqn:Es.
  - simpl. now rewrite IH.
  - destruct (Ascii.eqb c tab) eqn:Et.
    + simpl. rewrite IH. lia.
    + simpl. now rewrite Es, Et.
Qed.

Lemma trimStart_retab (l : string) : trimStart (retab_line l) = trimStart l.
Proof.
  induction l as [|c r IH]; [reflexivity|]. simpl.
  destruct (Ascii.eqb c space) eqn:Es.
  - apply Ascii.eqb_eq in Es. subst c. simpl. exact IH.
  - destruct (Ascii.eqb c tab) eqn:Et.
    + apply Ascii.eqb_eq in Et. subst c. simpl. exact IH.
    + reflexivity.
Qed.

Lemma trim_retab (l : string) : trim (retab_line l) = trim l.
Proof. unfold trim. now rewrite trimStart_retab. Qed.

Lemma no_nl_retab (l : string) : no_nl l -> no_nl (retab_line l).
Proof.
  unfold no_nl. induction l as [|c r IH]; [auto|]. simpl. intros H.
  apply orb_false_iff in H as [Hc Hr].
  destruct (Ascii.eqb c space) eqn:Es; [|destruct (Ascii.eqb c tab) eqn:Et].
  - simpl. auto.
  - simpl. auto.
  - simpl. now rewrite Hc, Hr.
Qed.

Lemma split_retab (doc : string) :
  split_nl (retab doc) = map retab_line (split_nl doc).
Proof.
  unfold retab. apply split_join.
  - intros H. apply map_eq_nil in H. now apply split_nl_nonempty in H.
  - apply Forall_map. eapply Forall_impl; [|apply split_nl_no_nl].
    intros l. apply no_nl_retab.
Qed.

Lemma indent_width (line : string) :
  getIndentLevel line
  = count space (indentation line) + 2 * count tab (indentation line).
Proof.
  induction line as [|c r IH]; [reflexivity|]. simpl.
  destruct (Ascii.eqb c space) eqn:Es.
  - apply Ascii.eqb_eq in Es. subst c. simpl. rewrite IH. lia.
  - destruct (Ascii.eqb c tab) eqn:Et.
    + apply Ascii.eqb_eq in Et. subst c. simpl. rewrite IH. lia.
    + reflexivity.
Qed.

End Retab.

(** C8. A document whose indentation uses tabs decodes like the document
    in which every tab of the indentation is replaced by two spaces; the
    indentation width of a line is the number of spaces plus twice the
    number of tabs of its leading run of spaces and tabs. *)
Theorem tabs_decode_as_two_spaces :
  forall doc line : string,
    decode (retab doc) = decode doc
    /\ getIndentLevel line
       = count space (indentation line) + 2 * count tab (indentation line).
Proof.
  intros doc line. split; [|apply indent_width].
  unfold decode, parse. rewrite split_retab.
  rewrite (run_ext retab_line getIndentLevel_retab trim_retab). reflexivity.
Qed.

(** ** The scenarios of the specification *)

Example scenario_scalars :
  decode (text ["a: 1"; "b: true"; "c: null"])
  = Ok (Mapping [("a", Prim (Number (int_num 1)));
                 ("b", Prim (Boolean true)); ("c", Prim Null)]).
Proof. vm_compute. reflexivity. Qed.

Example scenario_nested :
  decode (text ["nested:"; "  inner: 5"])
  = Ok (Mapping [("nested", Mapping [("inner", Prim (Number (int_num 5)))])]).
Proof. vm_compute. reflexivity. Qed.

Example scenario_quoted :
  encode (Mapping [("note", Prim (Str "a: b"))])
  = text ["note: " ++ String dquote ("a: b" ++ String dquote "")]
  /\ decode (encode (Mapping [("note", Prim (Str "a: b"))]))
     = Ok (Mapping [("note", Prim (Str "a: b"))]).
Proof. split; vm_compute; reflexivity. Qed.

Example scenario_encode_list :
  encode (Mapping [("list", Sequence [Prim (Number (int_num 1));
                                      Prim (Number (int_num 2));
                                      Prim (Number (int_num 3))])])
  = text ["list:"; "  - 1"; "  - 2"; "  - 3"].
Proof. vm_compute. reflexivity. Qed.

Example unindented_items_bind_to_key :
  decode (text ["items:"; "- x"; "- y"])
  = Ok (Mapping [("items", Sequence [Prim (Str "x"); Prim (Str "y")])]).
Proof. vm_compute. reflexivity. Qed.

Example empty_document : decode "" = Ok (Mapping []).
Proof. vm_compute. reflexivity. Qed.

Example root_level_list :
  decode (text ["- x"; "- y"])
  = Ok (Mapping [("items", Sequence [Prim (Str "x"); Prim (Str "y")])]).
Proof. vm_compute. reflexivity. Qed.

(** C2. On the input "items:\n  - x\n  - y\n" [decode] does not bind the
    two items to the key [items] of the root: the frame pushed for the
    key line is still on top when the indented item lines arrive, so they
    land under a second key [items] inside the placeholder. *)
Theorem indented_items_nest_under_items :
  decode (text ["items:"; "  - x"; "  - y"])
  = Ok (Mapping [("items",
          Mapping [("items", Sequence [Prim (Str "x"); Prim (Str "y")])])]).
Proof. vm_compute. reflexivity. Qed.

(** C3. [decode] throws on the input "items: 5\n- x\n": the item line
    finds [items] bound to the number 5 and calls [push] on it. *)
Theorem decode_throws_on_scalar_items :
  decode (text ["items: 5"; "- x"]) = TypeError.
Proof. vm_compute. reflexivity. Qed.

(** C5. On a key line with an empty value whose next physical line is a
    sequence item, the decoder records the pending key and inserts the
    placeholder, and it does push a frame for the placeholder; when the
    item line is indented under the key, that frame is the parent of the
    item and the placeholder is not converted into the sequence. *)
Theorem pending_key_line_pushes_frame :
  step initial "items:" (Some "  - x")
  = Ok (mkState (mkStore [("items", Mapping [])]
                         [mkFrame ["items"] 0 (Some "items");
                          mkFrame [] (-1) None])
                (Some "items"))
  /\ run initial ["items:"; "  - x"]
     = Ok (mkState
             (mkStore [("items", Mapping [("items", Sequence [Prim (Str "x")])])]
                      [mkFrame ["items"] 0 (Some "items");
                       mkFrame [] (-1) None])
             (Some "items")).
Proof. split; vm_compute; reflexivity. Qed.

(** C9. With no pending array key and a last key bound to a number, the
    item of the input "items: 5\nz: 1\n- x\n" is not appended under
    [items]: [decode] throws, because [items] is bound to 5. *)
Theorem items_fallback_throws_on_scalar :
  decode (text ["items: 5"; "z: 1"; "- x"]) = TypeError
  /\ handleArrayItem
       (mkStore [("items", Prim (Number (int_num 5)));
                 ("z", Prim (Number (int_num 1)))]
                [mkFrame [] (-1) None]) 0 "x" None
     = TypeError.
Proof. split; vm_compute; reflexivity. Qed.

(** C1, counterexample. The string "true" comes back as the boolean. *)
Lemma roundtrip_fails_on_keyword_string :
  decode (encode (Mapping [("a", Prim (Str "true"))]))
  <> Ok (Mapping [("a", Prim (Str "true"))]).
Proof. vm_compute. discriminate. Qed.

(** C7, counterexample. A string that carries its own quotes loses them
    in [decode], and the second [encode] prints it bare. *)
Lemma reencode_fails_on_quoted_string :
  reencode (encode (Mapping [("a", Prim (Str "'x'"))]))
  <> Ok (encode (Mapping [("a", Prim (Str "'x'"))])).
Proof. vm_compute. discriminate. Qed.

(** C6, counterexample. The quote that [encode] escapes keeps its
    backslash in [decode]. *)
Lemma quoted_colon_string_with_quote_changes :
  decode (encode (Mapping [("k", Prim (Str ("a:" ++ String dquote "b")))]))
  = Ok (Mapping [("k", Prim (Str ("a:" ++ String backslash
                                           (String dquote "b"))))])
  /\ decode (encode (Mapping [("k", Prim (Str ("a:" ++ String dquote "b")))]))
     <> Ok (Mapping [("k", Prim (Str ("a:" ++ String dquote "b")))]).
Proof. split; vm_compute; [reflexivity | discriminate]. Qed.

(** C4, counterexample. Removing the malformed line between "k:" and the
    first item changes what the key line sees as its next line. *)
Lemma removing_malformed_line_changes_result :
  malformed "bad" = true
  /\ decode (text ["k:"; "bad"; "- a"; "- b"])
     = Ok (Mapping [("k", Sequence [Prim (Str "a")]);
                    ("items", Sequence [Prim (Str "b")])])
  /\ decode (remove_malformed (text ["k:"; "bad"; "- a"; "- b"]))
     = Ok (Mapping [("k", Sequence [Prim (Str "a"); Prim (Str "b")])])
  /\ decode (remove_malformed (text ["k:"; "bad"; "- a"; "- b"]))
     <> decode (text ["k:"; "bad"; "- a"; "- b"]).
Proof. repeat split; vm_compute; try reflexivity; discriminate. Qed.

(** ** Malformed lines *)

Section Malformed.

Lemma step_malformed (s : State) (line : string) (next : option string) :
  malformed line = true -> step s line next = Ok s.
Proof.
  unfold malformed, is_blank, is_comment, is_item, is_keyvalue, step.
  intros H.
  destruct (is_empty (trim line)); [reflexivity|].
  destruct (startsWith (trim line) "#"); [reflexivity|].
  destruct (startsWith (trim line) "- "); [discriminate|].
  destruct (0 <? indexOf (trim line) colon); [discriminate|].
  reflexivity.
Qed.

Lemma malformed_not_item (l : string) : malformed l = true -> is_item l = false.
Proof.
  unfold malformed. destruct (is_item l); [|reflexivity].
  rewrite andb_false_r. simpl. discriminate.
Qed.

(** Only a key line with an empty value looks at the next line. *)
Lemma step_next_unused (s : State) (l : string) (n1 n2 : option string) :
  opens_block l = false -> step s l n1 = step s l n2.
Proof.
  unfold opens_block, is_blank, is_comment, is_item, is_keyvalue, line_value,
    step.
  intros H.
  destruct (is_empty (trim l)); [reflexivity|].
  destruct (startsWith (trim l) "#"); [reflexivity|].
  destruct (startsWith (trim l) "- "); [reflexivity|].
  destruct (0 <? indexOf (trim l) colon); [|reflexivity].
  cbn [negb andb orb] in H. cbv zeta. now rewrite H.
Qed.

Lemma no_malformed_gap_tl (l : string) (rest : list string) :
  no_malformed_gap (l :: rest) = true -> no_malformed_gap rest = true.
Proof.
  cbn [no_malformed_gap]. intros H. now apply andb_true_iff in H as [_ H].
Qed.

(** What a line that is kept sees as its next line, with and without
    the malformed lines. *)
Lemma next_is_item_filter (rest : list string) :
  item_behind_malformed rest = false ->
  next_is_item (hd_error (filter keep rest)) = next_is_item (hd_error rest).
Proof.
  destruct rest as [|m r]; [reflexivity|].
  unfold item_behind_malformed. intros H.
  destruct (malformed m) eqn:Hm.
  - cbn [andb] in H. rewrite H. cbn [hd_error].
    change (next_is_item (Some m)) with (is_item m).
    now rewrite (malformed_not_item m Hm).
  - cbn [filter]. unfold keep at 1. rewrite Hm. reflexivity.
Qed.

Lemma run_filter (ls : list string) :
  forall s, no_malformed_gap ls = true ->
            run s (filter keep ls) = run s ls.
Proof.
  induction ls as [|l rest IH]; intros s H; [reflexivity|].
  pose proof (no_malformed_gap_tl _ _ H) as Hrest.
  cbn [no_malformed_gap] in H. apply andb_true_iff in H as [H _].
  apply negb_true_iff in H.
  cbn [filter]. unfold keep at 1.
  destruct (malformed l) eqn:Hl; cbn [negb]; cbv iota.
  - cbn [run]. rewrite (step_malformed s l _ Hl). cbn [bind]. now apply IH.
  - cbn [run].
    assert (E : step s l (hd_error (filter keep rest))
                = step s l (hd_error rest)).
    { destruct (opens_block l) eqn:Ho.
      - cbn [andb] in H.
        apply (step_ext s l l _ _ eq_refl eq_refl (next_is_item_filter rest H)).
      - now apply step_next_unused. }
    rewrite E. destruct (step s l (hd_error rest)); cbn [bind]; auto.
Qed.

Lemma run_split_join (ls : list string) (s : State) :
  Forall no_nl ls -> run s (split_nl (join_nl ls)) = run s ls.
Proof.
  intros H. destruct ls as [|l ls'].
  - reflexivity.
  - rewrite split_join; [reflexivity | discriminate | assumption].
Qed.

Lemma decode_remove_malformed (doc : string) :
  no_malformed_gap (split_nl doc) = true ->
  decode (remove_malformed doc) = decode doc.
Proof.
  intros H. unfold decode, parse, remove_malformed.
  rewrite run_split_join.
  - fold keep. now rewrite run_filter.
  - apply Forall_forall. intros l Hin. apply filter_In in Hin as [Hin _].
    pose proof (split_nl_no_nl doc) as Hall.
    rewrite Forall_forall in Hall. now apply Hall.
Qed.

(** A malformed line counts as much as an empty line. *)
Lemma run_blank_malformed (lines : list string) :
  forall s, run s (map blank_malformed lines) = run s lines.
Proof.
  induction lines as [|l rest IH]; intros s; [reflexivity|].
  cbn [map run].
  assert (Hnext : next_is_item (hd_error (map blank_malformed rest))
                  = next_is_item (hd_error rest)).
  { destruct rest as [|m r]; [reflexivity|]. cbn [map hd_error].
    unfold blank_malformed. destruct (malformed m) eqn:Hm; [|reflexivity].
    change (next_is_item (Some m)) with (is_item m).
    now rewrite (malformed_not_item m Hm). }
  unfold blank_malformed at 1. destruct (malformed l) eqn:Hl.
  - rewrite (step_malformed s l _ Hl).
    change (step s "" (hd_error (map blank_malformed rest))) with (Ok s).
    cbn [bind]. apply IH.
  - rewrite (step_ext s l l _ (hd_error rest) eq_refl eq_refl Hnext).
    destruct (step s l (hd_error rest)); cbn [bind]; auto.
Qed.

Lemma decode_blank_malformed (doc : string) :
  decode (blank_malformed_lines doc) = decode doc.
Proof.
  unfold decode, parse, blank_malformed_lines.
  rewrite run_split_join.
  - now rewrite run_blank_malformed.
  - apply Forall_forall. intros l Hin. apply in_map_iff in Hin as (l0 & E & Hin).
    subst l. unfold blank_malformed.
    destruct (malformed l0); [reflexivity|].
    pose proof (split_nl_no_nl doc) as Hall.
    rewrite Forall_forall in Hall. now apply Hall.
Qed.

End Malformed.

(** C4, amended. A malformed line is skipped: the loop body raises
    nothing and leaves the state as it is, so that the document decodes
    as the one in which every malformed line is replaced by an empty
    line.  The document without its malformed lines decodes to the same
    outcome as well, unless a malformed line stands between a key line
    with an empty value and a sequence-item line: the key line then
    looks at another next line. *)
Theorem malformed_lines_are_skipped :
  forall doc : string,
    (forall (s : State) (line : string) (next : option string),
        malformed line = true -> step s line next = Ok s)
    /\ decode (blank_malformed_lines doc) = decode doc
    /\ (no_malformed_gap (split_nl doc) = true ->
        decode (remove_malformed doc) = decode doc).
Proof.
  intros doc. split; [|split].
  - intros s line next. apply step_malformed.
  - apply decode_blank_malformed.
  - apply decode_remove_malformed.
Qed.

Lemma malformed_lines_are_skipped_witness :
  no_malformed_gap (split_nl (text ["a: 1"; "bad"; "- x"; "k:"; "- y"; "bad"]))
  = true
  /\ decode (remove_malformed (text ["a: 1"; "bad"; "- x"; "k:"; "- y"; "bad"]))
     = decode (text ["a: 1"; "bad"; "- x"; "k:"; "- y"; "bad"]).
Proof.
  split; [vm_compute; reflexivity|].
  apply (malformed_lines_are_skipped
           (text ["a: 1"; "bad"; "- x"; "k:"; "- y"; "bad"])).
  vm_compute. reflexivity.
Defined.

(** ** Own properties *)

Section OwnProperties.

Lemma get_replace_same (k : string) (v : Value) (o : Props) :
  Object.has o k = true -> Object.get (Object.replace k v o) k = Some v.
Proof.
  unfold Object.has. induction o as [|[k' v'] r IH]; simpl; [discriminate|].
  destruct (String.eqb k' k) eqn:E; simpl.
  - now rewrite String.eqb_refl.
  - rewrite E. exact IH.
Qed.

Lemma replace_replace (k : string) (v v0 : Value) (o : Props) :
  Object.replace k v (Object.replace k v0 o) = Object.replace k v o.
Proof.
  induction o as [|[k' v'] r IH]; simpl; [reflexivity|].
  destruct (String.eqb k' k) eqn:E; simpl.
  - now rewrite String.eqb_refl.
  - now rewrite E, IH.
Qed.

Lemma replace_app_new (k : string) (v v0 : Value) (o : Props) :
  Object.get o k = None ->
  Object.replace k v (o ++ [(k, v0)])%list = (o ++ [(k, v)])%list.
Proof.
  induction o as [|[k' v'] r IH]; simpl; intros H.
  - now rewrite String.eqb_refl.
  - destruct (String.eqb k' k); [discriminate|]. now rewrite IH.
Qed.

Lemma replace_insert_index (i : Z) (k : string) (v v0 : Value) (o : Props) :
  Object.get o k = None ->
  Object.replace k v (Object.insert_index i k v0 o)
  = Object.insert_index i k v o.
Proof.
  induction o as [|[k' v'] r IH]; simpl; intros H.
  - now rewrite String.eqb_refl.
  - destruct (String.eqb k' k) eqn:E; [discriminate|].
    destruct (Object.array_index k') as [j|].
    + destruct (j <? i); simpl.
      * now rewrite E, IH.
      * now rewrite String.eqb_refl.
    + simpl. now rewrite String.eqb_refl.
Qed.

Lemma replace_set (k : string) (v v0 : Value) (o : Props) :
  Object.replace k v (Object.set k v0 o) = Object.set k v o.
Proof.
  unfold Object.set, Object.has.
  destruct (Object.get o k) eqn:G.
  - apply replace_replace.
  - destruct (Object.array_index k).
    + now apply replace_insert_index.
    + now apply replace_app_new.
Qed.

Lemma get_app_new (k : string) (v : Value) (o : Props) :
  Object.get o k = None -> Object.get (o ++ [(k, v)])%list k = Some v.
Proof.
  induction o as [|[k' v'] r IH]; simpl; intros H.
  - now rewrite String.eqb_refl.
  - destruct (String.eqb k' k); [discriminate|]. now apply IH.
Qed.

Lemma get_insert_index (i : Z) (k : string) (v : Value) (o : Props) :
  Object.get o k = None -> Object.get (Object.insert_index i k v o) k = Some v.
Proof.
  induction o as [|[k' v'] r IH]; simpl; intros H.
  - now rewrite String.eqb_refl.
  - destruct (String.eqb k' k) eqn:E; [discriminate|].
    destruct (Object.array_index k') as [j|].
    + destruct (j <? i); simpl.
      * rewrite E. now apply IH.
      * now rewrite String.eqb_refl.
    + simpl. now rewrite String.eqb_refl.
Qed.

(** Reading back what was written. *)
Lemma get_set_same (k : string) (v : Value) (o : Props) :
  Object.get (Object.set k v o) k = Some v.
Proof.
  unfold Object.set. destruct (Object.has o k) eqn:Hh.
  - now apply get_replace_same.
  - unfold Object.has in Hh. destruct (Object.get o k) eqn:G; [discriminate|].
    destruct (Object.array_index k).
    + now apply get_insert_index.
    + now apply get_app_new.
Qed.

End OwnProperties.

(** ** The pending array key *)

Section PendingKey.

Lemma item_not_blank (t : string) :
  startsWith t "- " = true -> is_empty t = false /\ startsWith t "#" = false.
Proof.
  destruct t as [|c r]; cbn [startsWith]; [discriminate|].
  intros H. apply andb_true_iff in H as [Hc _].
  apply Ascii.eqb_eq in Hc. subst c. split; reflexivity.
Qed.

(** [currentArrayKey] after one line. *)
Lemma step_currentArrayKey (s s' : State) (line : string) (next : option string) :
  step s line next = Ok s' ->
  currentArrayKey s'
  = if sets_pending line next then Some (line_key line) else currentArrayKey s.
Proof.
  unfold step, sets_pending, is_blank, is_comment, is_item, is_keyvalue,
    line_key, line_value.
  destruct (is_empty (trim line)); simpl.
  { intros H; inversion H; reflexivity. }
  destruct (startsWith (trim line) "#"); simpl.
  { intros H; inversion H; reflexivity. }
  destruct (startsWith (trim line) "- "); simpl.
  { destruct (handleArrayItem _ _ _ _); simpl; intros H; inversion H.
    reflexivity. }
  destruct (0 <? indexOf (trim line) colon); simpl.
  - destruct (handleKeyValue _ _ _ _); simpl; intros H; inversion H.
    reflexivity.
  - intros H; inversion H; reflexivity.
Qed.

Lemma step_never_clears (s s' : State) (line : string) (next : option string) :
  step s line next = Ok s' ->
  currentArrayKey s <> None -> currentArrayKey s' <> None.
Proof.
  intros H Hk. rewrite (step_currentArrayKey _ _ _ _ H).
  destruct (sets_pending line next); [discriminate | exact Hk].
Qed.

Lemma run_never_clears (lines : list string) :
  forall s s', run s lines = Ok s' ->
               currentArrayKey s <> None -> currentArrayKey s' <> None.
Proof.
  induction lines as [|l rest IH]; simpl; intros s s' H Hk.
  - inversion H; subst; exact Hk.
  - destruct (step s l (hd_error rest)) as [s1| |] eqn:E; simpl in H;
      try discriminate.
    eapply IH; [exact H|]. eapply step_never_clears; eauto.
Qed.

(** An item line appends into [parent[k]] when [k] is the pending key and
    [parent[k]] is truthy. *)
Lemma handleArrayItem_pending
      (st : Store) (w : Z) (value k : string) (path : list string)
      (parent : Props) :
  k <> "" -> k <> "__proto__" ->
  parent_of st (unwind w (stack st)) = Ok (path, parent) ->
  Object.lookup_truthy (Object.lookup parent k) = true ->
  handleArrayItem st w value (Some k)
  = Ok (mkStore
          (update_at path
             (fun _ => Object.set k
                         (Sequence (items_of parent k ++ [Prim (parseValue value)]))
                         parent)
             (result st))
          (unwind w (stack st))).
Proof.
  intros Hne Hproto Hparent Htruthy.
  unfold handleArrayItem. rewrite Hparent. simpl.
  unfold select_target. simpl falsy_key. simpl default_key.
  assert (Hk : is_empty k = false) by (destruct k; [congruence | reflexivity]).
  rewrite Hk, Htruthy. simpl.
  assert (Hp : String.eqb k "__proto__" = false) by (now apply String.eqb_neq).
  unfold Object.lookup, items_of in *.
  destruct (Object.get parent k) as [v|] eqn:G.
  - destruct v as [sc|o|a]; simpl.
    + unfold assign. rewrite Hp. simpl. unfold push_into, Object.lookup.
      rewrite get_set_same. now rewrite replace_set.
    + unfold assign. rewrite Hp. simpl. unfold push_into, Object.lookup.
      rewrite get_set_same. now rewrite replace_set.
    + unfold push_into, Object.lookup. rewrite G.
      unfold Object.set, Object.has. now rewrite G.
  - destruct (Object.inherited k); simpl in *; [|discriminate].
    unfold assign. rewrite Hp. simpl. unfold push_into, Object.lookup.
    rewrite get_set_same. now rewrite replace_set.
Qed.

End PendingKey.

(** C10, counterexample. The pending key set by the line "k:" does not
    persist to the end of the scan: the later line "j:", itself followed
    by an item, puts its own key in its place, and the item that follows
    goes to [j] although the root still maps [k] to a truthy value. *)
Lemma pending_key_replaced_by_later_key :
  run initial ["k:"; "- a"] = Ok after_first_list
  /\ currentArrayKey after_first_list = Some "k"
  /\ (exists s, step after_first_list "j:" (Some "- b") = Ok s
                /\ currentArrayKey s = Some "j")
  /\ decode (text ["k:"; "- a"; "j:"; "- b"])
     = Ok (Mapping [("k", Sequence [Prim (Str "a")]);
                    ("j", Sequence [Prim (Str "b")])]).
Proof.
  repeat split; try (vm_compute; reflexivity).
  eexists. split; vm_compute; reflexivity.
Qed.

(** C10, amended. Once [currentArrayKey] holds a key it is never cleared:
    a line leaves it as it is unless the line is itself a "key:" line
    followed by an item line, which stores its own key in its place; so
    it is still set at the end of the scan.  Every sequence-item line
    whose unwound parent maps the pending key of that moment to a truthy
    value appends the item into that entry, after replacing a value that
    is not an array by a fresh array.  In particular the document
    "k:\n- a\nx: 1\nk: 5\n- b\n" decodes to [{k: [b], x: 1}]. *)
Theorem pending_array_key_persists :
  forall (s : State) (k : string) (line : string) (next : option string),
    currentArrayKey s = Some k ->
    (forall s', step s line next = Ok s' ->
       currentArrayKey s'
       = if sets_pending line next then Some (line_key line) else Some k)
    /\ (forall lines s', run s lines = Ok s' -> currentArrayKey s' <> None)
    /\ (forall path parent,
          is_item line = true ->
          k <> "" -> k <> "__proto__" ->
          parent_of (store s) (unwind (getIndentLevel line) (stack (store s)))
          = Ok (path, parent) ->
          Object.lookup_truthy (Object.lookup parent k) = true ->
          step s line next
          = Ok (mkState
                  (mkStore
                     (update_at path
                        (fun _ =>
                           Object.set k
                             (Sequence (items_of parent k
                                        ++ [Prim (parseValue (item_payload line))]))
                             parent)
                        (result (store s)))
                     (unwind (getIndentLevel line) (stack (store s))))
                  (Some k)))
    /\ decode (text ["k:"; "- a"; "x: 1"; "k: 5"; "- b"])
       = Ok (Mapping [("k", Sequence [Prim (Str "b")]);
                      ("x", Prim (Number (int_num 1)))]).
Proof.
  intros s k line next Hk. repeat split.
  - intros s' H. rewrite (step_currentArrayKey _ _ _ _ H), Hk. reflexivity.
  - intros lines s' H. eapply run_never_clears; [exact H|]. now rewrite Hk.
  - intros path parent Hitem Hne Hproto Hparent Htruthy.
    unfold is_item in Hitem.
    destruct (item_not_blank _ Hitem) as [Hb Hc].
    unfold step. rewrite Hb, Hc, Hitem. simpl.
    rewrite Hk.
    rewrite (handleArrayItem_pending (store s) _ _ _ _ _ Hne Hproto Hparent Htruthy).
    reflexivity.
Qed.

Lemma pending_array_key_persists_witness :
  run initial ["k:"; "- a"; "x: 1"; "k: 5"] = Ok after_scalar_rebinding
  /\ step after_scalar_rebinding "- b" None
     = Ok (mkState (mkStore [("k", Sequence [Prim (Str "b")]);
                             ("x", Prim (Number (int_num 1)))]
                            [mkFrame [] (-1) None])
                   (Some "k")).
Proof.
  split; [vm_compute; reflexivity|].
  destruct (pending_array_key_persists after_scalar_rebinding "k" "- b" None
              eq_refl) as (_ & _ & H & _).
  rewrite (H [] (result (store after_scalar_rebinding)));
    [reflexivity | reflexivity | discriminate | discriminate
     | reflexivity | reflexivity].
Defined.

(** ** Strings: trimming, prefixes, the first colon *)

Section Strings.

Lemma append_empty_r (s : string) : s ++ "" = s.
Proof. induction s as [|c r IH]; simpl; [reflexivity | now rewrite IH]. Qed.

Lemma append_assoc (a b c : string) : (a ++ b) ++ c = a ++ (b ++ c).
Proof. induction a as [|x r IH]; simpl; [reflexivity | now rewrite IH]. Qed.

Lemma length_append (a b : string) :
  String.length (a ++ b) = (String.length a + String.length b)%nat.
Proof. induction a as [|c r IH]; simpl; [reflexivity | now rewrite IH]. Qed.

Lemma includes_app (a b : string) (c : ascii) :
  includes (a ++ b) c = includes a c || includes b c.
Proof.
  induction a as [|x r IH]; simpl; [reflexivity|].
  rewrite IH. now rewrite orb_assoc.
Qed.

Lemma includes_repeat2 (d : nat) (c : ascii) :
  Ascii.eqb space c = false -> includes (repeat2 d) c = false.
Proof.
  intros H. induction d as [|d IH]; cbn [repeat2 includes]; [reflexivity|].
  now rewrite H, IH.
Qed.

Lemma length_trimStart (s : string) :
  (String.length (trimStart s) <= String.length s)%nat.
Proof.
  induction s as [|c r IH]; simpl; [lia|].
  destruct (is_white c); simpl; lia.
Qed.

Lemma length_trimEnd (s : string) :
  (String.length (trimEnd s) <= String.length s)%nat.
Proof.
  induction s as [|c r IH]; simpl; [lia|].
  destruct (is_white c && is_empty (trimEnd r)); simpl; lia.
Qed.

(** A string that [trim] leaves alone starts and ends with a character
    that is not white space. *)
Lemma trim_fixed (t : string) :
  trim t = t -> trimStart t = t /\ trimEnd t = t.
Proof.
  unfold trim. intros H.
  assert (Hs : trimStart t = t).
  { destruct t as [|c r]; [reflexivity|]. simpl in *.
    destruct (is_white c); [|reflexivity].
    exfalso.
    pose proof (length_trimEnd (trimStart r)) as H1.
    pose proof (length_trimStart r) as H2.
    rewrite H in H1. simpl in H1. lia. }
  split; [exact Hs|]. now rewrite Hs in H.
Qed.

Lemma trimStart_fixed_head (c : ascii) (r : string) :
  trimStart (String c r) = String c r -> is_white c = false.
Proof.
  simpl. destruct (is_white c); [|reflexivity].
  intros H. pose proof (length_trimStart r) as H1.
  rewrite H in H1. simpl in H1. lia.
Qed.

Lemma trimStart_head (c : ascii) (r : string) :
  is_white c = false -> trimStart (String c r) = String c r.
Proof. intros H. simpl. now rewrite H. Qed.

Lemma trimStart_repeat2 (d : nat) (s : string) :
  trimStart (repeat2 d ++ s) = trimStart s.
Proof. induction d as [|d IH]; simpl; [reflexivity | exact IH]. Qed.

Lemma trimEnd_app (a b : string) :
  is_empty (trimEnd b) = false -> trimEnd (a ++ b) = a ++ trimEnd b.
Proof.
  intros H. induction a as [|c r IH]; simpl; [reflexivity|].
  rewrite IH. destruct (r ++ trimEnd b) eqn:E.
  - destruct r; simpl in E; [|discriminate]. rewrite E in H. discriminate.
  - simpl. now rewrite andb_false_r.
Qed.

Lemma getIndentLevel_repeat2 (d : nat) (s : string) :
  getIndentLevel (repeat2 d ++ s) = 2 * Z.of_nat d + getIndentLevel s.
Proof.
  induction d as [|d IH]; [simpl; lia|].
  change (repeat2 (S d) ++ s) with (String space (String space (repeat2 d ++ s))).
  cbn [getIndentLevel]. change (Ascii.eqb space space) with true. cbv iota.
  rewrite IH. lia.
Qed.

Lemma getIndentLevel_head (c : ascii) (r : string) :
  is_white c = false -> getIndentLevel (String c r) = 0.
Proof.
  intros H. cbn [getIndentLevel].
  destruct (Ascii.eqb c space) eqn:Es.
  { apply Ascii.eqb_eq in Es. subst c. discriminate. }
  destruct (Ascii.eqb c tab) eqn:Et.
  { apply Ascii.eqb_eq in Et. subst c. discriminate. }
  reflexivity.
Qed.

Lemma startsWith_cons (a b : ascii) (s p : string) :
  startsWith (String b s) (String a p) = Ascii.eqb a b && startsWith s p.
Proof. reflexivity. Qed.

Lemma startsWith_app (k r p : string) :
  (String.length p <= String.length k)%nat ->
  startsWith (k ++ r) p = startsWith k p.
Proof.
  revert k. induction p as [|a p IH]; intros k H.
  - reflexivity.
  - destruct k as [|b k]; simpl in H; [lia|].
    cbn [append]. rewrite !startsWith_cons, IH by lia. reflexivity.
Qed.

Lemma indexOf_app_colon (k r : string) :
  includes k colon = false ->
  indexOf (k ++ String colon r) colon = Z.of_nat (String.length k).
Proof.
  induction k as [|c k IH]; intros H.
  - reflexivity.
  - cbn [includes] in H. apply orb_false_iff in H as [Hc Hk].
    cbn [append indexOf String.length]. rewrite Hc, (IH Hk).
    destruct (Z.of_nat (String.length k) <? 0) eqn:E; lia.
Qed.

Lemma take_app (k r : string) : take (String.length k) (k ++ r) = k.
Proof. induction k as [|c k IH]; simpl; [now destruct r | now rewrite IH]. Qed.

Lemma drop_app (k r : string) : drop (String.length k) (k ++ r) = r.
Proof. induction k as [|c k IH]; simpl; [reflexivity | exact IH]. Qed.

Lemma drop_app_1 (k r : string) (c : ascii) :
  drop (S (String.length k)) (k ++ String c r) = r.
Proof. induction k as [|x k IH]; simpl; [reflexivity | exact IH]. Qed.

Lemma eqb_empty (s : string) : String.eqb s "" = is_empty s.
Proof. destruct s; reflexivity. Qed.

End Strings.

(** ** The lines [stringify] prints for a key *)

Section KeyLines.

Variable k : string.
Hypothesis Hkey : key_ok k = true.

Lemma key_ok_parts :
  is_empty k = false /\ trim k = k /\ includes k colon = false
  /\ includes k nl = false /\ startsWith k "#" = false
  /\ startsWith k "- " = false /\ String.eqb k "__proto__" = false.
Proof.
  pose proof Hkey as H. unfold key_ok in H.
  repeat rewrite andb_true_iff in H. repeat rewrite negb_true_iff in H.
  destruct H as ((((((H1 & H2) & H3) & H4) & H5) & H6) & H7).
  apply String.eqb_eq in H2. repeat split; assumption.
Qed.

Lemma key_head : exists c r, k = String c r /\ is_white c = false.
Proof.
  destruct key_ok_parts as (Hne & Htrim & _).
  destruct k as [|c r]; [discriminate|].
  exists c, r. split; [reflexivity|].
  apply trim_fixed in Htrim as [Hs _].
  now apply trimStart_fixed_head in Hs.
Qed.

Lemma trim_key_line (d : nat) (b : string) :
  trim (repeat2 d ++ k ++ String colon b) = k ++ String colon (trimEnd b).
Proof.
  unfold trim. rewrite trimStart_repeat2.
  destruct key_head as (c & r & Hk & Hc).
  rewrite Hk at 1. cbn [append]. rewrite trimStart_head by exact Hc.
  change (String c (r ++ String colon b)) with (String c r ++ String colon b).
  rewrite <- Hk. rewrite trimEnd_app; reflexivity.
Qed.

Lemma indent_key_line (d : nat) (b : string) :
  getIndentLevel (repeat2 d ++ k ++ b) = 2 * Z.of_nat d.
Proof.
  rewrite getIndentLevel_repeat2.
  destruct key_head as (c & r & Hk & Hc).
  rewrite Hk. cbn [append]. rewrite getIndentLevel_head by exact Hc. lia.
Qed.

Lemma key_line_not_item (b : string) :
  startsWith (k ++ String colon b) "- " = false.
Proof.
  destruct key_ok_parts as (_ & _ & _ & _ & _ & Hi & _).
  destruct k as [|c [|c2 r]].
  - reflexivity.
  - cbn [append]. rewrite !startsWith_cons.
    change (Ascii.eqb " " colon) with false. cbn [andb].
    now rewrite andb_false_r.
  - cbn [append] in *. rewrite !startsWith_cons in *. exact Hi.
Qed.

Lemma key_line_not_comment (b : string) :
  startsWith (k ++ String colon b) "#" = false.
Proof.
  destruct key_ok_parts as (Hne & _ & _ & _ & Hc & _).
  rewrite startsWith_app; [exact Hc|].
  destruct k; [discriminate | simpl; lia].
Qed.

Lemma key_line_not_blank (b : string) :
  is_empty (k ++ String colon b) = false.
Proof.
  destruct key_ok_parts as (Hne & _). destruct k; [discriminate | reflexivity].
Qed.

(** What the loop body does with a line that starts with the key. *)
Lemma step_key_line (s : State) (d : nat) (b : string) (next : option string) :
  step s (repeat2 d ++ k ++ String colon b) next
  = (st <- handleKeyValue (store s) (2 * Z.of_nat d) k (trim (trimEnd b)) ;;
     Ok (mkState st (if String.eqb (trim (trimEnd b)) "" && next_is_item next
                     then Some k else currentArrayKey s))).
Proof.
  destruct key_ok_parts as (Hne & Htrim & Hcolon & _).
  unfold step. rewrite trim_key_line, indent_key_line.
  rewrite key_line_not_blank, key_line_not_comment, key_line_not_item.
  cbn [orb].
  rewrite indexOf_app_colon by exact Hcolon.
  assert (Hpos : (0 <? Z.of_nat (String.length k)) = true).
  { apply Z.ltb_lt. destruct k; [discriminate|]. simpl String.length. lia. }
  rewrite Hpos.
  unfold substring, substringFrom.
  replace (Z.to_nat (Z.of_nat (String.length k) + 1)) with (S (String.length k))
    by lia.
  rewrite Nat2Z.id. change (Z.to_nat 0) with O.
  rewrite take_app, drop_app_1.
  change (drop 0 k) with k. rewrite Htrim. reflexivity.
Qed.

End KeyLines.

(** ** Paths into the object graph *)

Section Paths.

Lemma modify_ext (k : string) (f g : Value -> Value) (o : Props) :
  (forall v, f v = g v) -> modify k f o = modify k g o.
Proof.
  intros H. induction o as [|[k' v] r IH]; simpl; [reflexivity|].
  now rewrite H, IH.
Qed.

Lemma modify_modify (k : string) (f g : Value -> Value) (o : Props) :
  modify k g (modify k f o) = modify k (fun v => g (f v)) o.
Proof.
  induction o as [|[k' v] r IH]; simpl; [reflexivity|].
  destruct (String.eqb k' k) eqn:E; simpl; rewrite E; [reflexivity|].
  now rewrite IH.
Qed.

Lemma get_modify (k : string) (f : Value -> Value) (o : Props) :
  Object.get (modify k f o) k = option_map f (Object.get o k).
Proof.
  induction o as [|[k' v] r IH]; simpl; [reflexivity|].
  destruct (String.eqb k' k) eqn:E; simpl; rewrite E; [reflexivity | exact IH].
Qed.

Lemma modify_as_replace (k : string) (f : Value -> Value) (o : Props) (v : Value) :
  Object.get o k = Some v -> modify k f o = Object.replace k (f v) o.
Proof.
  induction o as [|[k' v'] r IH]; simpl; [discriminate|].
  destruct (String.eqb k' k) eqn:E.
  - intros H; inversion H; subst. apply String.eqb_eq in E. now subst.
  - intros H. now rewrite IH.
Qed.

Lemma modify_set (k : string) (f : Value -> Value) (v : Value) (o : Props) :
  modify k f (Object.set k v o) = Object.set k (f v) o.
Proof.
  rewrite (modify_as_replace k f _ _ (get_set_same k v o)). apply replace_set.
Qed.

Lemma update_at_as_modify (k : string) (p : list string) (f : Props -> Props)
      (o : Props) :
  update_at (k :: p) f o = modify k (in_mapping (update_at p f)) o.
Proof. reflexivity. Qed.

Lemma get_at_update_at (p : list string) (f : Props -> Props) :
  forall o x, get_at p o = Some x -> get_at p (update_at p f o) = Some (f x).
Proof.
  induction p as [|k p IH]; intros o x H.
  - simpl in *. now inversion H.
  - rewrite update_at_as_modify. cbn [get_at] in *. rewrite get_modify.
    destruct (Object.get o k) as [[s|o'|a]|]; try discriminate.
    simpl. now apply IH.
Qed.

Lemma update_at_update_at (p : list string) (f g : Props -> Props) :
  forall o, update_at p g (update_at p f o) = update_at p (fun x => g (f x)) o.
Proof.
  induction p as [|k p IH]; intros o; [reflexivity|].
  rewrite !update_at_as_modify, modify_modify.
  apply modify_ext. intros [s|o'|a]; simpl; try reflexivity.
  now rewrite IH.
Qed.

Lemma get_at_app (p : list string) (k : string) :
  forall o, get_at (p ++ [k]) o
            = match get_at p o with
              | Some x => match Object.get x k with
                          | Some (Mapping y) => Some y
                          | _ => None
                          end
              | None => None
              end.
Proof.
  induction p as [|k' p IH]; intros o.
  - simpl. destruct (Object.get o k) as [[s|o'|a]|]; reflexivity.
  - cbn [List.app get_at].
    destruct (Object.get o k') as [[s|o'|a]|]; try reflexivity. apply IH.
Qed.

Lemma update_at_app (p : list string) (k : string) (f : Props -> Props) :
  forall o, update_at (p ++ [k]) f o
            = update_at p (modify k (in_mapping f)) o.
Proof.
  induction p as [|k' p IH]; intros o.
  - reflexivity.
  - cbn [List.app]. rewrite !update_at_as_modify.
    apply modify_ext. intros [s|o'|a]; simpl; try reflexivity.
    now rewrite IH.
Qed.

End Paths.

(** ** Unwinding the stack *)

Section Unwind.

Lemma unwind_cons (w : Z) (f f' : Frame) (r : list Frame) :
  unwind w (f :: f' :: r)
  = if w <=? indent f then unwind w (f' :: r) else f :: f' :: r.
Proof. reflexivity. Qed.

Lemma unwind_nonempty (w : Z) (st : list Frame) :
  st <> [] -> unwind w st <> [].
Proof.
  induction st as [|f [|f' r] IH]; intros H; [congruence | discriminate |].
  cbn [unwind]. destruct (w <=? indent f); [apply IH|]; discriminate.
Qed.

Lemma unwind_idem (w : Z) (st : list Frame) :
  unwind w (unwind w st) = unwind w st.
Proof.
  induction st as [|f [|f' r] IH]; [reflexivity | reflexivity |].
  cbn [unwind]. destruct (w <=? indent f) eqn:E.
  - exact IH.
  - cbn [unwind]. now rewrite E.
Qed.

Lemma unwind_extra (w : Z) (extra base : list Frame) :
  base <> [] ->
  Forall (fun f => w <= indent f) extra ->
  unwind w (extra ++ base) = unwind w base.
Proof.
  intros Hb. induction extra as [|f extra IH]; intros H; [reflexivity|].
  inversion H as [|? ? Hf Hrest]; subst.
  cbn [List.app unwind].
  destruct (extra ++ base)%list as [|f' r] eqn:E.
  - destruct extra; simpl in E; [congruence | discriminate].
  - apply Z.leb_le in Hf. rewrite Hf. now apply IH.
Qed.

Lemma unwind_below (w : Z) (f : Frame) (st : list Frame) :
  indent f < w -> unwind w (f :: st) = f :: st.
Proof.
  intros H. destruct st as [|f' r]; [reflexivity|].
  cbn [unwind]. apply Z.leb_gt in H. now rewrite H.
Qed.

End Unwind.

(** ** Key-value lines on a resolved parent *)

Section KeyValue.

Lemma handleKeyValue_leaf (st : Store) (w : Z) (k value : string)
      (path : list string) (parent : Props) :
  String.eqb k "__proto__" = false ->
  is_empty value = false ->
  parent_of st (unwind w (stack st)) = Ok (path, parent) ->
  handleKeyValue st w k value
  = Ok (mkStore
          (update_at path
             (fun _ => Object.set k (Prim (parseValue value)) parent) (result st))
          (unwind w (stack st))).
Proof.
  intros Hp Hv Hparent. unfold handleKeyValue. rewrite Hparent. simpl.
  rewrite eqb_empty, Hv. unfold assign. rewrite Hp. reflexivity.
Qed.

Lemma handleKeyValue_open (st : Store) (w : Z) (k : string)
      (path : list string) (parent : Props) :
  String.eqb k "__proto__" = false ->
  parent_of st (unwind w (stack st)) = Ok (path, parent) ->
  handleKeyValue st w k ""
  = Ok (mkStore
          (update_at path (fun _ => Object.set k (Mapping []) parent) (result st))
          (mkFrame (path ++ [k]) w (Some k) :: unwind w (stack st))).
Proof.
  intros Hp Hparent. unfold handleKeyValue. rewrite Hparent. simpl.
  unfold assign. rewrite Hp. reflexivity.
Qed.

End KeyValue.

(** ** Induction over values *)

Section ValueInduction.

Variable P : Value -> Prop.
Hypothesis P_prim : forall s, P (Prim s).
Hypothesis P_mapping :
  forall props, Forall (fun e => P (snd e)) props -> P (Mapping props).
Hypothesis P_sequence : forall items, Forall P items -> P (Sequence items).

Lemma Value_nested_ind : forall v, P v.
Proof.
  exact
    (fix self (v : Value) : P v :=
       match v with
       | Prim s => P_prim s
       | Mapping props =>
           P_mapping props
             ((fix go (l : Props) : Forall (fun e => P (snd e)) l :=
                 match l with
                 | [] => Forall_nil _
                 | e :: r => Forall_cons e (self (snd e)) (go r)
                 end) props)
       | Sequence items =>
           P_sequence items
             ((fix go (l : list Value) : Forall P l :=
                 match l with
                 | [] => Forall_nil _
                 | x :: r => Forall_cons x (self x) (go r)
                 end) items)
       end).
Qed.

End ValueInduction.

(** ** Decoding the lines of a plain mapping *)

Section DecodePlain.

Lemma parent_of_inv (st : Store) (stk : list Frame) (path : list string)
      (o : Props) :
  parent_of st stk = Ok (path, o) ->
  exists top below,
    stk = top :: below /\ obj top = path /\ get_at path (result st) = Some o.
Proof.
  unfold parent_of. destruct stk as [|top below]; [discriminate|].
  destruct (get_at (obj top) (result st)) eqn:G; [|discriminate].
  intros H. inversion H; subst. now exists top, below.
Qed.

Lemma update_at_same (p : list string) :
  forall o x, get_at p o = Some x -> update_at p (fun _ => x) o = o.
Proof.
  induction p as [|k p IH]; intros o x H.
  - simpl in *. now inversion H.
  - rewrite update_at_as_modify. cbn [get_at] in H.
    induction o as [|[k' v] r IHo]; [reflexivity|].
    simpl in *. destruct (String.eqb k' k).
    + destruct v as [s|o'|a]; try discriminate. simpl. now rewrite IH.
    + now rewrite IHo.
Qed.

Lemma unwind_split (w : Z) (st : list Frame) :
  exists extra, st = (extra ++ unwind w st)%list
                /\ Forall (fun f => w <= indent f) extra.
Proof.
  induction st as [|f [|f' r] IH].
  - exists []. now split.
  - exists []. now split.
  - rewrite unwind_cons. destruct (w <=? indent f) eqn:E.
    + destruct IH as (extra & He & Hall). exists (f :: extra). split.
      * change ((f :: extra) ++ unwind w (f' :: r))%list
          with (f :: (extra ++ unwind w (f' :: r)))%list.
        now rewrite <- He.
      * constructor; [now apply Z.leb_le | exact Hall].
    + exists []. now split.
Qed.

Lemma lands_refl (s : State) (w : Z) (path : list string) (o : Props) :
  parent_of (store s) (unwind w (stack (store s))) = Ok (path, o) ->
  lands s s w path o.
Proof.
  intros H. apply parent_of_inv in H as (top & below & _ & _ & G).
  repeat split.
  - symmetry. now apply update_at_same.
  - apply unwind_split.
Qed.

Lemma lands_parent (s s' : State) (w : Z) (path : list string) (o o' : Props) :
  parent_of (store s) (unwind w (stack (store s))) = Ok (path, o) ->
  lands s s' w path o' ->
  parent_of (store s') (unwind w (stack (store s'))) = Ok (path, o').
Proof.
  intros H (Hr & (extra & Hs & Hall) & _).
  apply parent_of_inv in H as (top & below & Hu & Hp & G).
  rewrite Hs, unwind_extra, unwind_idem, Hu; [| now rewrite Hu | exact Hall].
  unfold parent_of. rewrite Hp, Hr.
  now rewrite (get_at_update_at path (fun _ => o') _ _ G).
Qed.

Lemma lands_trans (s s1 s2 : State) (w : Z) (path : list string)
      (o o1 o2 : Props) :
  parent_of (store s) (unwind w (stack (store s))) = Ok (path, o) ->
  lands s s1 w path o1 -> lands s1 s2 w path o2 -> lands s s2 w path o2.
Proof.
  intros H (Hr1 & (e1 & Hs1 & Ha1) & Hk1) (Hr2 & (e2 & Hs2 & Ha2) & Hk2).
  apply parent_of_inv in H as (top & below & Hu & _ & _).
  repeat split.
  - rewrite Hr2, Hr1. apply update_at_update_at.
  - exists e2. split; [|exact Ha2].
    rewrite Hs2, Hs1, unwind_extra, unwind_idem;
      [reflexivity | now rewrite Hu | exact Ha1].
  - now rewrite Hk2.
Qed.

End DecodePlain.

Section DecodeEntries.

Lemma leaf_ok_parts (sc : Scalar) :
  leaf_ok sc = true ->
  is_empty (formatValue sc) = false /\ trim (formatValue sc) = formatValue sc
  /\ includes (formatValue sc) nl = false.
Proof.
  unfold leaf_ok. cbv zeta. intros H.
  repeat rewrite andb_true_iff in H. repeat rewrite negb_true_iff in H.
  destruct H as ((H1 & H2) & H3). apply String.eqb_eq in H2. now repeat split.
Qed.

Lemma plain_entry (k : string) (v : Value) (ps : Props) :
  plain (Mapping ((k, v) :: ps)) = true ->
  key_ok k = true /\ plain v = true /\ plain (Mapping ps) = true.
Proof.
  cbn [plain forallb fst snd]. intros H.
  repeat rewrite andb_true_iff in H. tauto.
Qed.

Lemma entry_lines_head (d : nat) (k : string) (v : Value) :
  plain v = true ->
  exists b ls, entry_lines d k v = (repeat2 d ++ k ++ String colon b) :: ls.
Proof.
  destruct v as [sc|ps|a]; intros H.
  - exists (String space (formatValue sc)), []. reflexivity.
  - exists "", (props_lines (S d) ps). reflexivity.
  - discriminate.
Qed.

Lemma key_line_next_not_item (k : string) (d : nat) (b : string) :
  key_ok k = true ->
  next_is_item (Some (repeat2 d ++ k ++ String colon b)) = false.
Proof.
  intros Hk. unfold next_is_item. rewrite trim_key_line by exact Hk.
  now apply key_line_not_item.
Qed.

Lemma props_lines_cons (d : nat) (k : string) (v : Value) (ps : Props) :
  props_lines d ((k, v) :: ps) = (entry_lines d k v ++ props_lines d ps)%list.
Proof. reflexivity. Qed.

Lemma props_lines_head (d : nat) (ps : Props) (rest : list string) :
  plain (Mapping ps) = true ->
  next_is_item (hd_error rest) = false ->
  next_is_item (hd_error (props_lines d ps ++ rest)) = false.
Proof.
  intros Hp Hrest. destruct ps as [|[k v] ps]; [exact Hrest|].
  apply plain_entry in Hp as (Hk & Hv & _).
  destruct (entry_lines_head d k v Hv) as (b & ls & E).
  rewrite props_lines_cons, E. cbn [List.app hd_error].
  now apply key_line_next_not_item.
Qed.

(** The line of a scalar entry assigns the scalar read back. *)
Lemma step_leaf_entry (s : State) (d : nat) (k : string) (sc : Scalar)
      (next : option string) (path : list string) (o : Props) :
  key_ok k = true -> leaf_ok sc = true ->
  parent_of (store s) (unwind (2 * Z.of_nat d) (stack (store s))) = Ok (path, o) ->
  exists s',
    step s (repeat2 d ++ k ++ ": " ++ formatValue sc) next = Ok s'
    /\ lands s s' (2 * Z.of_nat d) path (Object.set k (Prim (reread sc)) o).
Proof.
  intros Hk Hl Hparent.
  destruct (leaf_ok_parts sc Hl) as (Hne & Htrim & _).
  destruct (key_ok_parts k Hk) as (_ & _ & _ & _ & _ & _ & Hproto).
  destruct (trim_fixed _ Htrim) as (Hts & Hte).
  change (repeat2 d ++ k ++ ": " ++ formatValue sc)
    with (repeat2 d ++ k ++ String colon (String space (formatValue sc))).
  rewrite step_key_line by exact Hk.
  assert (Hv : trim (trimEnd (String space (formatValue sc))) = formatValue sc).
  { cbn [trimEnd]. rewrite Hte, Hne, andb_false_r. exact Htrim. }
  rewrite Hv.
  rewrite (handleKeyValue_leaf _ _ _ _ _ _ Hproto Hne Hparent).
  rewrite eqb_empty, Hne. cbn [andb bind].
  eexists. split; [reflexivity|].
  repeat split; cbn [store result stack currentArrayKey].
  exists []. split; [reflexivity | constructor].
Qed.

(** The line of a nested mapping inserts the empty object and pushes its
    frame. *)
Lemma step_open_entry (s : State) (d : nat) (k : string)
      (next : option string) (path : list string) (o : Props) :
  key_ok k = true ->
  next_is_item next = false ->
  parent_of (store s) (unwind (2 * Z.of_nat d) (stack (store s))) = Ok (path, o) ->
  step s (repeat2 d ++ k ++ ":") next
  = Ok (mkState
          (mkStore
             (update_at path (fun _ => Object.set k (Mapping []) o)
                        (result (store s)))
             (mkFrame (path ++ [k]) (2 * Z.of_nat d) (Some k)
                :: unwind (2 * Z.of_nat d) (stack (store s))))
          (currentArrayKey s)).
Proof.
  intros Hk Hnext Hparent.
  destruct (key_ok_parts k Hk) as (_ & _ & _ & _ & _ & _ & Hproto).
  change (repeat2 d ++ k ++ ":") with (repeat2 d ++ k ++ String colon "").
  rewrite step_key_line by exact Hk.
  change (trim (trimEnd "")) with "".
  rewrite (handleKeyValue_open _ _ _ _ _ Hproto Hparent), Hnext.
  reflexivity.
Qed.

End DecodeEntries.

Section DecodeMapping.

Lemma props_decode_of_entries (ps : Props) :
  Forall (fun e => entry_decodes (snd e)) ps -> props_decode ps.
Proof.
  induction 1 as [|[k v] ps He _ IH]; intros d s rest path o Hp Hparent Hrest.
  - exists s. split; [reflexivity|]. now apply lands_refl.
  - apply plain_entry in Hp as (Hk & Hv & Hps). cbn [snd] in He.
    rewrite props_lines_cons, <- List.app_assoc.
    destruct (He k d s (props_lines d ps ++ rest)%list path o Hk Hv Hparent)
      as (s1 & Hrun1 & Hl1).
    { now apply props_lines_head. }
    destruct (IH d s1 rest path (Object.set k (decoded v) o) Hps) as (s2 & Hrun2 & Hl2).
    { eapply lands_parent; eauto. }
    { exact Hrest. }
    exists s2. split.
    + now rewrite Hrun1.
    + eapply lands_trans; eauto.
Qed.

Lemma entry_decodes_mapping (ps : Props) :
  props_decode ps -> entry_decodes (Mapping ps).
Proof.
  intros Hps k d s rest path o Hk Hp Hparent Hrest.
  change (entry_lines d k (Mapping ps))
    with ((repeat2 d ++ k ++ ":") :: props_lines (S d) ps).
  cbn [List.app run].
  rewrite (step_open_entry s d k _ path o Hk
             (props_lines_head (S d) ps rest Hp Hrest) Hparent).
  cbn [bind].
  set (s1 := mkState _ _).
  pose proof (parent_of_inv _ _ _ _ Hparent) as (top & below & Hu & Hpath & G).
  assert (Hparent1 :
            parent_of (store s1) (unwind (2 * Z.of_nat (S d)) (stack (store s1)))
            = Ok ((path ++ [k])%list, [])).
  { subst s1. cbn [store stack result].
    rewrite unwind_below by (cbn [indent]; lia).
    unfold parent_of. cbn [obj result].
    rewrite get_at_app.
    rewrite (get_at_update_at path _ _ _ G), get_set_same. reflexivity. }
  destruct (Hps (S d) s1 rest (path ++ [k])%list [] Hp Hparent1 Hrest)
    as (s2 & Hrun & (Hr & (extra & Hs & Hall) & Hc)).
  exists s2. split; [exact Hrun|].
  repeat split.
  - rewrite Hr. subst s1. cbn [store result].
    rewrite update_at_app, update_at_update_at.
    cbv beta. rewrite modify_set. reflexivity.
  - exists (extra ++ [mkFrame (path ++ [k]) (2 * Z.of_nat d) (Some k)])%list.
    split.
    + rewrite Hs. subst s1. cbn [store stack].
      rewrite unwind_below by (cbn [indent]; lia).
      now rewrite <- List.app_assoc.
    + apply Forall_app. split.
      * eapply Forall_impl; [|exact Hall]. cbv beta. intros f Hf. lia.
      * repeat constructor. cbn [indent]. lia.
  - rewrite Hc. reflexivity.
Qed.

Lemma entry_decodes_scalar (sc : Scalar) : entry_decodes (Prim sc).
Proof.
  intros k d s rest path o Hk Hp Hparent Hrest.
  destruct (step_leaf_entry s d k sc (hd_error rest) path o Hk Hp Hparent)
    as (s' & Hstep & Hl).
  exists s'. split; [|exact Hl].
  cbn [entry_lines List.app run]. rewrite Hstep. reflexivity.
Qed.

Lemma every_entry_decodes (v : Value) : entry_decodes v.
Proof.
  induction v as [sc|ps IH|items _] using Value_nested_ind.
  - apply entry_decodes_scalar.
  - apply entry_decodes_mapping. now apply props_decode_of_entries.
  - intros k d s rest path o _ Hp. discriminate.
Qed.

Lemma every_mapping_decodes (ps : Props) : props_decode ps.
Proof.
  apply props_decode_of_entries. apply Forall_forall.
  intros e _. apply every_entry_decodes.
Qed.

End DecodeMapping.

(** ** What [stringify] prints for a plain mapping *)

Section EncodePlain.

Lemma text_cons (l : string) (ls : list string) :
  text (l :: ls) = l ++ String nl (text ls).
Proof.
  unfold text. cbn [concat_map fold_right]. now rewrite append_assoc.
Qed.

Lemma text_app (a b : list string) : text (a ++ b) = text a ++ text b.
Proof.
  induction a as [|l a IH]; [reflexivity|].
  cbn [List.app]. rewrite !text_cons, IH.
  rewrite append_assoc. reflexivity.
Qed.

Lemma split_text (ls : list string) :
  Forall no_nl ls -> split_nl (text ls) = (ls ++ [""])%list.
Proof.
  induction 1 as [|l ls Hl _ IH]; [reflexivity|].
  rewrite text_cons, split_nl_app by exact Hl. now rewrite IH.
Qed.

Lemma stringify_mapping (ps : Props) (d : nat) :
  stringify (Mapping ps) d
  = concat_map
      (fun entry =>
         match snd entry with
         | Sequence items =>
             repeat2 d ++ fst entry ++ ":" ++ String nl
               (concat_map
                  (fun item =>
                     match item with
                     | Prim s =>
                         repeat2 d ++ "  - " ++ formatValue s ++ String nl ""
                     | _ => repeat2 d ++ "  - "
                            ++ String nl (stringify item (d + 2))
                     end) items)
         | Mapping _ =>
             repeat2 d ++ fst entry ++ ":"
             ++ String nl (stringify (snd entry) (d + 1))
         | Prim s =>
             repeat2 d ++ fst entry ++ ": " ++ formatValue s ++ String nl ""
         end) ps.
Proof. reflexivity. Qed.

Lemma stringify_plain (v : Value) :
  forall d ps, v = Mapping ps -> plain v = true ->
               stringify v d = text (props_lines d ps).
Proof.
  induction v as [sc|ps0 IH|items _] using Value_nested_ind;
    intros d ps E Hp; inversion E; subst ps0; clear E.
  rewrite stringify_mapping.
  induction IH as [|[k v] ps He Hrest IHps]; [reflexivity|].
  apply plain_entry in Hp as (Hk & Hv & Hps).
  specialize (IHps Hps). cbn [snd] in He.
  unfold concat_map in *. cbn [fold_right fst snd].
  rewrite IHps, props_lines_cons, text_app.
  f_equal.
  destruct v as [sc|ps'|a]; [| |discriminate].
  - cbn [entry_lines]. rewrite text_cons.
    rewrite !append_assoc. reflexivity.
  - rewrite (He (d + 1)%nat ps' eq_refl Hv).
    cbn [entry_lines]. rewrite text_cons, Nat.add_1_r.
    fold (props_lines (S d) ps').
    rewrite !append_assoc. reflexivity.
Qed.

Lemma no_nl_app (a b : string) : no_nl a -> no_nl b -> no_nl (a ++ b).
Proof. unfold no_nl. intros Ha Hb. now rewrite includes_app, Ha, Hb. Qed.

Lemma no_nl_repeat2 (d : nat) : no_nl (repeat2 d).
Proof. apply includes_repeat2. reflexivity. Qed.

Lemma no_nl_props_lines (v : Value) :
  forall d ps, v = Mapping ps -> plain v = true ->
               Forall no_nl (props_lines d ps).
Proof.
  induction v as [sc|ps0 IH|items _] using Value_nested_ind;
    intros d ps E Hp; inversion E; subst ps0; clear E.
  induction IH as [|[k v] ps He Hrest IHps]; [constructor|].
  apply plain_entry in Hp as (Hk & Hv & Hps).
  specialize (IHps Hps). cbn [snd] in He.
  rewrite props_lines_cons. apply Forall_app. split; [|exact IHps].
  destruct (key_ok_parts k Hk) as (_ & _ & _ & Hknl & _).
  destruct v as [sc|ps'|a]; [| |discriminate].
  - cbn [entry_lines]. constructor; [|constructor].
    destruct (leaf_ok_parts sc Hv) as (_ & _ & Hnl).
    repeat apply no_nl_app; try assumption; try apply no_nl_repeat2; reflexivity.
  - cbn [entry_lines]. constructor.
    + repeat apply no_nl_app; try assumption; try apply no_nl_repeat2; reflexivity.
    + apply (He (S d) ps' eq_refl Hv).
Qed.

End EncodePlain.

(** ** Round trip of a plain mapping *)

Section RoundTrip.

(** [decode] after [encode] on a plain mapping performs, entry after
    entry, the assignments of [decoded]. *)
Lemma decode_encode_plain (ps : Props) :
  plain (Mapping ps) = true ->
  decode (encode (Mapping ps)) = Ok (decoded (Mapping ps)).
Proof.
  intros Hp. unfold decode, parse, encode.
  rewrite (stringify_plain (Mapping ps) 0 ps eq_refl Hp).
  rewrite split_text by (apply (no_nl_props_lines (Mapping ps) 0 ps eq_refl Hp)).
  destruct (every_mapping_decodes ps 0%nat initial [""] [] [] Hp eq_refl eq_refl)
    as (s' & Hrun & (Hr & _)).
  rewrite Hrun. cbn [run hd_error].
  change (step s' "" None) with (Ok s'). cbn [bind].
  rewrite Hr. reflexivity.
Qed.

End RoundTrip.

(** ** Assignments in the order of [Object.keys] *)

Section KeyOrder.

Lemma keys_ordered_app (a b : list string) :
  keys_ordered (a ++ b) = true ->
  keys_ordered a = true /\ keys_ordered b = true
  /\ forall x y, In x a -> In y b -> precedes x y = true.
Proof.
  induction a as [|k a IH]; cbn [List.app keys_ordered]; intros H.
  - repeat split; [exact H | intros x y []].
  - apply andb_true_iff in H as [Hk Hr].
    rewrite forallb_app in Hk. apply andb_true_iff in Hk as [Hka Hkb].
    destruct (IH Hr) as (Ha & Hb & Hab).
    repeat split; [now rewrite Hka, Ha | exact Hb |].
    intros x y [Hx|Hx] Hy.
    + subst x. rewrite forallb_forall in Hkb. now apply Hkb.
    + now apply Hab.
Qed.

Lemma get_none_of_precedes (o : Props) (k : string) :
  (forall x, In x (Object.keys o) -> precedes x k = true) ->
  Object.get o k = None.
Proof.
  induction o as [|[k' v'] r IH]; intros H; [reflexivity|].
  cbn [Object.get]. assert (Hk : precedes k' k = true) by (apply H; now left).
  unfold precedes in Hk. apply andb_true_iff in Hk as [Hne _].
  apply negb_true_iff in Hne. rewrite Hne.
  apply IH. intros x Hx. apply H. now right.
Qed.

Lemma insert_index_append (i : Z) (k : string) (v : Value) (o : Props) :
  Object.array_index k = Some i ->
  (forall x, In x (Object.keys o) -> precedes x k = true) ->
  Object.insert_index i k v o = (o ++ [(k, v)])%list.
Proof.
  intros Hi. induction o as [|[k' v'] r IH]; intros H; [reflexivity|].
  cbn [Object.insert_index List.app].
  assert (Hk : precedes k' k = true) by (apply H; now left).
  unfold precedes in Hk. rewrite Hi in Hk.
  apply andb_true_iff in Hk as [_ Hk].
  destruct (Object.array_index k') as [j|]; [|discriminate].
  rewrite Hk. f_equal. apply IH. intros x Hx. apply H. now right.
Qed.

(** A key that comes after all the keys of the object is created at the
    end. *)
Lemma set_append (k : string) (v : Value) (o : Props) :
  keys_ordered (Object.keys o ++ [k]) = true ->
  Object.set k v o = (o ++ [(k, v)])%list.
Proof.
  intros H. apply keys_ordered_app in H as (_ & _ & H).
  assert (Hall : forall x, In x (Object.keys o) -> precedes x k = true).
  { intros x Hx. apply H; [exact Hx | now left]. }
  unfold Object.set, Object.has. rewrite (get_none_of_precedes o k Hall).
  destruct (Object.array_index k) as [i|] eqn:Hi; [|reflexivity].
  now apply insert_index_append.
Qed.

Lemma absorb_ordered (ps : Props) :
  forall o,
    keys_ordered (Object.keys o ++ map fst ps) = true ->
    absorb ps o = (o ++ map (fun e => (fst e, decoded (snd e))) ps)%list.
Proof.
  induction ps as [|[k v] ps IH]; intros o H.
  - cbn [map]. now rewrite List.app_nil_r.
  - cbn [absorb fold_left fst snd map].
    change (fold_left _ ps ?x) with (absorb ps x).
    assert (Hk : keys_ordered (Object.keys o ++ [k]) = true).
    { cbn [map fst] in H.
      change (k :: map fst ps) with ([k] ++ map fst ps)%list in H.
      rewrite List.app_assoc in H. now apply keys_ordered_app in H as (H & _). }
    rewrite (set_append k (decoded v) o Hk).
    rewrite IH.
    + now rewrite <- List.app_assoc.
    + unfold Object.keys in *. rewrite map_app, <- List.app_assoc. exact H.
Qed.

End KeyOrder.

(** ** Reading the scalars back *)

Section Reread.

Lemma scalar_eqb_eq (a b : Scalar) : scalar_eqb a b = true -> a = b.
Proof.
  destruct a as [|x|[m sc]|x], b as [|y|[m' sc']|y]; simpl; try discriminate.
  - reflexivity.
  - intros H. apply Bool.eqb_prop in H. now subst.
  - unfold num_eqb. simpl. intros H. apply andb_true_iff in H as [H1 H2].
    apply Z.eqb_eq in H1. apply Nat.eqb_eq in H2. now subst.
  - intros H. apply String.eqb_eq in H. now subst.
Qed.

Lemma decoded_reread (v : Value) :
  plain v = true -> js_object v = true -> decoded v = reread_value v.
Proof.
  induction v as [sc|ps IH|items _] using Value_nested_ind;
    intros Hp Hj; [reflexivity | | discriminate].
  cbn [decoded reread_value]. f_equal.
  change (fold_left _ ps []) with (absorb ps []).
  cbn [js_object] in Hj. apply andb_true_iff in Hj as [Hord Hj].
  rewrite absorb_ordered by exact Hord. cbn [List.app].
  clear Hord. induction IH as [|[k v] ps He _ IHps]; [reflexivity|].
  apply plain_entry in Hp as (_ & Hv & Hps).
  cbn [forallb snd] in Hj. apply andb_true_iff in Hj as [Hjv Hjps].
  cbn [map fst snd]. cbn [snd] in He. rewrite (He Hv Hjv).
  f_equal. now apply IHps.
Qed.

Lemma reread_stable (v : Value) : leaves_stable v = true -> reread_value v = v.
Proof.
  induction v as [sc|ps IH|items IH] using Value_nested_ind; intros H.
  - cbn [leaves_stable reread_value] in *. f_equal. now apply scalar_eqb_eq.
  - cbn [leaves_stable reread_value] in *. f_equal.
    induction IH as [|[k v] ps He _ IHps]; [reflexivity|].
    cbn [forallb snd] in H. apply andb_true_iff in H as [Hv Hps].
    cbn [map fst snd]. cbn [snd] in He. rewrite (He Hv). f_equal. now apply IHps.
  - cbn [leaves_stable reread_value] in *. f_equal.
    induction IH as [|v items He _ IHps]; [reflexivity|].
    cbn [forallb] in H. apply andb_true_iff in H as [Hv Hps].
    cbn [map]. rewrite (He Hv). f_equal. now apply IHps.
Qed.

Lemma entry_lines_reread (v : Value) :
  forall d k, plain v = true -> leaves_reprint v = true ->
              entry_lines d k (reread_value v) = entry_lines d k v.
Proof.
  induction v as [sc|ps IH|items _] using Value_nested_ind;
    intros d k Hp H; [| |discriminate].
  - cbn [leaves_reprint reread_value entry_lines] in *.
    apply String.eqb_eq in H. now rewrite H.
  - cbn [leaves_reprint reread_value entry_lines] in *. f_equal.
    induction IH as [|[k' v] ps He _ IHps]; [reflexivity|].
    apply plain_entry in Hp as (_ & Hpv & Hps).
    cbn [forallb snd] in H. apply andb_true_iff in H as [Hv Hr].
    cbn [map flat_map fst snd]. cbn [snd] in He.
    rewrite (He (S d) k' Hpv Hv). f_equal. now apply IHps.
Qed.

Lemma plain_reread (v : Value) :
  plain v = true -> leaves_reprint v = true -> plain (reread_value v) = true.
Proof.
  induction v as [sc|ps IH|items _] using Value_nested_ind;
    intros Hp H; [| |discriminate].
  - cbn [leaves_reprint reread_value plain] in *.
    apply String.eqb_eq in H. unfold leaf_ok in *. now rewrite H.
  - cbn [leaves_reprint reread_value] in *.
    induction IH as [|[k' v] ps He _ IHps]; [reflexivity|].
    pose proof (plain_entry _ _ _ Hp) as (Hk & Hpv & Hps).
    cbn [forallb snd] in H. apply andb_true_iff in H as [Hv Hr].
    cbn [map plain forallb fst snd]. cbn [snd] in He.
    rewrite Hk, (He Hpv Hv). cbn [andb]. now apply IHps.
Qed.

Lemma props_lines_reread (ps : Props) (d : nat) :
  plain (Mapping ps) = true -> leaves_reprint (Mapping ps) = true ->
  props_lines d (map (fun e => (fst e, reread_value (snd e))) ps)
  = props_lines d ps.
Proof.
  induction ps as [|[k v] ps IH]; intros Hp H; [reflexivity|].
  apply plain_entry in Hp as (_ & Hpv & Hps).
  cbn [leaves_reprint forallb snd] in H. apply andb_true_iff in H as [Hv Hr].
  cbn [map fst snd]. rewrite !props_lines_cons.
  rewrite (entry_lines_reread v d k Hpv Hv). f_equal. now apply IH.
Qed.

Lemma encode_reread (ps : Props) :
  plain (Mapping ps) = true -> leaves_reprint (Mapping ps) = true ->
  encode (reread_value (Mapping ps)) = encode (Mapping ps).
Proof.
  intros Hp H. unfold encode.
  pose proof (plain_reread _ Hp H) as Hp'.
  cbn [reread_value] in *.
  rewrite (stringify_plain _ 0 _ eq_refl Hp').
  rewrite (stringify_plain _ 0 _ eq_refl Hp).
  now rewrite props_lines_reread.
Qed.

End Reread.

(** ** Quoted strings *)

Section Quoted.

Lemma escape_quotes_none (s : string) :
  includes s dquote = false -> escape_quotes s = s.
Proof.
  induction s as [|c r IH]; [reflexivity|].
  cbn [includes escape_quotes]. intros H.
  apply orb_false_iff in H as [Hc Hr]. now rewrite Hc, IH.
Qed.

Lemma endsWith_app (a p : string) : endsWith (a ++ p) p = true.
Proof.
  induction a as [|c r IH].
  - cbn [append]. destruct p as [|x p]; [reflexivity|].
    cbn [endsWith]. now rewrite String.eqb_refl.
  - cbn [append endsWith]. rewrite IH. now rewrite orb_true_r.
Qed.

Lemma dropLast_app (s : string) (c : ascii) :
  dropLast (s ++ String c "") = s.
Proof.
  induction s as [|x r IH]; [reflexivity|].
  cbn [append dropLast]. rewrite IH.
  destruct r; reflexivity.
Qed.

Lemma all_digits_quoted (r : string) :
  Numeral.is_int_literal (String dquote r) = false
  /\ Numeral.is_float_literal (String dquote r) = false.
Proof.
  split; [reflexivity|].
  unfold Numeral.is_float_literal. cbn [Numeral.strip_sign snd].
  change (Ascii.eqb dquote dash) with false. cbv iota. cbn [snd].
  cbn [Numeral.split_dot]. change (Ascii.eqb dquote dot) with false. cbv iota.
  destruct (Numeral.split_dot r) as [[a b]|]; reflexivity.
Qed.

(** [decode] strips the quotes [encode] puts around a string. *)
Lemma parseValue_quoted (s : string) :
  parseValue (String dquote (s ++ String dquote "")) = Str s.
Proof.
  unfold parseValue.
  destruct (all_digits_quoted (s ++ String dquote "")) as [Hi Hf].
  rewrite Hi, Hf.
  change (String.eqb (String dquote (s ++ String dquote "")) "true") with false.
  change (String.eqb (String dquote (s ++ String dquote "")) "false") with false.
  change (String.eqb (String dquote (s ++ String dquote "")) "null") with false.
  change (String.eqb (String dquote (s ++ String dquote "")) "~") with false.
  change (String.eqb (String dquote (s ++ String dquote "")) "") with false.
  cbn [orb].
  rewrite startsWith_cons. change (Ascii.eqb dquote dquote) with true.
  change (startsWith (s ++ String dquote "") "") with true.
  change (String dquote (s ++ String dquote ""))
    with (String dquote s ++ String dquote "") at 1.
  rewrite endsWith_app. cbn [andb orb].
  unfold slice_1_m1. cbn [drop]. now rewrite dropLast_app.
Qed.

End Quoted.

(** ** Integers are printed and read back *)

Section Integers.

Import Numeral.

Lemma is_digit_digit_char (d : Z) : 0 <= d < 10 -> is_digit (digit_char d) = true.
Proof.
  intros H.
  assert (E : d = 0 \/ d = 1 \/ d = 2 \/ d = 3 \/ d = 4 \/ d = 5 \/ d = 6
              \/ d = 7 \/ d = 8 \/ d = 9) by lia.
  repeat (destruct E as [E|E]; [subst d; reflexivity|]). subst d; reflexivity.
Qed.

Lemma digit_val_digit_char (d : Z) : 0 <= d < 10 -> digit_val (digit_char d) = d.
Proof.
  intros H.
  assert (E : d = 0 \/ d = 1 \/ d = 2 \/ d = 3 \/ d = 4 \/ d = 5 \/ d = 6
              \/ d = 7 \/ d = 8 \/ d = 9) by lia.
  repeat (destruct E as [E|E]; [subst d; reflexivity|]). subst d; reflexivity.
Qed.

Lemma all_digits_app (a b : string) :
  all_digits (a ++ b) = all_digits a && all_digits b.
Proof.
  induction a as [|c r IH]; [reflexivity|].
  cbn [append all_digits]. now rewrite IH, andb_assoc.
Qed.

Lemma digits_value_app (a b : string) :
  forall acc, all_digits a = true ->
              digits_value (a ++ b) acc = digits_value b (digits_value a acc).
Proof.
  induction a as [|c r IH]; intros acc H; [reflexivity|].
  cbn [all_digits] in H. apply andb_true_iff in H as [Hc Hr].
  cbn [append digits_value]. rewrite Hc. now apply IH.
Qed.

(** What [digits_aux] puts in front of its accumulator. *)
Lemma digits_aux_spec (f : nat) :
  forall n acc, 0 <= n < 2 ^ Z.of_nat (S f) ->
    exists pre,
      digits_aux (S f) n acc = pre ++ acc
      /\ all_digits pre = true
      /\ is_empty pre = false
      /\ (forall a, digits_value pre a
                    = a * 10 ^ Z.of_nat (String.length pre) + n)
      /\ (0 < n -> 10 ^ (Z.of_nat (String.length pre) - 1) <= n).
Proof.
  induction f as [|f IH]; intros n acc Hn.
  - change (2 ^ Z.of_nat 1) with 2 in Hn.
    assert (Hq : n / 10 = 0) by (apply Z.div_small; lia).
    cbn [digits_aux]. rewrite Hq. cbn [Z.eqb].
    assert (Hd : n mod 10 = n) by (apply Z.mod_small; lia).
    exists (String (digit_char n) ""). rewrite Hd.
    assert (Hr : 0 <= n < 10) by lia.
    repeat split.
    + cbn [all_digits]. now rewrite is_digit_digit_char.
    + intros a. cbn [digits_value String.length].
      rewrite is_digit_digit_char, digit_val_digit_char by exact Hr.
      change (Z.of_nat 1) with 1. lia.
    + intros Hpos. cbn [String.length].
      change (10 ^ (Z.of_nat 1 - 1)) with 1. lia.
  - change (digits_aux (S (S f)) n acc)
      with (if n / 10 =? 0
            then String (digit_char (n mod 10)) acc
            else digits_aux (S f) (n / 10) (String (digit_char (n mod 10)) acc)).
    assert (Hm : 0 <= n mod 10 < 10) by (apply Z.mod_pos_bound; lia).
    destruct (n / 10 =? 0) eqn:Hq.
    + apply Z.eqb_eq in Hq.
      assert (Hd : n mod 10 = n).
      { pose proof (Z.div_mod n 10 ltac:(lia)). lia. }
      exists (String (digit_char n) ""). rewrite Hd in *.
      repeat split.
      * cbn [all_digits]. now rewrite is_digit_digit_char.
      * intros a. cbn [digits_value String.length].
        rewrite is_digit_digit_char, digit_val_digit_char by exact Hm.
        change (Z.of_nat 1) with 1. lia.
      * intros Hpos. cbn [String.length].
      change (10 ^ (Z.of_nat 1 - 1)) with 1. lia.
    + apply Z.eqb_neq in Hq.
      assert (Hn' : 0 <= n / 10 < 2 ^ Z.of_nat (S f)).
      { split; [apply Z.div_pos; lia|].
        apply Z.div_lt_upper_bound; [lia|].
        replace (Z.of_nat (S (S f))) with (Z.of_nat (S f) + 1) in Hn by lia.
        rewrite Z.pow_add_r in Hn by lia. lia. }
      destruct (IH (n / 10) (String (digit_char (n mod 10)) acc) Hn')
        as (pre & Hpre & Hall & Hne & Hval & Hlow).
      exists (pre ++ String (digit_char (n mod 10)) "").
      assert (Hlen : Z.of_nat (String.length
                                 (pre ++ String (digit_char (n mod 10)) ""))
                     = Z.of_nat (String.length pre) + 1).
      { rewrite length_append. cbn [String.length]. lia. }
      repeat split.
      * rewrite Hpre, append_assoc. reflexivity.
      * rewrite all_digits_app, Hall. cbn [all_digits andb].
        now rewrite is_digit_digit_char.
      * destruct pre; [discriminate | reflexivity].
      * intros a. rewrite digits_value_app by exact Hall.
        cbn [digits_value]. rewrite is_digit_digit_char by exact Hm.
        rewrite digit_val_digit_char by exact Hm.
        rewrite Hval, Hlen, Z.pow_add_r by lia.
        pose proof (Z.div_mod n 10 ltac:(lia)). lia.
      * intros Hpos. rewrite Hlen.
        replace (Z.of_nat (String.length pre) + 1 - 1)
          with (Z.of_nat (String.length pre) - 1 + 1) by lia.
        assert (Hq' : 0 < n / 10).
        { pose proof (Z.div_pos n 10 ltac:(lia) ltac:(lia)). lia. }
        specialize (Hlow Hq').
        assert (Hl1 : 0 <= Z.of_nat (String.length pre) - 1).
        { destruct pre; [discriminate|]. cbn [String.length]. lia. }
        rewrite Z.pow_add_r by lia.
        pose proof (Z.div_mod n 10 ltac:(lia)). lia.
Qed.

Lemma digits_spec (n : Z) :
  0 <= n ->
  all_digits (digits n) = true
  /\ is_empty (digits n) = false
  /\ (forall a, digits_value (digits n) a
                = a * 10 ^ Z.of_nat (String.length (digits n)) + n)
  /\ (0 < n -> 10 ^ (Z.of_nat (String.length (digits n)) - 1) <= n).
Proof.
  intros Hn. unfold digits.
  assert (Hb : 0 <= n < 2 ^ Z.of_nat (S (Z.to_nat (Z.log2 n)))).
  { split; [exact Hn|].
    destruct (Z.eq_dec n 0) as [->|Hne]; [reflexivity|].
    rewrite Nat2Z.inj_succ, Z2Nat.id by apply Z.log2_nonneg.
    apply Z.log2_spec. lia. }
  destruct (digits_aux_spec (Z.to_nat (Z.log2 n)) n "" Hb)
    as (pre & Hpre & Hall & Hne & Hval & Hlow).
  rewrite Hpre, append_empty_r. now repeat split.
Qed.

End Integers.

Section IntegerLeaves.

Import Numeral.

Lemma strip_zeros_spec (fuel : nat) :
  forall m z0, 0 < m ->
    0 < fst (strip_zeros fuel m z0)
    /\ m = fst (strip_zeros fuel m z0)
           * 10 ^ (Z.of_nat (snd (strip_zeros fuel m z0)) - Z.of_nat z0)
    /\ (z0 <= snd (strip_zeros fuel m z0))%nat.
Proof.
  induction fuel as [|fuel IH]; intros m z0 Hm.
  - cbn [strip_zeros fst snd]. rewrite Z.sub_diag. cbn. lia.
  - cbn [strip_zeros].
    destruct ((m mod 10 =? 0) && negb (m =? 0)) eqn:E.
    + apply andb_true_iff in E as [E _]. apply Z.eqb_eq in E.
      pose proof (Z.div_mod m 10 ltac:(lia)) as Hdm.
      assert (Hq : 0 < m / 10) by lia.
      destruct (IH (m / 10) (S z0) Hq) as (Hs & Hv & Hz).
      repeat split; [exact Hs | | lia].
      set (r := strip_zeros fuel (m / 10) (S z0)) in *.
      replace (Z.of_nat (snd r) - Z.of_nat z0)
        with (Z.of_nat (snd r) - Z.of_nat (S z0) + 1) by lia.
      rewrite Z.pow_add_r by lia. lia.
    + cbn [fst snd]. rewrite Z.sub_diag. cbn. lia.
Qed.

Lemma all_digits_zeros (z : nat) : all_digits (zeros z) = true.
Proof. induction z as [|z IH]; [reflexivity | exact IH]. Qed.

Lemma digits_value_zeros (z : nat) :
  forall a, digits_value (zeros z) a = a * 10 ^ Z.of_nat z.
Proof.
  induction z as [|z IH]; intros a.
  - cbn. lia.
  - cbn [zeros digits_value]. change (is_digit "0") with true. cbv iota.
    rewrite IH. change (digit_val "0") with 0.
    rewrite Nat2Z.inj_succ, Z.pow_succ_r by lia. lia.
Qed.

(** The text of a positive integer below 10^21: its digits. *)
Lemma toString_pos_int (m : Z) :
  0 < m < 10 ^ 21 ->
  exists body,
    toString_pos m 0 = body
    /\ all_digits body = true /\ is_empty body = false
    /\ digits_value body 0 = m.
Proof.
  intros Hm. unfold toString_pos.
  destruct (strip_zeros_spec (S (Z.to_nat (Z.log2 m))) m 0 ltac:(lia))
    as (Hs & Hv & _).
  destruct (strip_zeros (S (Z.to_nat (Z.log2 m))) m 0) as [s z].
  cbn [fst snd] in *. rewrite Z.sub_0_r in Hv.
  destruct (digits_spec s ltac:(lia)) as (Hall & Hne & Hval & Hlow).
  specialize (Hlow Hs).
  set (k := Z.of_nat (String.length (digits s))) in *.
  assert (Hk : 1 <= k).
  { subst k. destruct (digits s); [discriminate|]. cbn [String.length]. lia. }
  assert (Hn : k + Z.of_nat z <= 21).
  { assert (Hp : 10 ^ (k - 1 + Z.of_nat z) < 10 ^ 21).
    { rewrite Z.pow_add_r by lia.
      assert (0 < 10 ^ Z.of_nat z) by (apply Z.pow_pos_nonneg; lia). nia. }
    apply Z.pow_lt_mono_r_iff in Hp; lia. }
  replace (k + Z.of_nat z - Z.of_nat 0) with (k + Z.of_nat z)
    by (change (Z.of_nat 0) with 0; lia).
  assert (E1 : (k <=? k + Z.of_nat z) = true) by (apply Z.leb_le; lia).
  assert (E2 : (k + Z.of_nat z <=? 21) = true) by (apply Z.leb_le; lia).
  rewrite E1, E2. cbn [andb].
  replace (Z.to_nat (k + Z.of_nat z - k)) with z by lia.
  eexists. split; [reflexivity|]. repeat split.
  - now rewrite all_digits_app, Hall, all_digits_zeros.
  - destruct (digits s); [discriminate | reflexivity].
  - rewrite digits_value_app by exact Hall.
    rewrite digits_value_zeros, Hval. fold k. lia.
Qed.

Lemma digit_not_white (c : ascii) : is_digit c = true -> is_white c = false.
Proof.
  unfold is_digit, is_white. set (n := nat_of_ascii c). intros H.
  apply andb_true_iff in H as [H1 H2].
  apply Nat.leb_le in H1. apply Nat.leb_le in H2.
  assert (E1 : (n <=? 13)%nat = false) by (apply Nat.leb_gt; lia).
  assert (E2 : (n =? 32)%nat = false) by (apply Nat.eqb_neq; lia).
  assert (E3 : (n =? 160)%nat = false) by (apply Nat.eqb_neq; lia).
  now rewrite E1, E2, E3, andb_false_r.
Qed.

Lemma all_digits_trimEnd (s : string) :
  all_digits s = true -> trimEnd s = s /\ includes s nl = false.
Proof.
  induction s as [|c r IH]; intros H; [now split|].
  cbn [all_digits] in H. apply andb_true_iff in H as [Hc Hr].
  destruct (IH Hr) as [Ht Hn]. split.
  - cbn [trimEnd]. rewrite Ht, (digit_not_white c Hc). reflexivity.
  - cbn [includes]. rewrite Hn.
    destruct (Ascii.eqb c nl) eqn:E; [|reflexivity].
    apply Ascii.eqb_eq in E. subst c. discriminate.
Qed.

(** A text made of an optional minus sign and digits is read as the
    integer it denotes, and it fits on a line. *)
Lemma numeral_reads_back (neg : bool) (body : string) :
  all_digits body = true -> is_empty body = false ->
  let t := if neg then String dash body else body in
  parseValue t
  = Number (int_num (if neg then - digits_value body 0 else digits_value body 0))
  /\ is_empty t = false /\ trim t = t /\ includes t nl = false.
Proof.
  intros Hall Hne t.
  destruct body as [|c r]; [discriminate|].
  pose proof Hall as Hall'.
  cbn [all_digits] in Hall'. apply andb_true_iff in Hall' as [Hc _].
  assert (Hdash : Ascii.eqb c dash = false).
  { destruct (Ascii.eqb c dash) eqn:E; [|reflexivity].
    apply Ascii.eqb_eq in E. subst c. discriminate. }
  assert (Hkw : forall kw, In kw ["true"; "false"; "null"; "~"; ""] ->
                           String.eqb t kw = false).
  { intros kw Hin. apply String.eqb_neq. intros E.
    subst t. destruct neg;
      repeat (destruct Hin as [Hin|Hin];
              [subst kw; inversion E; subst; discriminate|]);
      destruct Hin. }
  assert (Hint : is_int_literal t = true /\
                 parseInt t = int_num (if neg then - digits_value (String c r) 0
                                       else digits_value (String c r) 0)).
  { subst t. destruct neg.
    - split; [unfold is_int_literal; cbn [strip_sign snd];
              change (Ascii.eqb dash dash) with true; cbv iota; cbn [snd];
              now rewrite Hall|].
      unfold parseInt. cbn [strip_sign].
      change (Ascii.eqb dash dash) with true. reflexivity.
    - split; [unfold is_int_literal; cbn [strip_sign snd]; rewrite Hdash;
              cbn [snd]; now rewrite Hall|].
      unfold parseInt. cbn [strip_sign]. rewrite Hdash. reflexivity. }
  destruct Hint as [Hi Hp].
  destruct (all_digits_trimEnd _ Hall) as [Hte Hnl].
  split; [|split; [|split]].
  - unfold parseValue.
    rewrite (Hkw "true"), (Hkw "false"), (Hkw "null"), (Hkw "~"), (Hkw "")
      by (simpl; tauto).
    cbn [orb]. now rewrite Hi, Hp.
  - subst t. now destruct neg.
  - subst t. unfold trim. destruct neg.
    + rewrite trimStart_head by reflexivity.
      change (String dash (String c r)) with (String dash "" ++ String c r).
      rewrite trimEnd_app; [now rewrite Hte | now rewrite Hte].
    + rewrite trimStart_head by (now apply digit_not_white). exact Hte.
  - subst t. destruct neg; [|exact Hnl].
    cbn [includes]. change (Ascii.eqb dash nl) with false. exact Hnl.
Qed.

(** Every integer of magnitude below 10^21 (all the integers a double
    holds exactly, those below 2^53, are among them) is a scalar that
    fits on a line and is read back as itself. *)
Lemma integer_leaf (z : Z) :
  Z.abs z < 10 ^ 21 ->
  leaf_ok (Number (int_num z)) = true
  /\ reread (Number (int_num z)) = Number (int_num z).
Proof.
  intros Hz. unfold leaf_ok, reread. cbn [formatValue].
  unfold toString. cbn [int_num mant scale normalize].
  destruct (z =? 0) eqn:E0.
  { apply Z.eqb_eq in E0. subst z. split; reflexivity. }
  apply Z.eqb_neq in E0.
  destruct (z <? 0) eqn:Eneg.
  - apply Z.ltb_lt in Eneg.
    destruct (toString_pos_int (- z) ltac:(lia)) as (body & Hb & Hall & Hne & Hv).
    rewrite Hb.
    destruct (numeral_reads_back true body Hall Hne) as (Hp & H1 & H2 & H3).
    cbv zeta in *. rewrite Hp, H1, H2, H3, String.eqb_refl, Hv.
    split; [reflexivity|]. unfold int_num. do 2 f_equal. lia.
  - apply Z.ltb_ge in Eneg.
    destruct (toString_pos_int z ltac:(lia)) as (body & Hb & Hall & Hne & Hv).
    rewrite Hb.
    destruct (numeral_reads_back false body Hall Hne) as (Hp & H1 & H2 & H3).
    cbv zeta in *. rewrite Hp, H1, H2, H3, String.eqb_refl, Hv.
    split; reflexivity.
Qed.

End IntegerLeaves.

(** ** The scalars of the round trip *)

Section SimpleScalars.

Import Numeral.

Lemma needs_quotes_parts (s : string) :
  includes s dquote = false -> includes s nl = false ->
  needs_quotes s = true ->
  formatValue (Str s) = String dquote (s ++ String dquote "")
  /\ leaf_ok (Str s) = true
  /\ reread (Str s) = Str s.
Proof.
  intros Hq Hn Hc.
  assert (Hf : formatValue (Str s) = String dquote (s ++ String dquote "")).
  { cbn [formatValue]. rewrite Hc. now rewrite escape_quotes_none. }
  split; [exact Hf|]. split.
  - unfold leaf_ok. rewrite Hf. cbn [is_empty negb andb].
    assert (Ht : trim (String dquote (s ++ String dquote ""))
                 = String dquote (s ++ String dquote "")).
    { unfold trim. rewrite trimStart_head by reflexivity.
      change (String dquote (s ++ String dquote ""))
        with (String dquote s ++ String dquote "").
      rewrite trimEnd_app; reflexivity. }
    rewrite Ht, String.eqb_refl. cbn [andb includes].
    change (Ascii.eqb dquote nl) with false. cbn [orb].
    rewrite includes_app, Hn. reflexivity.
  - unfold reread. rewrite Hf. apply parseValue_quoted.
Qed.

Lemma needs_quotes_nl (s : string) :
  needs_quotes s = false -> includes s nl = false.
Proof.
  unfold needs_quotes. intros H.
  repeat rewrite orb_false_iff in H.
  now destruct H as (((((_ & _) & H) & _) & _) & _).
Qed.

Lemma bare_string_ok (x : string) :
  bare_string x = true -> leaf_ok (Str x) = true /\ reread (Str x) = Str x.
Proof.
  unfold bare_string. intros H.
  repeat rewrite andb_true_iff in H. repeat rewrite negb_true_iff in H.
  destruct H as ((((((Hq & Hne) & Ht) & Hk) & Hi) & Hf) & Hw).
  unfold leaf_ok, reread. cbn [formatValue]. rewrite Hq.
  split.
  - now rewrite Hne, Ht, (needs_quotes_nl x Hq).
  - unfold keyword in Hk. repeat (apply orb_false_iff in Hk as [Hk ?]).
    unfold parseValue.
    repeat match goal with H : _ = false |- _ => rewrite H end.
    rewrite eqb_empty, Hne. cbn [orb].
    unfold quote_wrapped in Hw. now rewrite Hw.
Qed.

Lemma all_digits_includes (x : string) (c : ascii) :
  is_digit c = false -> all_digits x = true -> includes x c = false.
Proof.
  intros Hc. induction x as [|a r IH]; intros H; [reflexivity|].
  cbn [all_digits] in H. apply andb_true_iff in H as [Ha Hr].
  cbn [includes]. rewrite (IH Hr).
  destruct (Ascii.eqb a c) eqn:E; [|reflexivity].
  apply Ascii.eqb_eq in E. subst a. congruence.
Qed.

Lemma all_digits_startsWith (x : string) (c : ascii) :
  is_digit c = false -> all_digits x = true ->
  startsWith x (String c "") = false.
Proof.
  intros Hc H. destruct x as [|a r]; [reflexivity|].
  cbn [all_digits] in H. apply andb_true_iff in H as [Ha _].
  rewrite startsWith_cons.
  destruct (Ascii.eqb c a) eqn:E; [|reflexivity].
  apply Ascii.eqb_eq in E. subst a. congruence.
Qed.

Lemma scalar_eqb_refl (s : Scalar) : scalar_eqb s s = true.
Proof.
  destruct s as [|b|[m sc]|x]; cbn [scalar_eqb].
  - reflexivity.
  - now destruct b.
  - unfold num_eqb. cbn [mant scale]. now rewrite Z.eqb_refl, Nat.eqb_refl.
  - apply String.eqb_refl.
Qed.

End SimpleScalars.

(** ** The frames of a run always lead to objects

    The paths of the frames of the stack are prefixes of the path of the
    frame on top ([nested_paths]), and an assignment writes a property of
    the object on top: it never replaces the object of a frame that is on
    the stack.  So the path of a frame leads to one and the same object
    for as long as the frame is on the stack, as the reference does in
    the source. *)

Section Frames.

Lemma get_at_update_prefix (p q : list string) (f : Props -> Props) :
  forall o, get_at p o <> None -> get_at p (update_at (p ++ q) f o) <> None.
Proof.
  induction p as [|k p IH]; intros o H.
  - cbn [get_at]. discriminate.
  - cbn [List.app]. rewrite update_at_as_modify. cbn [get_at] in *.
    rewrite get_modify.
    destruct (Object.get o k) as [[s|o'|a]|]; try congruence.
    cbn [option_map in_mapping]. now apply IH.
Qed.

Lemma nested_paths_app (a b : list Frame) :
  nested_paths (a ++ b) -> nested_paths b.
Proof.
  induction a as [|f a IH]; [auto|].
  cbn [List.app nested_paths]. intros [_ H]. now apply IH.
Qed.

Lemma frames_ok_unwind (r : Props) (stk : list Frame) (w : Z) :
  frames_ok (mkStore r stk) -> frames_ok (mkStore r (unwind w stk)).
Proof.
  unfold frames_ok. cbn [stack result]. intros (Hne & Hn & Hall).
  destruct (unwind_split w stk) as (extra & He & _).
  split; [|split].
  - now apply unwind_nonempty.
  - rewrite He in Hn. now apply nested_paths_app in Hn.
  - rewrite He in Hall. now apply Forall_app in Hall as [_ Hall].
Qed.

Lemma frames_ok_update (r : Props) (top : Frame) (below : list Frame)
      (f : Props -> Props) :
  frames_ok (mkStore r (top :: below)) ->
  frames_ok (mkStore (update_at (obj top) f r) (top :: below)).
Proof.
  unfold frames_ok. cbn [stack result]. intros (_ & Hn & Hall).
  split; [discriminate|]. split; [exact Hn|].
  inversion Hall as [|? ? Htop Hbelow]; subst. constructor.
  - rewrite <- (List.app_nil_r (obj top)) at 2.
    now apply get_at_update_prefix.
  - cbn [nested_paths] in Hn. destruct Hn as [Hpre _].
    rewrite Forall_forall in *. intros g Hg.
    destruct (Hpre g Hg) as (q & Eq). rewrite Eq.
    apply get_at_update_prefix. now apply Hbelow.
Qed.

Lemma frames_ok_push (r : Props) (top : Frame) (below : list Frame)
      (k : string) (w : Z) (o : Props) :
  frames_ok (mkStore r (top :: below)) ->
  get_at (obj top) r = Some o ->
  frames_ok
    (mkStore (update_at (obj top) (fun _ => Object.set k (Mapping []) o) r)
             (mkFrame (obj top ++ [k]) w (Some k) :: top :: below)).
Proof.
  intros Hok G.
  pose proof (frames_ok_update r top below
                (fun _ => Object.set k (Mapping []) o) Hok) as (_ & Hn & Hall).
  cbn [stack result] in *.
  split; [discriminate|]. split; [split; [|exact Hn]|].
  - cbn [obj]. constructor; [now exists [k]|].
    cbn [nested_paths] in Hn. destruct Hn as [Hpre _].
    rewrite Forall_forall in *. intros g Hg.
    destruct (Hpre g Hg) as (q & Eq). exists (q ++ [k])%list.
    now rewrite Eq, List.app_assoc.
  - constructor; [|exact Hall]. cbn [obj result]. rewrite get_at_app.
    rewrite (get_at_update_at (obj top) _ _ _ G), get_set_same. discriminate.
Qed.

Lemma handleKeyValue_frames (st st' : Store) (w : Z) (k value : string) :
  frames_ok st -> handleKeyValue st w k value = Ok st' -> frames_ok st'.
Proof.
  intros Hok. destruct st as [r stk].
  apply (frames_ok_unwind r stk w) in Hok.
  unfold handleKeyValue. cbn [stack result].
  destruct (parent_of (mkStore r stk) (unwind w stk)) as [[path parent]| |] eqn:Hp;
    cbn [bind]; try discriminate.
  apply parent_of_inv in Hp as (top & below & Hu & Hpath & G).
  cbn [result] in G. rewrite Hu in *. subst path.
  unfold assign. destruct (String.eqb k "__proto__");
    [destruct (String.eqb value ""); discriminate|].
  destruct (String.eqb value ""); cbn [bind]; intros H; inversion H; subst.
  - now apply frames_ok_push.
  - now apply frames_ok_update.
Qed.

Lemma handleArrayItem_frames (st st' : Store) (w : Z) (value : string)
      (arrayKey : option string) :
  frames_ok st -> handleArrayItem st w value arrayKey = Ok st' -> frames_ok st'.
Proof.
  intros Hok. destruct st as [r stk].
  apply (frames_ok_unwind r stk w) in Hok.
  unfold handleArrayItem. cbn [stack result].
  destruct (parent_of (mkStore r stk) (unwind w stk)) as [[path parent]| |] eqn:Hp;
    cbn [bind]; try discriminate.
  apply parent_of_inv in Hp as (top & below & Hu & Hpath & G).
  rewrite Hu in *. subst path.
  destruct (select_target parent arrayKey) as [[parent1 target]| |];
    cbn [bind]; try discriminate.
  destruct (push_into target (Prim (parseValue value)) parent1);
    cbn [bind]; try discriminate.
  intros H; inversion H; subst. now apply frames_ok_update.
Qed.

Lemma step_frames (s s' : State) (line : string) (next : option string) :
  frames_ok (store s) -> step s line next = Ok s' -> frames_ok (store s').
Proof.
  intros Hok. unfold step.
  destruct (is_empty (trim line) || startsWith (trim line) "#").
  { intros H; inversion H; now subst. }
  destruct (startsWith (trim line) "- ").
  { destruct (handleArrayItem _ _ _ _) as [st| |] eqn:E; cbn [bind];
      try discriminate.
    intros H; inversion H; subst. cbn [store].
    eapply handleArrayItem_frames; eauto. }
  destruct (0 <? indexOf (trim line) colon).
  - destruct (handleKeyValue _ _ _ _) as [st| |] eqn:E; cbn [bind];
      try discriminate.
    intros H; inversion H; subst. cbn [store].
    eapply handleKeyValue_frames; eauto.
  - intros H; inversion H; now subst.
Qed.

Lemma run_frames (lines : list string) :
  forall s s', frames_ok (store s) -> run s lines = Ok s' -> frames_ok (store s').
Proof.
  induction lines as [|l rest IH]; intros s s' Hok H.
  - cbn [run] in H. inversion H; now subst.
  - cbn [run] in H.
    destruct (step s l (hd_error rest)) as [s1| |] eqn:E; cbn [bind] in H;
      try discriminate.
    eapply IH; [|exact H]. eapply step_frames; eauto.
Qed.

Lemma initial_frames : frames_ok (store initial).
Proof.
  split; [discriminate|]. split; [cbn; auto|].
  constructor; [discriminate | constructor].
Qed.

(** In every state a run of [parse] reaches, the frame on top after an
    unwinding refers to an object: [parent_of] neither throws nor leaves
    the embedding. *)
Lemma frames_resolve (lines : list string) (s : State) (w : Z) :
  run initial lines = Ok s ->
  exists path parent,
    parent_of (store s) (unwind w (stack (store s))) = Ok (path, parent).
Proof.
  intros H. pose proof (run_frames lines initial s initial_frames H) as Hok.
  destruct (store s) as [r stk]. cbn [stack].
  apply (frames_ok_unwind r stk w) in Hok.
  destruct Hok as (Hne & _ & Hall). cbn [stack result] in *.
  unfold parent_of. destruct (unwind w stk) as [|top below]; [congruence|].
  inversion Hall as [|? ? Htop _]; subst. cbn [result].
  destruct (get_at (obj top) r) as [o|]; [|congruence].
  now exists (obj top), o.
Qed.

(** What [decode] returns is a mapping. *)
Lemma decode_returns_mapping (doc : string) (v : Value) :
  decode doc = Ok v -> exists props, v = Mapping props.
Proof.
  unfold decode, parse.
  destruct (run initial (split_nl doc)) as [s| |]; cbn [bind]; try discriminate.
  intros H; inversion H. now eexists.
Qed.

End Frames.

(** ** The fallback key of a sequence item *)

Section ItemsFallback.

(** With no applicable pending key and a last key that is neither null
    nor empty, the item goes under ['items'], created or emptied first
    when it is absent or falsy, provided ['items'] is not bound to a
    truthy value that is no array. *)
Lemma items_fallback_appends
      (st : Store) (w : Z) (value : string) (arrayKey : option string)
      (path : list string) (parent : Props) :
  parent_of st (unwind w (stack st)) = Ok (path, parent) ->
  negb (falsy_key arrayKey)
  && Object.lookup_truthy (Object.lookup parent (default_key arrayKey)) = false ->
  negb (falsy_key (last_key parent))
  && null_or_empty (Object.lookup parent (default_key (last_key parent))) = false ->
  items_usable parent = true ->
  handleArrayItem st w value arrayKey
  = Ok (mkStore
          (update_at path
             (fun _ => Object.set "items"
                         (Sequence (items_of parent "items"
                                    ++ [Prim (parseValue value)]))
                         parent)
             (result st))
          (unwind w (stack st))).
Proof.
  intros Hparent Hkey Hlast Hitems.
  unfold handleArrayItem. rewrite Hparent. cbn [bind].
  unfold select_target. rewrite Hkey, Hlast.
  unfold assign. change (String.eqb "items" "__proto__") with false.
  cbn [bind]. unfold push_into. unfold Object.lookup at 1.
  rewrite get_set_same.
  assert (E : items_or_new parent = Sequence (items_of parent "items")).
  { unfold items_usable, items_or_new, items_of, Object.lookup in *.
    destruct (Object.get parent "items") as [[sc|o|a]|]; try reflexivity.
    - apply negb_true_iff in Hitems. now rewrite Hitems.
    - discriminate. }
  rewrite E, replace_set. reflexivity.
Qed.

(** A sequence-item line throws in one case only: the fallback finds
    ['items'] bound to a truthy value that is no array. *)
Lemma handleArrayItem_throws_only_on_items
      (st : Store) (w : Z) (value : string) (arrayKey : option string)
      (path : list string) (parent : Props) :
  parent_of st (unwind w (stack st)) = Ok (path, parent) ->
  handleArrayItem st w value arrayKey = TypeError ->
  items_usable parent = false.
Proof.
  intros Hparent. unfold handleArrayItem. rewrite Hparent. cbn [bind].
  unfold select_target.
  destruct (negb (falsy_key arrayKey)
            && Object.lookup_truthy
                 (Object.lookup parent (default_key arrayKey))).
  { destruct (Object.lookup_is_array
                (Object.lookup parent (default_key arrayKey))) eqn:Ha;
      cbn [negb].
    - cbn [bind]. unfold push_into.
      destruct (Object.lookup parent (default_key arrayKey)) as [[s|o|a]| |];
        try discriminate.
    - unfold assign. destruct (String.eqb (default_key arrayKey) "__proto__");
        cbn [bind]; [discriminate|].
      unfold push_into, Object.lookup. rewrite get_set_same. discriminate. }
  destruct (negb (falsy_key (last_key parent))
            && null_or_empty
                 (Object.lookup parent (default_key (last_key parent)))).
  { unfold assign.
    destruct (String.eqb (default_key (last_key parent)) "__proto__");
      cbn [bind]; [discriminate|].
    unfold push_into, Object.lookup. rewrite get_set_same. discriminate. }
  unfold assign. change (String.eqb "items" "__proto__") with false.
  cbn [bind]. unfold push_into. unfold Object.lookup at 1.
  rewrite get_set_same.
  unfold items_usable, items_or_new, Object.lookup.
  destruct (Object.get parent "items") as [[sc|o|a]|]; try discriminate.
  - destruct (truthy (Prim sc)); [reflexivity | discriminate].
  - reflexivity.
Qed.

(** A key-value line never throws on a parent that exists. *)
Lemma handleKeyValue_never_throws
      (st : Store) (w : Z) (k value : string) (path : list string)
      (parent : Props) :
  parent_of st (unwind w (stack st)) = Ok (path, parent) ->
  handleKeyValue st w k value <> TypeError.
Proof.
  intros Hparent. unfold handleKeyValue. rewrite Hparent. cbn [bind].
  unfold assign.
  destruct (String.eqb value ""); destruct (String.eqb k "__proto__");
    discriminate.
Qed.

End ItemsFallback.

(** ** Round trip: the general statements *)

Section RoundTripGeneral.

(** A plain mapping in the order of [Object.keys] whose scalars are read
    back as themselves survives the round trip. *)
Lemma roundtrip_stable_leaves (ps : Props) :
  plain (Mapping ps) = true ->
  js_object (Mapping ps) = true ->
  leaves_stable (Mapping ps) = true ->
  decode (encode (Mapping ps)) = Ok (Mapping ps).
Proof.
  intros Hp Hj Hs.
  rewrite decode_encode_plain by exact Hp.
  rewrite decoded_reread by assumption.
  now rewrite reread_stable.
Qed.

(** A plain mapping in the order of [Object.keys] whose scalars print
    the same text again once read is encoded to the same text again. *)
Lemma reencode_reprinted_leaves (ps : Props) :
  plain (Mapping ps) = true ->
  js_object (Mapping ps) = true ->
  leaves_reprint (Mapping ps) = true ->
  reencode (encode (Mapping ps)) = Ok (encode (Mapping ps)).
Proof.
  intros Hp Hj Hs. unfold reencode.
  rewrite decode_encode_plain by exact Hp.
  rewrite decoded_reread by assumption.
  cbn [bind]. now rewrite encode_reread.
Qed.

Example roundtrip_of_a_decimal :
  decode (encode (Mapping [("ratio", Prim (Number (mkNum (-125) 2)))]))
  = Ok (Mapping [("ratio", Prim (Number (mkNum (-125) 2)))]).
Proof. apply roundtrip_stable_leaves; vm_compute; reflexivity. Qed.

End RoundTripGeneral.

(** C6, amended. A string value that contains a colon is printed between
    double quotes, its own double quotes escaped with a backslash.  When
    it contains neither a double quote nor a line feed, the quoted form
    is just the string between quotes and [decode] reproduces the
    string. *)
Theorem quoted_colon_string_roundtrip :
  forall (k s : string),
    key_ok k = true ->
    includes s colon = true ->
    encode (Mapping [(k, Prim (Str s))])
    = text [k ++ ": " ++ String dquote (escape_quotes s ++ String dquote "")]
    /\ (includes s dquote = false -> includes s nl = false ->
        escape_quotes s = s
        /\ decode (encode (Mapping [(k, Prim (Str s))]))
           = Ok (Mapping [(k, Prim (Str s))])).
Proof.
  intros k s Hk Hc. split.
  - unfold encode. rewrite stringify_mapping.
    unfold concat_map, text, concat_map. cbn [fold_right fst snd formatValue].
    unfold needs_quotes. rewrite Hc. cbn [orb repeat2 append].
    rewrite ?append_empty_r. cbn [append]. rewrite ?append_assoc. cbn [append].
    rewrite ?append_assoc. reflexivity.
  - intros Hq Hn. split; [now apply escape_quotes_none|].
    assert (Hnq : needs_quotes s = true) by (unfold needs_quotes; now rewrite Hc).
    destruct (needs_quotes_parts s Hq Hn Hnq) as (_ & Hl & Hr).
    apply roundtrip_stable_leaves.
    + cbn [plain forallb fst snd]. now rewrite Hk, Hl.
    + reflexivity.
    + cbn [leaves_stable forallb snd]. rewrite Hr.
      cbn [scalar_eqb]. now rewrite String.eqb_refl.
Qed.

Lemma quoted_colon_string_roundtrip_witness :
  encode (Mapping [("note", Prim (Str "a: b"))])
  = text ["note: " ++ String dquote ("a: b" ++ String dquote "")]
  /\ decode (encode (Mapping [("note", Prim (Str "a: b"))]))
     = Ok (Mapping [("note", Prim (Str "a: b"))]).
Proof.
  destruct (quoted_colon_string_roundtrip "note" "a: b" eq_refl eq_refl)
    as (He & Hd).
  split; [exact He|]. now apply Hd.
Defined.

(* ===================================================================== *)
(** * Further properties of the codec                                    *)
(* ===================================================================== *)

(** ** Quoted strings, in general *)

Section Escapes.

Lemma length_escape_quotes (s : string) :
  (String.length s <= String.length (escape_quotes s))%nat
  /\ (includes s dquote = true ->
      (String.length s < String.length (escape_quotes s))%nat).
Proof.
  induction s as [|c r [IH1 IH2]]; [split; [reflexivity | discriminate]|].
  cbn [escape_quotes includes].
  destruct (Ascii.eqb c dquote); cbn [String.length orb]; split; try lia.
  intros H. specialize (IH2 H). lia.
Qed.

End Escapes.

(** X1. A string that [formatValue] puts between quotes is read back by
    [parseValue] with the backslashes of the escaped quotes left in: the
    result is the original string exactly when the string holds no
    double quote. *)
Theorem quoted_strings_keep_their_escapes :
  forall s : string,
    needs_quotes s = true ->
    parseValue (formatValue (Str s)) = Str (escape_quotes s)
    /\ (parseValue (formatValue (Str s)) = Str s
        <-> includes s dquote = false).
Proof.
  intros s Hq.
  assert (E : parseValue (formatValue (Str s)) = Str (escape_quotes s)).
  { cbn [formatValue]. rewrite Hq. apply parseValue_quoted. }
  split; [exact E|]. rewrite E. split.
  - intros H. assert (H' : escape_quotes s = s) by congruence.
    destruct (includes s dquote) eqn:Hd; [|reflexivity].
    destruct (length_escape_quotes s) as [_ Hlt]. specialize (Hlt Hd).
    rewrite H' in Hlt. lia.
  - intros H. now rewrite (escape_quotes_none s H).
Qed.

Lemma quoted_strings_keep_their_escapes_witness :
  parseValue (formatValue (Str ("say: " ++ String dquote "hi")))
  = Str ("say: " ++ String backslash (String dquote "hi")).
Proof.
  destruct (quoted_strings_keep_their_escapes
              ("say: " ++ String dquote "hi") eq_refl) as [H _].
  exact H.
Defined.

(** ** When the decoder throws *)

Section Faults.

Lemma frames_ok_parent (st : Store) (w : Z) :
  frames_ok st ->
  exists path parent,
    parent_of st (unwind w (stack st)) = Ok (path, parent).
Proof.
  intros Hok. destruct st as [r stk]. cbn [stack].
  apply (frames_ok_unwind r stk w) in Hok.
  destruct Hok as (Hne & _ & Hall). cbn [stack result] in *.
  unfold parent_of. destruct (unwind w stk) as [|top below]; [congruence|].
  inversion Hall as [|? ? Htop _]; subst. cbn [result].
  destruct (get_at (obj top) r) as [o|]; [|congruence].
  now exists (obj top), o.
Qed.

Lemma step_without_item (s : State) (line : string) (next : option string) :
  frames_ok (store s) ->
  is_item line = false ->
  step s line next <> TypeError
  /\ (proto_line line = false -> exists s', step s line next = Ok s').
Proof.
  intros Hok Hi. unfold proto_line, ignored, malformed, is_blank, is_comment,
    is_keyvalue, line_key, is_item. unfold is_item in Hi. unfold step.
  rewrite Hi.
  destruct (is_empty (trim line)); cbn [orb negb andb].
  { split; [discriminate | now exists s]. }
  destruct (startsWith (trim line) "#"); cbn [orb negb andb].
  { split; [discriminate | now exists s]. }
  destruct (0 <? indexOf (trim line) colon); cbn [orb negb andb].
  2:{ split; [discriminate | now exists s]. }
  destruct (frames_ok_parent (store s) (getIndentLevel line) Hok)
    as (path & parent & Hp).
  unfold handleKeyValue. rewrite Hp. cbn [bind]. unfold assign.
  destruct (String.eqb (trim (substring (trim line) 0 (indexOf (trim line) colon)))
                       "__proto__");
    destruct (String.eqb (trim (substringFrom (trim line)
                                  (indexOf (trim line) colon + 1))) "");
    cbn [bind]; (split; [discriminate|]); intros H;
    try discriminate; eexists; reflexivity.
Qed.

Lemma run_without_item (lines : list string) :
  forall s,
    frames_ok (store s) ->
    forallb (fun l => negb (is_item l)) lines = true ->
    run s lines <> TypeError
    /\ (forallb (fun l => negb (proto_line l)) lines = true ->
        exists s', run s lines = Ok s').
Proof.
  induction lines as [|l rest IH]; intros s Hok Hall.
  - cbn [run]. split; [discriminate | now exists s].
  - cbn [forallb] in Hall. apply andb_true_iff in Hall as [Hl Hrest].
    apply negb_true_iff in Hl.
    destruct (step_without_item s l (hd_error rest) Hok Hl) as [Hne Hsome].
    cbn [run].
    destruct (step s l (hd_error rest)) as [s1| |] eqn:E; cbn [bind].
    + pose proof (step_frames s s1 l (hd_error rest) Hok E) as Hok1.
      destruct (IH s1 Hok1 Hrest) as [Hne1 Hsome1].
      split; [exact Hne1|]. cbn [forallb]. intros H.
      apply andb_true_iff in H as [_ H]. now apply Hsome1.
    + congruence.
    + split; [discriminate|]. cbn [forallb]. intros H.
      apply andb_true_iff in H as [H _]. apply negb_true_iff in H.
      destruct (Hsome H) as (s' & Hs'). discriminate.
Qed.

End Faults.

(** X2. A document without sequence-item lines never makes [decode]
    throw; when, in addition, no key-value line has the key [__proto__],
    [decode] returns a mapping. *)
Theorem decode_without_items_returns :
  forall doc : string,
    forallb (fun l => negb (is_item l)) (split_nl doc) = true ->
    decode doc <> TypeError
    /\ (forallb (fun l => negb (proto_line l)) (split_nl doc) = true ->
        exists props, decode doc = Ok (Mapping props)).
Proof.
  intros doc Hall. unfold decode, parse.
  destruct (run_without_item (split_nl doc) initial initial_frames Hall)
    as [Hne Hsome].
  split.
  - destruct (run initial (split_nl doc)); cbn [bind]; congruence.
  - intros H. destruct (Hsome H) as (s' & Hs'). rewrite Hs'. cbn [bind].
    now eexists.
Qed.

Lemma decode_without_items_returns_witness :
  decode ("a: 1" ++ String nl ("  b: 2" ++ String nl "junk")) <> TypeError.
Proof.
  apply (decode_without_items_returns
           ("a: 1" ++ String nl ("  b: 2" ++ String nl "junk"))).
  vm_compute. reflexivity.
Defined.

(** X3. On a parent object that exists, a sequence-item line throws in
    exactly one situation: no pending key applies, the last key of the
    parent is bound to something that is neither null nor empty (or the
    parent has no key), and ['items'] is bound to a truthy value that is
    no array, so that [push] is called on a value that has none. *)
Theorem item_line_throws_exactly_when :
  forall (st : Store) (w : Z) (value : string) (arrayKey : option string)
         (path : list string) (parent : Props),
    parent_of st (unwind w (stack st)) = Ok (path, parent) ->
    (handleArrayItem st w value arrayKey = TypeError
     <-> (negb (falsy_key arrayKey)
          && Object.lookup_truthy
               (Object.lookup parent (default_key arrayKey)) = false
          /\ negb (falsy_key (last_key parent))
             && null_or_empty
                  (Object.lookup parent (default_key (last_key parent)))
             = false
          /\ items_usable parent = false)).
Proof.
  intros st w value arrayKey path parent Hparent.
  unfold handleArrayItem. rewrite Hparent. cbn [bind].
  unfold select_target.
  destruct (negb (falsy_key arrayKey)
            && Object.lookup_truthy
                 (Object.lookup parent (default_key arrayKey))).
  { split; [|intros (H & _); discriminate].
    destruct (Object.lookup_is_array
                (Object.lookup parent (default_key arrayKey))) eqn:Ha;
      cbn [negb].
    - cbn [bind]. unfold push_into.
      destruct (Object.lookup parent (default_key arrayKey)) as [[s|o|a]| |];
        try discriminate.
    - unfold assign. destruct (String.eqb (default_key arrayKey) "__proto__");
        cbn [bind]; [discriminate|].
      unfold push_into, Object.lookup. rewrite get_set_same. discriminate. }
  destruct (negb (falsy_key (last_key parent))
            && null_or_empty
                 (Object.lookup parent (default_key (last_key parent)))).
  { split; [|intros (_ & H & _); discriminate].
    unfold assign.
    destruct (String.eqb (default_key (last_key parent)) "__proto__");
      cbn [bind]; [discriminate|].
    unfold push_into, Object.lookup. rewrite get_set_same. discriminate. }
  unfold assign. change (String.eqb "items" "__proto__") with false.
  cbn [bind]. unfold push_into. unfold Object.lookup at 1.
  rewrite get_set_same.
  unfold items_usable, items_or_new, Object.lookup.
  destruct (Object.get parent "items") as [[sc|o|a]|];
    try destruct (truthy (Prim sc)); cbn [truthy negb bind];
    (split;
     [ first [discriminate | intros _; repeat split; reflexivity]
     | first [intros (_ & _ & H); discriminate | intros _; reflexivity] ]).
Qed.

Lemma item_line_throws_exactly_when_witness :
  handleArrayItem (mkStore [("items", Prim (Number (int_num 5)))] [sentinel])
                  0 "a" None
  = TypeError.
Proof.
  apply (item_line_throws_exactly_when
           (mkStore [("items", Prim (Number (int_num 5)))] [sentinel])
           0 "a" None [] [("items", Prim (Number (int_num 5)))] eq_refl).
  vm_compute. auto.
Defined.

(** ** The stack of open keys *)

Section StackOrder.

Lemma getIndentLevel_nonneg (line : string) : 0 <= getIndentLevel line.
Proof.
  induction line as [|c r IH]; cbn [getIndentLevel]; [lia|].
  destruct (Ascii.eqb c space); [lia|].
  destruct (Ascii.eqb c tab); lia.
Qed.

Lemma stack_ordered_tail (f g : Frame) (rest : list Frame) :
  stack_ordered (f :: g :: rest) -> stack_ordered (g :: rest).
Proof. cbn [stack_ordered]. tauto. Qed.

Lemma stack_ordered_below (rest : list Frame) :
  forall f, stack_ordered (f :: rest) ->
            Forall (fun g => indent g < indent f) rest.
Proof.
  induction rest as [|g rest IH]; intros f H; [constructor|].
  destruct H as [Hlt Hrest]. constructor; [exact Hlt|].
  eapply Forall_impl; [|exact (IH g Hrest)].
  cbn beta. intros a Ha. lia.
Qed.

Lemma unwind_ordered (w : Z) (stk : list Frame) :
  stack_ordered stk -> stack_ordered (unwind w stk).
Proof.
  induction stk as [|f [|g rest] IH]; intros H; try exact H.
  rewrite unwind_cons. destruct (w <=? indent f); [|exact H].
  apply IH. exact (stack_ordered_tail f g rest H).
Qed.

Lemma unwind_top (w : Z) (stk : list Frame) :
  stack_ordered stk -> 0 <= w ->
  exists f rest, unwind w stk = f :: rest /\ indent f < w.
Proof.
  induction stk as [|f [|g rest] IH]; intros H Hw.
  - destruct H.
  - cbn [stack_ordered] in H. subst f. exists sentinel, [].
    split; [reflexivity|]. cbn [sentinel indent]. lia.
  - rewrite unwind_cons. destruct (w <=? indent f) eqn:E.
    + apply IH; [exact (stack_ordered_tail f g rest H) | exact Hw].
    + apply Z.leb_gt in E. now exists f, (g :: rest).
Qed.

Lemma handleKeyValue_ordered (st st' : Store) (w : Z) (k value : string) :
  0 <= w -> stack_ordered (stack st) ->
  handleKeyValue st w k value = Ok st' -> stack_ordered (stack st').
Proof.
  intros Hw Hord. unfold handleKeyValue.
  destruct (parent_of st (unwind w (stack st))) as [[path parent]| |];
    cbn [bind]; try discriminate.
  pose proof (unwind_ordered w (stack st) Hord) as Hu.
  destruct (unwind_top w (stack st) Hord Hw) as (f & rest & Ef & Hf).
  destruct (String.eqb value "").
  - destruct (assign k (Mapping []) parent); cbn [bind]; try discriminate.
    intros H; inversion H; subst. cbn [stack]. rewrite Ef in *.
    cbn [stack_ordered indent]. split; [exact Hf | exact Hu].
  - destruct (assign k (Prim (parseValue value)) parent); cbn [bind];
      try discriminate.
    intros H; inversion H; subst. exact Hu.
Qed.

Lemma handleArrayItem_ordered (st st' : Store) (w : Z) (value : string)
      (arrayKey : option string) :
  stack_ordered (stack st) ->
  handleArrayItem st w value arrayKey = Ok st' -> stack_ordered (stack st').
Proof.
  intros Hord. unfold handleArrayItem.
  destruct (parent_of st (unwind w (stack st))) as [[path parent]| |];
    cbn [bind]; try discriminate.
  destruct (select_target parent arrayKey) as [[parent1 target]| |];
    cbn [bind]; try discriminate.
  destruct (push_into target (Prim (parseValue value)) parent1);
    cbn [bind]; try discriminate.
  intros H; inversion H; subst. cbn [stack]. now apply unwind_ordered.
Qed.

Lemma step_ordered (s s' : State) (line : string) (next : option string) :
  stack_ordered (stack (store s)) ->
  step s line next = Ok s' -> stack_ordered (stack (store s')).
Proof.
  intros Hord. unfold step.
  destruct (is_empty (trim line) || startsWith (trim line) "#").
  { intros H; inversion H; now subst. }
  destruct (startsWith (trim line) "- ").
  { destruct (handleArrayItem _ _ _ _) as [st| |] eqn:E; cbn [bind];
      try discriminate.
    intros H; inversion H; subst. cbn [store].
    eapply handleArrayItem_ordered; eauto. }
  destruct (0 <? indexOf (trim line) colon).
  - destruct (handleKeyValue _ _ _ _) as [st| |] eqn:E; cbn [bind];
      try discriminate.
    intros H; inversion H; subst. cbn [store].
    eapply handleKeyValue_ordered; [apply getIndentLevel_nonneg| |exact E].
    exact Hord.
  - intros H; inversion H; now subst.
Qed.

Lemma run_ordered (lines : list string) :
  forall s s', stack_ordered (stack (store s)) ->
               run s lines = Ok s' -> stack_ordered (stack (store s')).
Proof.
  induction lines as [|l rest IH]; intros s s' Hord H.
  - cbn [run] in H. inversion H; now subst.
  - cbn [run] in H.
    destruct (step s l (hd_error rest)) as [s1| |] eqn:E; cbn [bind] in H;
      try discriminate.
    eapply IH; [|exact H]. eapply step_ordered; eauto.
Qed.

End StackOrder.

(** X4. In every state [parse] reaches, the indentations of the frames
    on the stack grow strictly from the root frame (indentation -1) to
    the top.  So for a line of indentation [w] the unwinding loop, shared
    by [handleKeyValue], [handleArrayItem] and [findParentAtIndent], pops
    exactly the frames of indentation [w] or more and stops at the
    nearest open key that is indented less than the line; all the frames
    below are indented less still. *)
Theorem parent_is_nearest_shallower_frame :
  forall (lines : list string) (s : State) (w : Z),
    run initial lines = Ok s ->
    0 <= w ->
    exists popped f rest,
      stack (store s) = (popped ++ f :: rest)%list
      /\ findParentAtIndent (stack (store s)) w = (f :: rest, Some f)
      /\ Forall (fun g => w <= indent g) popped
      /\ indent f < w
      /\ Forall (fun g => indent g < indent f) rest.
Proof.
  intros lines s w Hrun Hw.
  assert (Hord : stack_ordered (stack (store s))).
  { apply (run_ordered lines initial s); [reflexivity | exact Hrun]. }
  destruct (unwind_split w (stack (store s))) as (popped & Es & Hpop).
  destruct (unwind_top w (stack (store s)) Hord Hw) as (f & rest & Ef & Hf).
  pose proof (unwind_ordered w (stack (store s)) Hord) as Hu.
  exists popped, f, rest. unfold findParentAtIndent. rewrite Ef in *.
  split; [exact Es|]. split; [reflexivity|]. split; [exact Hpop|].
  split; [exact Hf|]. now apply stack_ordered_below.
Qed.

Lemma parent_is_nearest_shallower_frame_witness :
  exists popped f rest,
    [mkFrame ["a"; "b"] 2 (Some "b"); mkFrame ["a"] 0 (Some "a"); sentinel]
    = (popped ++ f :: rest)%list
    /\ findParentAtIndent
         [mkFrame ["a"; "b"] 2 (Some "b"); mkFrame ["a"] 0 (Some "a"); sentinel]
         2
       = (f :: rest, Some f)
    /\ Forall (fun g => 2 <= indent g) popped
    /\ indent f < 2
    /\ Forall (fun g => indent g < indent f) rest.
Proof.
  apply (parent_is_nearest_shallower_frame
           ["a:"; "  b:"; "    c: 1"]
           (mkState
              (mkStore
                 [("a", Mapping [("b", Mapping [("c", Prim (Number (int_num 1)))])])]
                 [mkFrame ["a"; "b"] 2 (Some "b"); mkFrame ["a"] 0 (Some "a");
                  sentinel])
              None)
           2).
  - vm_compute. reflexivity.
  - lia.
Defined.

(** ** The elements of decoded sequences *)

Section FlatSequences.

Lemma flat_cons (k : string) (v : Value) (o : Props) :
  flat ((k, v) :: o) = flat_sequences v && flat o.
Proof. reflexivity. Qed.

Lemma flat_get (o : Props) (k : string) (v : Value) :
  flat o = true -> Object.get o k = Some v -> flat_sequences v = true.
Proof.
  induction o as [|[k' v'] r IH]; cbn [Object.get]; [discriminate|].
  rewrite flat_cons. intros H. apply andb_true_iff in H as [Hv Hr].
  destruct (String.eqb k' k); [intros E; inversion E; now subst | now apply IH].
Qed.

Lemma flat_replace (o : Props) (k : string) (v : Value) :
  flat o = true -> flat_sequences v = true -> flat (Object.replace k v o) = true.
Proof.
  intros Ho Hv. induction o as [|[k' v'] r IH]; cbn [Object.replace]; [reflexivity|].
  rewrite flat_cons in Ho. apply andb_true_iff in Ho as [Hv' Hr].
  destruct (String.eqb k' k); rewrite flat_cons.
  - now rewrite Hv, Hr.
  - now rewrite Hv', IH.
Qed.

Lemma flat_insert_index (o : Props) (i : Z) (k : string) (v : Value) :
  flat o = true -> flat_sequences v = true ->
  flat (Object.insert_index i k v o) = true.
Proof.
  intros Ho Hv. induction o as [|[k' v'] r IH]; cbn [Object.insert_index].
  - rewrite flat_cons. now rewrite Hv.
  - pose proof Ho as Ho'. rewrite flat_cons in Ho'.
    apply andb_true_iff in Ho' as [Hv' Hr].
    destruct (Object.array_index k') as [j|].
    + destruct (j <? i); rewrite flat_cons.
      * now rewrite Hv', IH.
      * now rewrite Hv, Ho.
    + rewrite flat_cons. now rewrite Hv, Ho.
Qed.

Lemma flat_app (a b : Props) : flat (a ++ b)%list = flat a && flat b.
Proof. unfold flat. cbn [flat_sequences]. apply forallb_app. Qed.

Lemma flat_set (o : Props) (k : string) (v : Value) :
  flat o = true -> flat_sequences v = true -> flat (Object.set k v o) = true.
Proof.
  intros Ho Hv. unfold Object.set. destruct (Object.has o k).
  - now apply flat_replace.
  - destruct (Object.array_index k) as [i|].
    + now apply flat_insert_index.
    + rewrite flat_app, Ho, flat_cons, Hv. reflexivity.
Qed.

Lemma flat_assign (o o' : Props) (k : string) (v : Value) :
  flat o = true -> flat_sequences v = true ->
  assign k v o = Ok o' -> flat o' = true.
Proof.
  intros Ho Hv. unfold assign. destruct (String.eqb k "__proto__");
    [discriminate|].
  intros H; inversion H; subst. now apply flat_set.
Qed.

Lemma flat_modify (o : Props) (k : string) (f : Value -> Value) :
  (forall v, flat_sequences v = true -> flat_sequences (f v) = true) ->
  flat o = true -> flat (modify k f o) = true.
Proof.
  intros Hf. induction o as [|[k' v'] r IH]; cbn [modify]; [auto|].
  rewrite flat_cons. intros H. apply andb_true_iff in H as [Hv' Hr].
  destruct (String.eqb k' k); rewrite flat_cons.
  - now rewrite Hf, Hr.
  - now rewrite Hv', IH.
Qed.

Lemma flat_get_at (p : list string) :
  forall o x, flat o = true -> get_at p o = Some x -> flat x = true.
Proof.
  induction p as [|k p IH]; intros o x Ho; cbn [get_at].
  - intros H; inversion H; now subst.
  - destruct (Object.get o k) as [[s|o'|a]|] eqn:G; try discriminate.
    apply IH. exact (flat_get o k (Mapping o') Ho G).
Qed.

Lemma flat_update_at (p : list string) (x : Props) :
  flat x = true ->
  forall o, flat o = true -> flat (update_at p (fun _ => x) o) = true.
Proof.
  intros Hx. induction p as [|k p IH]; intros o Ho; [exact Hx|].
  rewrite update_at_as_modify. apply flat_modify; [|exact Ho].
  intros [s|o'|a] Hv; cbn [in_mapping]; try exact Hv. now apply IH.
Qed.

Lemma flat_items_or_new (parent : Props) :
  flat parent = true -> flat_sequences (items_or_new parent) = true.
Proof.
  intros Hp. unfold items_or_new, Object.lookup.
  destruct (Object.get parent "items") as [v|] eqn:G.
  - destruct (truthy v); [|reflexivity]. exact (flat_get parent "items" v Hp G).
  - destruct (Object.inherited "items"); reflexivity.
Qed.

Lemma flat_select_target (parent parent1 : Props) (arrayKey : option string)
      (target : string) :
  flat parent = true ->
  select_target parent arrayKey = Ok (parent1, target) ->
  flat parent1 = true.
Proof.
  intros Hp. unfold select_target.
  destruct (negb (falsy_key arrayKey)
            && Object.lookup_truthy
                 (Object.lookup parent (default_key arrayKey))).
  { destruct (negb (Object.lookup_is_array
                      (Object.lookup parent (default_key arrayKey)))).
    - destruct (assign (default_key arrayKey) (Sequence []) parent) as [o| |] eqn:E;
        cbn [bind]; try discriminate.
      intros H; inversion H; subst.
      exact (flat_assign parent parent1 _ (Sequence []) Hp eq_refl E).
    - intros H; inversion H; now subst. }
  destruct (negb (falsy_key (last_key parent))
            && null_or_empty
                 (Object.lookup parent (default_key (last_key parent)))).
  - destruct (assign (default_key (last_key parent)) (Sequence []) parent)
      as [o| |] eqn:E; cbn [bind]; try discriminate.
    intros H; inversion H; subst.
    exact (flat_assign parent parent1 _ (Sequence []) Hp eq_refl E).
  - destruct (assign "items" (items_or_new parent) parent) as [o| |] eqn:E;
      cbn [bind]; try discriminate.
    intros H; inversion H; subst.
    exact (flat_assign parent parent1 _ _ Hp (flat_items_or_new parent Hp) E).
Qed.

Lemma flat_push_into (parent parent' : Props) (k : string) (sc : Scalar) :
  flat parent = true ->
  push_into k (Prim sc) parent = Ok parent' -> flat parent' = true.
Proof.
  intros Hp. unfold push_into, Object.lookup.
  destruct (Object.get parent k) as [[s|o|a]|] eqn:G; try discriminate.
  - intros H; inversion H; subst. apply flat_replace; [exact Hp|].
    pose proof (flat_get parent k (Sequence a) Hp G) as Ha.
    cbn [flat_sequences] in *. rewrite forallb_app, Ha. reflexivity.
  - destruct (Object.inherited k); discriminate.
Qed.

Lemma handleArrayItem_flat (st st' : Store) (w : Z) (value : string)
      (arrayKey : option string) :
  flat (result st) = true ->
  handleArrayItem st w value arrayKey = Ok st' -> flat (result st') = true.
Proof.
  intros Hr. unfold handleArrayItem.
  destruct (parent_of st (unwind w (stack st))) as [[path parent]| |] eqn:Hp;
    cbn [bind]; try discriminate.
  apply parent_of_inv in Hp as (top & below & _ & _ & G).
  pose proof (flat_get_at path (result st) parent Hr G) as Hparent.
  destruct (select_target parent arrayKey) as [[parent1 target]| |] eqn:Hs;
    cbn [bind]; try discriminate.
  pose proof (flat_select_target parent parent1 arrayKey target Hparent Hs) as H1.
  destruct (push_into target (Prim (parseValue value)) parent1) as [parent2| |]
    eqn:Hpush; cbn [bind]; try discriminate.
  intros H; inversion H; subst. cbn [result].
  apply flat_update_at; [|exact Hr].
  exact (flat_push_into parent1 parent2 target _ H1 Hpush).
Qed.

Lemma handleKeyValue_flat (st st' : Store) (w : Z) (k value : string) :
  flat (result st) = true ->
  handleKeyValue st w k value = Ok st' -> flat (result st') = true.
Proof.
  intros Hr. unfold handleKeyValue.
  destruct (parent_of st (unwind w (stack st))) as [[path parent]| |] eqn:Hp;
    cbn [bind]; try discriminate.
  apply parent_of_inv in Hp as (top & below & _ & _ & G).
  pose proof (flat_get_at path (result st) parent Hr G) as Hparent.
  destruct (String.eqb value "").
  - destruct (assign k (Mapping []) parent) as [o| |] eqn:E; cbn [bind];
      try discriminate.
    intros H; inversion H; subst. cbn [result].
    apply flat_update_at; [|exact Hr].
    exact (flat_assign parent o k (Mapping []) Hparent eq_refl E).
  - destruct (assign k (Prim (parseValue value)) parent) as [o| |] eqn:E;
      cbn [bind]; try discriminate.
    intros H; inversion H; subst. cbn [result].
    apply flat_update_at; [|exact Hr].
    exact (flat_assign parent o k (Prim (parseValue value)) Hparent eq_refl E).
Qed.

Lemma step_flat (s s' : State) (line : string) (next : option string) :
  flat (result (store s)) = true ->
  step s line next = Ok s' -> flat (result (store s')) = true.
Proof.
  intros Hr. unfold step.
  destruct (is_empty (trim line) || startsWith (trim line) "#").
  { intros H; inversion H; now subst. }
  destruct (startsWith (trim line) "- ").
  { destruct (handleArrayItem _ _ _ _) as [st| |] eqn:E; cbn [bind];
      try discriminate.
    intros H; inversion H; subst. cbn [store].
    eapply handleArrayItem_flat; eauto. }
  destruct (0 <? indexOf (trim line) colon).
  - destruct (handleKeyValue _ _ _ _) as [st| |] eqn:E; cbn [bind];
      try discriminate.
    intros H; inversion H; subst. cbn [store].
    eapply handleKeyValue_flat; eauto.
  - intros H; inversion H; now subst.
Qed.

Lemma run_flat (lines : list string) :
  forall s s', flat (result (store s)) = true ->
               run s lines = Ok s' -> flat (result (store s')) = true.
Proof.
  induction lines as [|l rest IH]; intros s s' Hr H.
  - cbn [run] in H. inversion H; now subst.
  - cbn [run] in H.
    destruct (step s l (hd_error rest)) as [s1| |] eqn:E; cbn [bind] in H;
      try discriminate.
    eapply IH; [|exact H]. eapply step_flat; eauto.
Qed.

End FlatSequences.

(** X5. Whatever the document, every element of every array in the
    value [decode] returns is a scalar: [parse] builds no array of
    objects and no array of arrays. *)
Theorem decoded_sequences_hold_scalars :
  forall (doc : string) (v : Value),
    decode doc = Ok v -> flat_sequences v = true.
Proof.
  intros doc v. unfold decode, parse.
  destruct (run initial (split_nl doc)) as [s| |] eqn:E; cbn [bind];
    try discriminate.
  intros H; inversion H; subst.
  exact (run_flat (split_nl doc) initial s eq_refl E).
Qed.

Lemma decoded_sequences_hold_scalars_witness :
  flat_sequences
    (Mapping [("tables", Mapping [("items", Sequence [Prim (Str "name: users")]);
                                  ("cols", Prim (Number (int_num 2)))])])
  = true.
Proof.
  apply (decoded_sequences_hold_scalars
           ("tables:" ++ String nl ("  - name: users" ++ String nl "    cols: 2"))).
  vm_compute. reflexivity.
Defined.

(** ** Comments and blank lines *)

Section Ignored.

Lemma step_ignored (s : State) (line : string) (next : option string) :
  ignored line = true -> step s line next = Ok s.
Proof.
  unfold ignored, is_blank, is_comment. intros H.
  destruct (malformed line) eqn:Hm; [now apply step_malformed|].
  rewrite orb_false_r in H. unfold step. now rewrite H.
Qed.

Lemma ignored_not_item (l : string) : ignored l = true -> is_item l = false.
Proof.
  unfold ignored, is_blank, is_comment, is_item. intros H.
  destruct (malformed l) eqn:Hm; [now apply malformed_not_item|].
  rewrite orb_false_r in H.
  destruct (trim l) as [|c r]; [reflexivity|].
  cbn [is_empty orb] in H. rewrite startsWith_cons in H.
  rewrite startsWith_cons.
  destruct (Ascii.eqb "#" c) eqn:E; [|now rewrite andb_false_l in H].
  apply Ascii.eqb_eq in E. subst c. reflexivity.
Qed.

Lemma no_item_after_ignored_tl (l : string) (rest : list string) :
  no_item_after_ignored (l :: rest) = true ->
  no_item_after_ignored rest = true.
Proof.
  destruct rest as [|l' r]; [reflexivity|].
  cbn [no_item_after_ignored]. intros H.
  apply andb_true_iff in H as [_ H]. exact H.
Qed.

Lemma next_is_item_strip (rest : list string) :
  no_item_after_ignored rest = true ->
  next_is_item (hd_error (filter (fun l => negb (ignored l)) rest))
  = next_is_item (hd_error rest).
Proof.
  induction rest as [|m r IH]; intros H; [reflexivity|].
  cbn [filter]. destruct (ignored m) eqn:Hm; cbn [negb].
  - rewrite IH by (eapply no_item_after_ignored_tl; eauto).
    cbn [hd_error].
    change (next_is_item (Some m)) with (is_item m).
    rewrite (ignored_not_item m Hm).
    destruct r as [|l' r']; [reflexivity|].
    cbn [no_item_after_ignored] in H. rewrite Hm in H.
    apply andb_true_iff in H as [H _].
    cbn [hd_error]. change (next_is_item (Some l')) with (is_item l').
    now destruct (is_item l').
  - reflexivity.
Qed.

Lemma run_strip (ls : list string) :
  forall s, no_item_after_ignored ls = true ->
            run s (filter (fun l => negb (ignored l)) ls) = run s ls.
Proof.
  induction ls as [|l rest IH]; intros s H; [reflexivity|].
  pose proof (no_item_after_ignored_tl _ _ H) as Hrest.
  cbn [filter]. destruct (ignored l) eqn:Hl; cbn [negb].
  - cbn [run]. rewrite (step_ignored s l _ Hl). cbn [bind]. now apply IH.
  - cbn [run].
    rewrite (step_ext s l l _ (hd_error rest)
               eq_refl eq_refl (next_is_item_strip rest Hrest)).
    destruct (step s l (hd_error rest)); cbn [bind]; auto.
Qed.

End Ignored.

(** X6. Blank lines, comment lines and malformed lines leave no trace:
    the document without them decodes to the same outcome, provided none
    of them stands directly before a sequence-item line (where it hides
    the item from the lookahead of the key line above it). *)
Theorem comments_and_blank_lines_are_inert :
  forall doc : string,
    no_item_after_ignored (split_nl doc) = true ->
    decode (strip_ignored doc) = decode doc.
Proof.
  intros doc H. unfold decode, parse, strip_ignored.
  rewrite run_split_join.
  - now rewrite run_strip.
  - apply Forall_forall. intros l Hin. apply filter_In in Hin as [Hin _].
    pose proof (split_nl_no_nl doc) as Hall.
    rewrite Forall_forall in Hall. now apply Hall.
Qed.

Lemma comments_and_blank_lines_are_inert_witness :
  decode (text ["# settings"; "db:"; ""; "  host: h"; "   # note"; "  port: 1"])
  = decode (text ["db:"; "  host: h"; "  port: 1"]).
Proof.
  rewrite <- (comments_and_blank_lines_are_inert
                (text ["# settings"; "db:"; ""; "  host: h"; "   # note";
                       "  port: 1"]));
    vm_compute; reflexivity.
Defined.

(** ** Line endings *)

Section LineEndings.

Lemma split_to_crlf (s : string) : split_nl (to_crlf s) = add_cr (split_nl s).
Proof.
  induction s as [|c r IH]; [reflexivity|].
  pose proof (split_nl_nonempty r) as Hne.
  cbn [to_crlf split_nl]. destruct (Ascii.eqb c nl) eqn:E.
  - change (split_nl (String cr (String nl (to_crlf r))))
      with (String cr "" :: split_nl (to_crlf r)).
    rewrite IH. destruct (split_nl r) as [|l ls]; [congruence|]. reflexivity.
  - cbn [split_nl]. rewrite E, IH.
    destruct (split_nl r) as [|l ls]; [congruence|].
    cbn [add_cr]. destruct ls; reflexivity.
Qed.

Lemma trimEnd_app_cr (x : string) : trimEnd (x ++ String cr "") = trimEnd x.
Proof.
  induction x as [|c r IH]; [reflexivity|].
  cbn [append trimEnd]. now rewrite IH.
Qed.

Lemma trim_app_cr (l : string) : trim (l ++ String cr "") = trim l.
Proof.
  unfold trim. induction l as [|c r IH]; [reflexivity|].
  cbn [append trimStart]. destruct (is_white c); [exact IH|].
  exact (trimEnd_app_cr (String c r)).
Qed.

Lemma getIndentLevel_app_cr (l : string) :
  getIndentLevel (l ++ String cr "") = getIndentLevel l.
Proof.
  induction l as [|c r IH]; [reflexivity|].
  cbn [append getIndentLevel]. now rewrite IH.
Qed.

Lemma next_is_item_add_cr (ls : list string) :
  next_is_item (hd_error (add_cr ls)) = next_is_item (hd_error ls).
Proof.
  destruct ls as [|l [|l' r]]; try reflexivity.
  cbn [add_cr hd_error next_is_item]. now rewrite trim_app_cr.
Qed.

Lemma run_add_cr (ls : list string) :
  forall s, run s (add_cr ls) = run s ls.
Proof.
  induction ls as [|l rest IH]; intros s; [reflexivity|].
  destruct rest as [|l' r]; [reflexivity|].
  change (add_cr (l :: l' :: r))
    with ((l ++ String cr "") :: add_cr (l' :: r)).
  cbn [run].
  rewrite (step_ext s (l ++ String cr "") l
             (hd_error (add_cr (l' :: r))) (hd_error (l' :: r))
             (getIndentLevel_app_cr l) (trim_app_cr l)
             (next_is_item_add_cr (l' :: r))).
  destruct (step s l (hd_error (l' :: r))); cbn [bind]; auto.
Qed.

End LineEndings.

(** X7. Line endings do not matter: a document whose lines end in
    carriage return and line feed decodes to the same outcome as the
    document with line feeds alone, because the carriage return that
    [split] leaves at the end of a line is removed by [trim] and never
    counts as indentation. *)
Theorem crlf_line_endings_decode_alike :
  forall doc : string, decode (to_crlf doc) = decode doc.
Proof.
  intros doc. unfold decode, parse.
  now rewrite split_to_crlf, run_add_cr.
Qed.

(** ** The unit of indentation *)

Section Widening.

Lemma getIndentLevel_widen (l : string) :
  getIndentLevel (widen_line l) = 2 * getIndentLevel l.
Proof.
  induction l as [|c r IH]; [reflexivity|].
  cbn [widen_line getIndentLevel].
  destruct (Ascii.eqb c space) eqn:Es.
  - cbn [orb getIndentLevel]. rewrite Es, IH. lia.
  - destruct (Ascii.eqb c tab) eqn:Et.
    + cbn [orb getIndentLevel]. rewrite Es, Et, IH. lia.
    + cbn [orb getIndentLevel]. rewrite Es, Et. lia.
Qed.

Lemma trimStart_widen (l : string) : trimStart (widen_line l) = trimStart l.
Proof.
  induction l as [|c r IH]; [reflexivity|].
  cbn [widen_line].
  destruct (Ascii.eqb c space) eqn:Es.
  - apply Ascii.eqb_eq in Es. subst c. exact IH.
  - destruct (Ascii.eqb c tab) eqn:Et; [|reflexivity].
    apply Ascii.eqb_eq in Et. subst c. exact IH.
Qed.

Lemma trim_widen (l : string) : trim (widen_line l) = trim l.
Proof. unfold trim. now rewrite trimStart_widen. Qed.

Lemma no_nl_widen (l : string) : no_nl l -> no_nl (widen_line l).
Proof.
  unfold no_nl. induction l as [|c r IH]; [auto|].
  cbn [widen_line includes]. intros H.
  apply orb_false_iff in H as [Hc Hr].
  destruct (Ascii.eqb c space || Ascii.eqb c tab).
  - cbn [includes]. now rewrite Hc, (IH Hr).
  - cbn [includes]. now rewrite Hc, Hr.
Qed.

Lemma widen_compare (w i : Z) :
  0 <= w ->
  (2 * w <=? (if i <? 0 then i else 2 * i)) = (w <=? i).
Proof.
  intros Hw. destruct (i <? 0) eqn:E.
  - apply Z.ltb_lt in E.
    transitivity false; [apply Z.leb_gt; lia | symmetry; apply Z.leb_gt; lia].
  - apply Z.ltb_ge in E.
    destruct (w <=? i) eqn:E'.
    + apply Z.leb_le in E'. apply Z.leb_le. lia.
    + apply Z.leb_gt in E'. apply Z.leb_gt. lia.
Qed.

Lemma unwind_widen (w : Z) (stk : list Frame) :
  0 <= w ->
  unwind (2 * w) (map widen_frame stk) = map widen_frame (unwind w stk).
Proof.
  intros Hw. induction stk as [|f [|g rest] IH]; try reflexivity.
  change (map widen_frame (f :: g :: rest))
    with (widen_frame f :: widen_frame g :: map widen_frame rest).
  rewrite !unwind_cons. cbn [widen_frame indent].
  rewrite (widen_compare w (indent f) Hw).
  destruct (w <=? indent f); [exact IH | reflexivity].
Qed.

Lemma parent_of_widen (st : Store) (stk : list Frame) :
  parent_of (widen_store st) (map widen_frame stk) = parent_of st stk.
Proof. destruct stk as [|f rest]; reflexivity. Qed.

Lemma handleKeyValue_widen (st : Store) (w : Z) (k value : string) :
  0 <= w ->
  handleKeyValue (widen_store st) (2 * w) k value
  = (st' <- handleKeyValue st w k value ;; Ok (widen_store st')).
Proof.
  intros Hw. unfold handleKeyValue.
  change (stack (widen_store st)) with (map widen_frame (stack st)).
  rewrite (unwind_widen w (stack st) Hw), parent_of_widen.
  destruct (parent_of st (unwind w (stack st))) as [[path parent]| |];
    cbn [bind]; try reflexivity.
  destruct (String.eqb value "").
  - destruct (assign k (Mapping []) parent); cbn [bind]; try reflexivity.
    assert (E : widen_frame (mkFrame (path ++ [k]) w (Some k))
                = mkFrame (path ++ [k]) (2 * w) (Some k)).
    { unfold widen_frame. cbn [obj indent key].
      replace (w <? 0) with false by (symmetry; apply Z.ltb_ge; lia).
      reflexivity. }
    unfold widen_store. cbn [result stack map]. now rewrite E.
  - destruct (assign k (Prim (parseValue value)) parent); cbn [bind];
      reflexivity.
Qed.

Lemma handleArrayItem_widen (st : Store) (w : Z) (value : string)
      (arrayKey : option string) :
  0 <= w ->
  handleArrayItem (widen_store st) (2 * w) value arrayKey
  = (st' <- handleArrayItem st w value arrayKey ;; Ok (widen_store st')).
Proof.
  intros Hw. unfold handleArrayItem.
  change (stack (widen_store st)) with (map widen_frame (stack st)).
  rewrite (unwind_widen w (stack st) Hw), parent_of_widen.
  destruct (parent_of st (unwind w (stack st))) as [[path parent]| |];
    cbn [bind]; try reflexivity.
  destruct (select_target parent arrayKey) as [[parent1 target]| |];
    cbn [bind]; try reflexivity.
  destruct (push_into target (Prim (parseValue value)) parent1);
    cbn [bind]; reflexivity.
Qed.

Lemma step_widen (s : State) (l : string) (n n' : option string) :
  next_is_item n' = next_is_item n ->
  step (widen_state s) (widen_line l) n'
  = (s' <- step s l n ;; Ok (widen_state s')).
Proof.
  intros Hn. unfold step.
  rewrite trim_widen, getIndentLevel_widen, Hn.
  pose proof (getIndentLevel_nonneg l) as Hw.
  destruct (is_empty (trim l) || startsWith (trim l) "#"); [reflexivity|].
  destruct (startsWith (trim l) "- ").
  - cbn [widen_state store currentArrayKey].
    rewrite (handleArrayItem_widen _ _ _ _ Hw).
    destruct (handleArrayItem _ _ _ _); reflexivity.
  - destruct (0 <? indexOf (trim l) colon); [|reflexivity].
    cbn [widen_state store currentArrayKey].
    rewrite (handleKeyValue_widen _ _ _ _ Hw).
    destruct (handleKeyValue _ _ _ _); reflexivity.
Qed.

Lemma run_widen (ls : list string) :
  forall s,
    run (widen_state s) (map widen_line ls)
    = (s' <- run s ls ;; Ok (widen_state s')).
Proof.
  induction ls as [|l rest IH]; intros s; [reflexivity|].
  cbn [map run].
  rewrite (step_widen s l (hd_error rest) (hd_error (map widen_line rest))).
  - destruct (step s l (hd_error rest)) as [s1| |]; cbn [bind];
      [apply IH | reflexivity | reflexivity].
  - destruct rest as [|m r]; [reflexivity|].
    cbn [map hd_error next_is_item]. now rewrite trim_widen.
Qed.

End Widening.

(** X8. Only the order of the indentations counts, not their amount:
    the document in which every space and every tab of the indentation
    of every line is written twice (four spaces where there were two)
    is parsed to the same outcome as the document. *)
Theorem doubling_the_indentation_changes_nothing :
  forall doc : string, decode (widen doc) = decode doc.
Proof.
  intros doc. unfold decode, parse, widen.
  rewrite run_split_join.
  - change initial with (widen_state initial) at 1.
    rewrite run_widen.
    destruct (run initial (split_nl doc)); reflexivity.
  - apply Forall_forall. intros l Hin. apply in_map_iff in Hin as (l0 & <- & Hin).
    apply no_nl_widen.
    pose proof (split_nl_no_nl doc) as Hall.
    rewrite Forall_forall in Hall. now apply Hall.
Qed.

Section QuotedValues.

Lemma not_a_number_after_quote (r : string) :
  Numeral.is_int_literal (String "'" r) = false
  /\ Numeral.is_float_literal (String "'" r) = false.
Proof.
  split; [reflexivity|].
  unfold Numeral.is_float_literal. cbn [Numeral.strip_sign snd].
  change (Ascii.eqb "'" dash) with false. cbv iota. cbn [snd].
  cbn [Numeral.split_dot]. change (Ascii.eqb "'" dot) with false. cbv iota.
  destruct (Numeral.split_dot r) as [[a b]|]; reflexivity.
Qed.

Lemma parseValue_single_quoted (s : string) :
  parseValue (String "'" (s ++ "'")) = Str s.
Proof.
  unfold parseValue.
  destruct (not_a_number_after_quote (s ++ "'")) as [Hi Hf].
  rewrite Hi, Hf.
  change (String.eqb (String "'" (s ++ "'")) "true") with false.
  change (String.eqb (String "'" (s ++ "'")) "false") with false.
  change (String.eqb (String "'" (s ++ "'")) "null") with false.
  change (String.eqb (String "'" (s ++ "'")) "~") with false.
  change (String.eqb (String "'" (s ++ "'")) "") with false.
  cbn [orb].
  rewrite !startsWith_cons. change (Ascii.eqb dquote "'") with false.
  change (Ascii.eqb "'" "'") with true.
  change (startsWith (s ++ "'") "") with true.
  cbn [andb orb].
  change (String "'" (s ++ "'")) with (String "'" s ++ "'") at 1.
  rewrite endsWith_app. cbv iota.
  unfold slice_1_m1. cbn [drop]. now rewrite dropLast_app.
Qed.

End QuotedValues.

(** X9. Quotes force a string: a text between two double quotes or two
    single quotes is read by [parseValue] as the string between the
    quotes, as it stands, also when that string would be read as a
    number, a boolean or null without the quotes; no escape is undone. *)
Theorem quotes_force_a_string :
  forall s : string,
    parseValue (String dquote (s ++ String dquote "")) = Str s
    /\ parseValue (String "'" (s ++ "'")) = Str s.
Proof.
  intros s. split.
  - apply parseValue_quoted.
  - apply parseValue_single_quoted.
Qed.

(** ** Lists of scalars *)

Section ItemLines.

Lemma repeat2_shift (d : nat) (x : string) :
  repeat2 d ++ String space (String space x) = repeat2 (S d) ++ x.
Proof.
  induction d as [|d IH]; [reflexivity|].
  change (repeat2 (S d) ++ String space (String space x))
    with (String space (String space (repeat2 d ++ String space (String space x)))).
  rewrite IH. reflexivity.
Qed.

Lemma payload_ok_parts (t : string) :
  payload_ok t = true ->
  is_empty t = false /\ trim t = t /\ includes t nl = false.
Proof.
  unfold payload_ok. intros H.
  repeat rewrite andb_true_iff in H. repeat rewrite negb_true_iff in H.
  destruct H as ((H1 & H2) & H3). apply String.eqb_eq in H2. now repeat split.
Qed.

Lemma trim_item_line (d : nat) (t : string) :
  payload_ok t = true -> trim (repeat2 d ++ "- " ++ t) = "- " ++ t.
Proof.
  intros H. destruct (payload_ok_parts t H) as (Hne & Htrim & _).
  destruct (trim_fixed t Htrim) as (_ & Hte).
  unfold trim. rewrite trimStart_repeat2.
  change ("- " ++ t) with (String "-" (String " " t)) at 1.
  rewrite trimStart_head by reflexivity.
  change (String "-" (String " " t)) with ("- " ++ t).
  rewrite trimEnd_app; rewrite Hte; [reflexivity | exact Hne].
Qed.

Lemma indent_item_line (d : nat) (t : string) :
  getIndentLevel (repeat2 d ++ "- " ++ t) = 2 * Z.of_nat d.
Proof.
  rewrite getIndentLevel_repeat2.
  change ("- " ++ t) with (String "-" (String " " t)).
  rewrite getIndentLevel_head by reflexivity. lia.
Qed.

(** What the loop body does with an item line. *)
Lemma step_item_line (s : State) (d : nat) (t : string) (next : option string) :
  payload_ok t = true ->
  step s (repeat2 d ++ "- " ++ t) next
  = (st <- handleArrayItem (store s) (2 * Z.of_nat d) t (currentArrayKey s) ;;
     Ok (mkState st (currentArrayKey s))).
Proof.
  intros H. destruct (payload_ok_parts t H) as (_ & Htrim & _).
  unfold step. rewrite trim_item_line, indent_item_line by exact H.
  change (is_empty ("- " ++ t)) with false.
  change (startsWith ("- " ++ t) "#") with false.
  change (startsWith ("- " ++ t) "- ") with true.
  cbn [orb].
  change (substringFrom ("- " ++ t) 2) with t.
  now rewrite Htrim.
Qed.

Lemma item_line_is_item (d : nat) (t : string) :
  payload_ok t = true ->
  next_is_item (Some (repeat2 d ++ "- " ++ t)) = true.
Proof.
  intros H. unfold next_is_item. now rewrite trim_item_line.
Qed.

End ItemLines.

Section ItemRuns.

Lemma items_obj_snoc (a : list Value) (v : Value) :
  items_obj (a ++ [v]) = [("items", Sequence (a ++ [v]))].
Proof. destruct a; reflexivity. Qed.

(** An item line under an object that holds nothing, or only the items
    read so far, appends to ['items']. *)
Lemma item_appends_to_items
      (st : Store) (w : Z) (value : string) (arrayKey : option string)
      (path : list string) (a : list Value) :
  parent_of st (unwind w (stack st)) = Ok (path, items_obj a) ->
  pending_ok arrayKey = true ->
  handleArrayItem st w value arrayKey
  = Ok (mkStore
          (update_at path
             (fun _ => items_obj (a ++ [Prim (parseValue value)])) (result st))
          (unwind w (stack st))).
Proof.
  intros Hparent Hpend. rewrite items_obj_snoc.
  destruct a as [|x a].
  - rewrite (items_fallback_appends st w value arrayKey path [] Hparent);
      try reflexivity.
    destruct arrayKey as [k|]; [|reflexivity].
    cbn [pending_ok] in Hpend. apply negb_true_iff in Hpend.
    unfold Object.lookup. cbn [Object.get default_key]. rewrite Hpend.
    apply andb_false_r.
  - destruct arrayKey as [k|].
    + destruct (String.eqb "items" k) eqn:E.
      * apply String.eqb_eq in E. subst k.
        rewrite (handleArrayItem_pending st w value "items" path
                   (items_obj (x :: a)));
          [reflexivity | discriminate | discriminate | exact Hparent
          | reflexivity].
      * rewrite (items_fallback_appends st w value (Some k) path
                   (items_obj (x :: a)) Hparent); try reflexivity.
        cbn [pending_ok] in Hpend. apply negb_true_iff in Hpend.
        unfold Object.lookup. cbn [Object.get default_key items_obj].
        rewrite E, Hpend. apply andb_false_r.
    + rewrite (items_fallback_appends st w value None path
                 (items_obj (x :: a)) Hparent); reflexivity.
Qed.

Lemma item_line_payload (d : nat) (v : Value) :
  scalar_item v = true ->
  exists sc, v = Prim sc /\ payload_ok (formatValue sc) = true
             /\ item_line d v = repeat2 d ++ "- " ++ formatValue sc.
Proof.
  destruct v as [sc|ps|a]; try discriminate.
  intros H. exists sc. now repeat split.
Qed.

(** The item lines of a list, read under an object that holds nothing or
    only the items read so far, append the scalars they carry. *)
Lemma run_item_lines (items : list Value) :
  forall (s : State) (d : nat) (rest : list string) (path : list string)
         (a : list Value),
    forallb scalar_item items = true ->
    pending_ok (currentArrayKey s) = true ->
    parent_of (store s) (unwind (2 * Z.of_nat d) (stack (store s)))
    = Ok (path, items_obj a) ->
    exists s',
      run s (map (item_line d) items ++ rest) = run s' rest
      /\ lands s s' (2 * Z.of_nat d) path
           (items_obj (a ++ map reread_value items)).
Proof.
  induction items as [|v items IH]; intros s d rest path a Hall Hpend Hparent.
  - exists s. split; [reflexivity|]. cbn [map]. rewrite List.app_nil_r.
    now apply lands_refl.
  - cbn [forallb] in Hall. apply andb_true_iff in Hall as [Hv Hitems].
    destruct (item_line_payload d v Hv) as (sc & Ev & Hpay & Eline). subst v.
    cbn [map List.app run]. rewrite Eline, (step_item_line s d _ _ Hpay).
    rewrite (item_appends_to_items _ _ _ _ _ _ Hparent Hpend). cbn [bind].
    set (s1 := mkState _ _).
    assert (Hl1 : lands s s1 (2 * Z.of_nat d) path
                    (items_obj (a ++ [Prim (reread sc)]))).
    { subst s1. split; [reflexivity|]. split; [|reflexivity].
      exists []. split; [reflexivity | constructor]. }
    pose proof (lands_parent s s1 _ path _ _ Hparent Hl1) as Hparent1.
    destruct (IH s1 d rest path (a ++ [Prim (reread sc)])%list Hitems Hpend
                Hparent1) as (s2 & Hrun & Hl2).
    exists s2. split; [exact Hrun|].
    cbn [map reread_value].
    change (Prim (reread sc) :: map reread_value items)
      with ([Prim (reread sc)] ++ map reread_value items)%list.
    rewrite List.app_assoc.
    exact (lands_trans s s1 s2 _ path _ _ _ Hparent Hl1 Hl2).
Qed.

End ItemRuns.

Section DecodeLists.

Lemma settles_of_lands (s s' : State) (w : Z) (path : list string) (o : Props) :
  lands s s' w path o -> settles s s' w path o.
Proof. intros (Hr & Hs & _). now split. Qed.

Lemma settles_refl (s : State) (w : Z) (path : list string) (o : Props) :
  parent_of (store s) (unwind w (stack (store s))) = Ok (path, o) ->
  settles s s w path o.
Proof. intros H. apply settles_of_lands. now apply lands_refl. Qed.

Lemma settles_parent (s s' : State) (w : Z) (path : list string) (o o' : Props) :
  parent_of (store s) (unwind w (stack (store s))) = Ok (path, o) ->
  settles s s' w path o' ->
  parent_of (store s') (unwind w (stack (store s'))) = Ok (path, o').
Proof.
  intros H (Hr & (extra & Hs & Hall)).
  apply parent_of_inv in H as (top & below & Hu & Hp & G).
  rewrite Hs, unwind_extra, unwind_idem, Hu; [| now rewrite Hu | exact Hall].
  unfold parent_of. rewrite Hp, Hr.
  now rewrite (get_at_update_at path (fun _ => o') _ _ G).
Qed.

Lemma settles_trans (s s1 s2 : State) (w : Z) (path : list string)
      (o o1 o2 : Props) :
  parent_of (store s) (unwind w (stack (store s))) = Ok (path, o) ->
  settles s s1 w path o1 -> settles s1 s2 w path o2 -> settles s s2 w path o2.
Proof.
  intros H (Hr1 & (e1 & Hs1 & Ha1)) (Hr2 & (e2 & Hs2 & Ha2)).
  apply parent_of_inv in H as (top & below & Hu & _ & _).
  split.
  - rewrite Hr2, Hr1. apply update_at_update_at.
  - exists e2. split; [|exact Ha2].
    rewrite Hs2, Hs1, unwind_extra, unwind_idem;
      [reflexivity | now rewrite Hu | exact Ha1].
Qed.

Lemma listed_entry (k : string) (v : Value) (ps : Props) :
  listed (Mapping ((k, v) :: ps)) = true ->
  key_ok k = true /\ list_key_ok k v = true /\ listed v = true
  /\ listed (Mapping ps) = true.
Proof.
  cbn [listed forallb fst snd]. intros H.
  repeat rewrite andb_true_iff in H. tauto.
Qed.

Lemma block_lines_head (d : nat) (k : string) (v : Value) :
  exists b ls, block_lines d k v = (repeat2 d ++ k ++ String colon b) :: ls.
Proof.
  destruct v as [sc|ps|a].
  - exists (String space (formatValue sc)), []. reflexivity.
  - exists "", (blocks_lines (S d) ps). reflexivity.
  - exists "", (map (item_line (S d)) a). reflexivity.
Qed.

Lemma blocks_lines_cons (d : nat) (k : string) (v : Value) (ps : Props) :
  blocks_lines d ((k, v) :: ps) = (block_lines d k v ++ blocks_lines d ps)%list.
Proof. reflexivity. Qed.

Lemma blocks_lines_head (d : nat) (ps : Props) (rest : list string) :
  listed (Mapping ps) = true ->
  next_is_item (hd_error rest) = false ->
  next_is_item (hd_error (blocks_lines d ps ++ rest)) = false.
Proof.
  intros Hp Hrest. destruct ps as [|[k v] ps]; [exact Hrest|].
  apply listed_entry in Hp as (Hk & _).
  destruct (block_lines_head d k v) as (b & ls & E).
  rewrite blocks_lines_cons, E. cbn [List.app hd_error].
  now apply key_line_next_not_item.
Qed.

(** The frame a key line pushes is the parent of the lines one level
    deeper, and it refers to the empty object just created. *)
Lemma opened_parent (s : State) (d : nat) (k : string) (path : list string)
      (o : Props) (pending : option string) :
  parent_of (store s) (unwind (2 * Z.of_nat d) (stack (store s))) = Ok (path, o) ->
  parent_of
    (mkStore (update_at path (fun _ => Object.set k (Mapping []) o)
                        (result (store s)))
             (mkFrame (path ++ [k]) (2 * Z.of_nat d) (Some k)
                :: unwind (2 * Z.of_nat d) (stack (store s))))
    (unwind (2 * Z.of_nat (S d))
       (mkFrame (path ++ [k]) (2 * Z.of_nat d) (Some k)
          :: unwind (2 * Z.of_nat d) (stack (store s))))
  = Ok ((path ++ [k])%list, []).
Proof.
  intros Hparent.
  pose proof (parent_of_inv _ _ _ _ Hparent) as (top & below & Hu & Hpath & G).
  rewrite unwind_below by (cbn [indent]; lia).
  unfold parent_of. cbn [obj result].
  rewrite get_at_app.
  rewrite (get_at_update_at path _ _ _ G), get_set_same. reflexivity.
Qed.

(** What the lines under a key did to the object of the key, seen from
    the parent of the key. *)
Lemma settles_under_key (s s1 s2 : State) (d : nat) (k : string)
      (path : list string) (o x : Props) :
  parent_of (store s) (unwind (2 * Z.of_nat d) (stack (store s))) = Ok (path, o) ->
  store s1
  = mkStore (update_at path (fun _ => Object.set k (Mapping []) o)
                       (result (store s)))
            (mkFrame (path ++ [k]) (2 * Z.of_nat d) (Some k)
               :: unwind (2 * Z.of_nat d) (stack (store s))) ->
  settles s1 s2 (2 * Z.of_nat (S d)) (path ++ [k])%list x ->
  settles s s2 (2 * Z.of_nat d) path (Object.set k (Mapping x) o).
Proof.
  intros Hparent E1 (Hr & (extra & Hs & Hall)). rewrite E1 in Hr, Hs.
  cbn [result stack] in Hr, Hs. split.
  - rewrite Hr. rewrite update_at_app, update_at_update_at.
    cbv beta. rewrite modify_set. reflexivity.
  - exists (extra ++ [mkFrame (path ++ [k]) (2 * Z.of_nat d) (Some k)])%list.
    split.
    + rewrite Hs. rewrite unwind_below by (cbn [indent]; lia).
      now rewrite <- List.app_assoc.
    + apply Forall_app. split.
      * eapply Forall_impl; [|exact Hall]. cbv beta. intros f Hf. lia.
      * repeat constructor. cbn [indent]. lia.
Qed.

Lemma blocks_decode_of_entries (ps : Props) :
  Forall (fun e => block_decodes (snd e)) ps -> blocks_decode ps.
Proof.
  induction 1 as [|[k v] ps He _ IH]; intros d s rest path o Hp Hparent Hrest.
  - exists s. split; [reflexivity|]. now apply settles_refl.
  - apply listed_entry in Hp as (Hk & Hlk & Hv & Hps). cbn [snd] in He.
    rewrite blocks_lines_cons, <- List.app_assoc.
    destruct (He k d s (blocks_lines d ps ++ rest)%list path o Hk Hlk Hv Hparent)
      as (s1 & Hrun1 & Hl1).
    { now apply blocks_lines_head. }
    destruct (IH d s1 rest path (Object.set k (relisted v) o) Hps)
      as (s2 & Hrun2 & Hl2).
    { eapply settles_parent; eauto. }
    { exact Hrest. }
    exists s2. split.
    + now rewrite Hrun1.
    + cbn [fold_left fst snd]. eapply settles_trans; eauto.
Qed.

Lemma block_decodes_scalar (sc : Scalar) : block_decodes (Prim sc).
Proof.
  intros k d s rest path o Hk _ Hp Hparent Hrest.
  destruct (step_leaf_entry s d k sc (hd_error rest) path o Hk Hp Hparent)
    as (s' & Hstep & Hl).
  exists s'. split; [|now apply settles_of_lands].
  cbn [block_lines List.app run]. rewrite Hstep. reflexivity.
Qed.

Lemma block_decodes_mapping (ps : Props) :
  blocks_decode ps -> block_decodes (Mapping ps).
Proof.
  intros Hps k d s rest path o Hk _ Hp Hparent Hrest.
  change (block_lines d k (Mapping ps))
    with ((repeat2 d ++ k ++ ":") :: blocks_lines (S d) ps).
  cbn [List.app run].
  rewrite (step_open_entry s d k _ path o Hk
             (blocks_lines_head (S d) ps rest Hp Hrest) Hparent).
  cbn [bind].
  set (s1 := mkState _ _).
  destruct (Hps (S d) s1 rest (path ++ [k])%list [] Hp
              (opened_parent s d k path o (currentArrayKey s) Hparent) Hrest)
    as (s2 & Hrun & Hl).
  exists s2. split; [exact Hrun|].
  exact (settles_under_key s s1 s2 d k path o _ Hparent eq_refl Hl).
Qed.

Lemma block_decodes_sequence (items : list Value) :
  block_decodes (Sequence items).
Proof.
  intros k d s rest path o Hk Hlk Hp Hparent Hrest.
  destruct (key_ok_parts k Hk) as (_ & _ & _ & _ & _ & _ & Hproto).
  change (block_lines d k (Sequence items))
    with ((repeat2 d ++ k ++ String colon "") :: map (item_line (S d)) items).
  cbn [listed] in Hp. cbn [List.app run].
  rewrite (step_key_line k Hk s d "" _).
  change (trim (trimEnd "")) with "".
  rewrite (handleKeyValue_open _ _ _ _ _ Hproto Hparent). cbn [bind].
  set (s1 := mkState _ _).
  assert (Hpend : pending_ok (currentArrayKey s1) = true
                  \/ items = []).
  { destruct items as [|v items]; [now right|]. left.
    subst s1. cbn [currentArrayKey map List.app hd_error].
    cbn [forallb] in Hp. apply andb_true_iff in Hp as [Hv _].
    destruct (item_line_payload (S d) v Hv) as (sc & _ & Hpay & Eline).
    rewrite Eline, (item_line_is_item (S d) _ Hpay).
    cbn [andb pending_ok]. exact Hlk. }
  assert (Hparent1 :
            parent_of (store s1)
                      (unwind (2 * Z.of_nat (S d)) (stack (store s1)))
            = Ok ((path ++ [k])%list, items_obj [])).
  { exact (opened_parent s d k path o (currentArrayKey s) Hparent). }
  destruct Hpend as [Hpend | Hnil].
  - destruct (run_item_lines items s1 (S d) rest (path ++ [k])%list []
                Hp Hpend Hparent1) as (s2 & Hrun & Hl).
    exists s2. split; [exact Hrun|].
    exact (settles_under_key s s1 s2 d k path o _ Hparent eq_refl
             (settles_of_lands _ _ _ _ _ Hl)).
  - subst items. exists s1. split; [reflexivity|].
    exact (settles_under_key s s1 s1 d k path o [] Hparent eq_refl
             (settles_refl s1 _ _ _ Hparent1)).
Qed.

Lemma every_block_decodes (v : Value) : block_decodes v.
Proof.
  induction v as [sc|ps IH|items _] using Value_nested_ind.
  - apply block_decodes_scalar.
  - apply block_decodes_mapping. now apply blocks_decode_of_entries.
  - apply block_decodes_sequence.
Qed.

Lemma every_listed_mapping_decodes (ps : Props) : blocks_decode ps.
Proof.
  apply blocks_decode_of_entries. apply Forall_forall.
  intros e _. apply every_block_decodes.
Qed.

End DecodeLists.

Section EncodeLists.

Lemma item_lines_text (d : nat) (items : list Value) :
  forallb scalar_item items = true ->
  concat_map
    (fun item =>
       match item with
       | Prim s => repeat2 d ++ "  - " ++ formatValue s ++ String nl ""
       | _ => repeat2 d ++ "  - " ++ String nl (stringify item (d + 2))
       end) items
  = text (map (item_line (S d)) items).
Proof.
  induction items as [|v items IH]; intros H; [reflexivity|].
  cbn [forallb] in H. apply andb_true_iff in H as [Hv Hitems].
  destruct v as [sc|ps|a]; try discriminate.
  cbn [map]. rewrite text_cons. unfold concat_map in *.
  cbn [fold_right]. rewrite (IH Hitems). unfold item_line.
  change ("  - " ++ formatValue sc ++ String nl "")
    with (String space (String space ("- " ++ formatValue sc ++ String nl ""))).
  rewrite repeat2_shift. rewrite !append_assoc. reflexivity.
Qed.

Lemma top_item_lines_text (items : list Value) :
  forallb scalar_item items = true ->
  stringify (Sequence items) 0 = text (map (item_line 0) items).
Proof.
  induction items as [|v items IH]; intros H; [reflexivity|].
  cbn [forallb] in H. apply andb_true_iff in H as [Hv Hitems].
  destruct v as [sc|ps|a]; try discriminate.
  cbn [map]. rewrite text_cons. specialize (IH Hitems).
  cbn [stringify] in *. unfold concat_map in *.
  cbn [fold_right]. rewrite IH. unfold item_line.
  rewrite !append_assoc. reflexivity.
Qed.

Lemma stringify_listed (v : Value) :
  forall d ps, v = Mapping ps -> listed v = true ->
               stringify v d = text (blocks_lines d ps).
Proof.
  induction v as [sc|ps0 IH|items _] using Value_nested_ind;
    intros d ps E Hp; inversion E; subst ps0; clear E.
  rewrite stringify_mapping.
  induction IH as [|[k v] ps He Hrest IHps]; [reflexivity|].
  apply listed_entry in Hp as (Hk & _ & Hv & Hps).
  specialize (IHps Hps). cbn [snd] in He.
  unfold concat_map in *. cbn [fold_right fst snd].
  rewrite IHps, blocks_lines_cons, text_app.
  f_equal.
  destruct v as [sc|ps'|a].
  - cbn [block_lines]. rewrite text_cons.
    rewrite !append_assoc. reflexivity.
  - rewrite (He (d + 1)%nat ps' eq_refl Hv).
    cbn [block_lines]. rewrite text_cons, Nat.add_1_r.
    fold (blocks_lines (S d) ps').
    rewrite !append_assoc. reflexivity.
  - cbn [listed] in Hv. fold (concat_map
      (fun item =>
         match item with
         | Prim s => repeat2 d ++ "  - " ++ formatValue s ++ String nl ""
         | _ => repeat2 d ++ "  - " ++ String nl (stringify item (d + 2))
         end) a).
    rewrite (item_lines_text d a Hv).
    cbn [block_lines]. rewrite text_cons.
    rewrite !append_assoc. reflexivity.
Qed.

Lemma no_nl_item_lines (d : nat) (items : list Value) :
  forallb scalar_item items = true ->
  Forall no_nl (map (item_line d) items).
Proof.
  induction items as [|v items IH]; intros H; [constructor|].
  cbn [forallb] in H. apply andb_true_iff in H as [Hv Hitems].
  destruct (item_line_payload d v Hv) as (sc & _ & Hpay & Eline).
  destruct (payload_ok_parts _ Hpay) as (_ & _ & Hnl).
  cbn [map]. constructor; [|now apply IH]. rewrite Eline.
  repeat apply no_nl_app; try assumption; try apply no_nl_repeat2; reflexivity.
Qed.

Lemma no_nl_blocks_lines (v : Value) :
  forall d ps, v = Mapping ps -> listed v = true ->
               Forall no_nl (blocks_lines d ps).
Proof.
  induction v as [sc|ps0 IH|items _] using Value_nested_ind;
    intros d ps E Hp; inversion E; subst ps0; clear E.
  induction IH as [|[k v] ps He Hrest IHps]; [constructor|].
  apply listed_entry in Hp as (Hk & _ & Hv & Hps).
  specialize (IHps Hps). cbn [snd] in He.
  rewrite blocks_lines_cons. apply Forall_app. split; [|exact IHps].
  destruct (key_ok_parts k Hk) as (_ & _ & _ & Hknl & _).
  destruct v as [sc|ps'|a].
  - cbn [block_lines]. constructor; [|constructor].
    destruct (leaf_ok_parts sc Hv) as (_ & _ & Hnl).
    repeat apply no_nl_app; try assumption; try apply no_nl_repeat2; reflexivity.
  - cbn [block_lines]. constructor.
    + repeat apply no_nl_app; try assumption; try apply no_nl_repeat2; reflexivity.
    + apply (He (S d) ps' eq_refl Hv).
  - cbn [block_lines]. constructor.
    + repeat apply no_nl_app; try assumption; try apply no_nl_repeat2; reflexivity.
    + now apply no_nl_item_lines.
Qed.

(** [decode] after [encode] on a mapping with lists of scalars performs,
    entry after entry, the assignments of [relisted]. *)
Lemma decode_encode_listed (ps : Props) :
  listed (Mapping ps) = true ->
  decode (encode (Mapping ps)) = Ok (relisted (Mapping ps)).
Proof.
  intros Hp. unfold decode, parse, encode.
  rewrite (stringify_listed (Mapping ps) 0 ps eq_refl Hp).
  rewrite split_text by (apply (no_nl_blocks_lines (Mapping ps) 0 ps eq_refl Hp)).
  destruct (every_listed_mapping_decodes ps 0%nat initial [""] [] [] Hp
              eq_refl eq_refl) as (s' & Hrun & (Hr & _)).
  rewrite Hrun. cbn [run hd_error].
  change (step s' "" None) with (Ok s'). cbn [bind].
  rewrite Hr. reflexivity.
Qed.

Lemma fold_set_ordered (g : Value -> Value) (ps : Props) :
  forall o,
    keys_ordered (Object.keys o ++ map fst ps) = true ->
    fold_left (fun o e => Object.set (fst e) (g (snd e)) o) ps o
    = (o ++ map (fun e => (fst e, g (snd e))) ps)%list.
Proof.
  induction ps as [|[k v] ps IH]; intros o H.
  - cbn [map fold_left]. now rewrite List.app_nil_r.
  - cbn [fold_left fst snd map].
    assert (Hk : keys_ordered (Object.keys o ++ [k]) = true).
    { cbn [map fst] in H.
      change (k :: map fst ps) with ([k] ++ map fst ps)%list in H.
      rewrite List.app_assoc in H. now apply keys_ordered_app in H as (H & _). }
    rewrite (set_append k (g v) o Hk).
    rewrite IH.
    + now rewrite <- List.app_assoc.
    + unfold Object.keys in *. rewrite map_app, <- List.app_assoc. exact H.
Qed.

Lemma relisted_itemised (v : Value) :
  js_object v = true -> relisted v = itemised v.
Proof.
  induction v as [sc|ps IH|items _] using Value_nested_ind;
    intros Hj; [reflexivity | | reflexivity].
  cbn [relisted itemised]. f_equal.
  cbn [js_object] in Hj. apply andb_true_iff in Hj as [Hord Hj].
  rewrite (fold_set_ordered relisted ps []) by exact Hord. cbn [List.app].
  clear Hord. induction IH as [|[k v] ps He _ IHps]; [reflexivity|].
  cbn [forallb snd] in Hj. apply andb_true_iff in Hj as [Hjv Hjps].
  cbn [map fst snd]. cbn [snd] in He. rewrite (He Hjv).
  f_equal. now apply IHps.
Qed.

End EncodeLists.

(** X10. Take a mapping with printable keys in the order of
    [Object.keys] whose values are scalars that fit on a line, lists of
    such scalars, or mappings of the same kind, no list with elements
    standing under a key that is the name of a member of
    [Object.prototype].  [decode] after [encode] returns the mapping
    with every scalar read back from its printed form and every list
    replaced by an object: the list is found under the key ['items'] of
    that object, and an empty list comes back as the empty object.  No
    list comes back as the array it was. *)
Theorem lists_come_back_under_items :
  forall props : Props,
    listed (Mapping props) = true ->
    js_object (Mapping props) = true ->
    decode (encode (Mapping props)) = Ok (itemised (Mapping props)).
Proof.
  intros ps Hp Hj.
  rewrite decode_encode_listed by exact Hp.
  now rewrite relisted_itemised.
Qed.

Lemma lists_come_back_under_items_witness :
  decode (encode (Mapping [("name", Prim (Str "db"));
                           ("tables", Sequence [Prim (Str "users");
                                                Prim (Str "orders")]);
                           ("skip", Sequence [])]))
  = Ok (Mapping [("name", Prim (Str "db"));
                 ("tables",
                  Mapping [("items", Sequence [Prim (Str "users");
                                               Prim (Str "orders")])]);
                 ("skip", Mapping [])]).
Proof.
  rewrite (lists_come_back_under_items
             [("name", Prim (Str "db"));
              ("tables", Sequence [Prim (Str "users"); Prim (Str "orders")]);
              ("skip", Sequence [])]);
    vm_compute; reflexivity.
Defined.

(** X11. A list of scalars that fit on a line, encoded on its own, is
    decoded as an object that holds the list, each scalar read back from
    its printed form, under the key ['items']; the empty list is decoded
    as the empty object. *)
Theorem top_level_list_comes_back_under_items :
  forall items : list Value,
    forallb scalar_item items = true ->
    decode (encode (Sequence items)) = Ok (itemised (Sequence items)).
Proof.
  intros items H. unfold decode, parse, encode.
  rewrite (top_item_lines_text items H).
  rewrite split_text by (now apply no_nl_item_lines).
  destruct (run_item_lines items initial 0%nat [""] [] [] H eq_refl eq_refl)
    as (s' & Hrun & (Hr & _)).
  rewrite Hrun. cbn [run hd_error].
  change (step s' "" None) with (Ok s'). cbn [bind].
  rewrite Hr. reflexivity.
Qed.

Lemma top_level_list_comes_back_under_items_witness :
  decode (encode (Sequence [Prim (Str "a"); Prim (Number (int_num 2))]))
  = Ok (Mapping [("items", Sequence [Prim (Str "a"); Prim (Number (int_num 2))])]).
Proof.
  rewrite (top_level_list_comes_back_under_items
             [Prim (Str "a"); Prim (Number (int_num 2))]);
    vm_compute; reflexivity.
Defined.

(** ** Lists written at the indentation of their key *)

Section FlushLists.

Lemma set_set (k : string) (v v0 : Value) (o : Props) :
  Object.set k v (Object.set k v0 o) = Object.set k v o.
Proof.
  unfold Object.set at 1. unfold Object.has.
  rewrite get_set_same. apply replace_set.
Qed.

Lemma key_not_empty (k : string) : key_ok k = true -> k <> "" /\ k <> "__proto__".
Proof.
  intros Hk. destruct (key_ok_parts k Hk) as (Hne & _ & _ & _ & _ & _ & Hproto).
  split; [now destruct k | now apply String.eqb_neq].
Qed.

(** An item line whose pending key is bound in the parent to the items
    read so far appends to them. *)
Lemma run_flush_items (ts : list string) :
  forall (s : State) (d : nat) (k : string) (rest : list string)
         (path : list string) (o : Props) (a : list Value),
    key_ok k = true ->
    forallb payload_ok ts = true ->
    currentArrayKey s = Some k ->
    parent_of (store s) (unwind (2 * Z.of_nat d) (stack (store s)))
    = Ok (path, Object.set k (Sequence a) o) ->
    exists s',
      run s (map (fun t => repeat2 d ++ "- " ++ t) ts ++ rest) = run s' rest
      /\ lands s s' (2 * Z.of_nat d) path
           (Object.set k (Sequence (a ++ map (fun t => Prim (parseValue t)) ts)) o).
Proof.
  induction ts as [|t ts IH]; intros s d k rest path o a Hk Hall Hcak Hparent.
  - exists s. split; [reflexivity|]. cbn [map]. rewrite List.app_nil_r.
    now apply lands_refl.
  - cbn [forallb] in Hall. apply andb_true_iff in Hall as [Ht Hts].
    destruct (key_not_empty k Hk) as [Hne Hproto].
    cbn [map List.app run]. rewrite (step_item_line s d t _ Ht), Hcak.
    rewrite (handleArrayItem_pending _ _ t k path _ Hne Hproto Hparent)
      by (unfold Object.lookup; now rewrite get_set_same).
    unfold items_of. rewrite get_set_same, set_set. cbn [bind].
    set (s1 := mkState _ _).
    assert (Hl1 : lands s s1 (2 * Z.of_nat d) path
                    (Object.set k (Sequence (a ++ [Prim (parseValue t)])) o)).
    { subst s1. split; [reflexivity|]. split; [|now rewrite Hcak].
      exists []. split; [reflexivity | constructor]. }
    pose proof (lands_parent s s1 _ path _ _ Hparent Hl1) as Hparent1.
    destruct (IH s1 d k rest path o (a ++ [Prim (parseValue t)])%list Hk Hts
                eq_refl Hparent1) as (s2 & Hrun & Hl2).
    exists s2. split; [exact Hrun|].
    change (Prim (parseValue t) :: map (fun t => Prim (parseValue t)) ts)
      with ([Prim (parseValue t)] ++ map (fun t => Prim (parseValue t)) ts)%list.
    rewrite List.app_assoc.
    exact (lands_trans s s1 s2 _ path _ _ _ Hparent Hl1 Hl2).
Qed.

(** The key line creates an empty object and names the key as pending;
    the first item line, as wide as the key line, pops the frame of that
    object and turns the value of the key into an array. *)
Lemma run_flush_block (s : State) (d : nat) (k : string) (ts rest : list string)
      (path : list string) (o : Props) :
  flush_ok (k, ts) = true ->
  parent_of (store s) (unwind (2 * Z.of_nat d) (stack (store s))) = Ok (path, o) ->
  exists s',
    run s (flush_block d k ts ++ rest) = run s' rest
    /\ settles s s' (2 * Z.of_nat d) path (Object.set k (flush_value ts) o).
Proof.
  unfold flush_ok. cbn [fst snd]. intros Hok Hparent.
  apply andb_true_iff in Hok as [Hok Hall].
  apply andb_true_iff in Hok as [Hk Hne].
  destruct ts as [|t ts]; [discriminate|]. clear Hne.
  cbn [forallb] in Hall. apply andb_true_iff in Hall as [Ht Hts].
  destruct (key_ok_parts k Hk) as (_ & _ & _ & _ & _ & _ & Hproto).
  destruct (key_not_empty k Hk) as [Hne Hproto'].
  pose proof (parent_of_inv _ _ _ _ Hparent) as (top & below & Hu & Hpath & G).
  unfold flush_block.
  change (repeat2 d ++ k ++ ":") with (repeat2 d ++ k ++ String colon "").
  cbn [map List.app run].
  rewrite (step_key_line k Hk s d "" _).
  change (trim (trimEnd "")) with "".
  rewrite (handleKeyValue_open _ _ _ _ _ Hproto Hparent). cbn [bind hd_error].
  rewrite (item_line_is_item d t Ht).
  change (String.eqb "" "" && true) with true. cbv iota.
  rewrite (step_item_line _ d t _ Ht). cbn [store currentArrayKey].
  set (st1 := mkStore _ _).
  assert (Hu1 : unwind (2 * Z.of_nat d) (stack st1) = top :: below).
  { subst st1. cbn [stack]. rewrite Hu, unwind_cons. cbn [indent].
    replace (2 * Z.of_nat d <=? 2 * Z.of_nat d) with true
      by (symmetry; apply Z.leb_le; lia).
    now rewrite <- Hu, unwind_idem. }
  assert (Hparent1 :
            parent_of st1 (unwind (2 * Z.of_nat d) (stack st1))
            = Ok (path, Object.set k (Mapping []) o)).
  { rewrite Hu1. unfold parent_of. rewrite Hpath. subst st1. cbn [result].
    now rewrite (get_at_update_at path _ _ _ G). }
  rewrite (handleArrayItem_pending st1 _ t k path _ Hne Hproto' Hparent1)
    by (unfold Object.lookup; now rewrite get_set_same).
  unfold items_of. rewrite get_set_same, set_set. cbn [bind List.app].
  set (s2 := mkState _ _).
  assert (Hl2 : settles s s2 (2 * Z.of_nat d) path
                  (Object.set k (Sequence [Prim (parseValue t)]) o)).
  { subst s2. split; cbn [store result stack].
    - subst st1. cbn [result]. now rewrite update_at_update_at.
    - exists []. split; [|constructor]. rewrite Hu1. now rewrite Hu. }
  pose proof (settles_parent s s2 _ path _ _ Hparent Hl2) as Hparent2.
  destruct (run_flush_items ts s2 d k rest path o [Prim (parseValue t)] Hk Hts
              eq_refl Hparent2) as (s3 & Hrun & Hl3).
  exists s3. split; [exact Hrun|].
  exact (settles_trans s s2 s3 _ path _ _ _ Hparent Hl2
           (settles_of_lands _ _ _ _ _ Hl3)).
Qed.

Lemma run_flush_blocks (blocks : list (string * list string)) :
  forall (s : State) (rest : list string) (o : Props),
    forallb flush_ok blocks = true ->
    parent_of (store s) (unwind 0 (stack (store s))) = Ok ([], o) ->
    exists s',
      run s (flush_lines blocks ++ rest) = run s' rest
      /\ settles s s' 0 []
           (fold_left (fun o b => Object.set (fst b) (flush_value (snd b)) o)
                      blocks o).
Proof.
  induction blocks as [|[k ts] blocks IH]; intros s rest o Hall Hparent.
  - exists s. split; [reflexivity|]. now apply settles_refl.
  - cbn [forallb] in Hall. apply andb_true_iff in Hall as [Hb Hblocks].
    unfold flush_lines. cbn [flat_map fst snd]. rewrite <- List.app_assoc.
    destruct (run_flush_block s 0 k ts (flush_lines blocks ++ rest)%list [] o
                Hb Hparent) as (s1 & Hrun1 & Hl1).
    destruct (IH s1 rest (Object.set k (flush_value ts) o) Hblocks
                (settles_parent s s1 _ [] _ _ Hparent Hl1))
      as (s2 & Hrun2 & Hl2).
    exists s2. split.
    + fold (flush_lines blocks). now rewrite Hrun1.
    + cbn [fold_left fst snd]. eapply settles_trans; eauto.
Qed.

Lemma no_nl_flush_lines (blocks : list (string * list string)) :
  forallb flush_ok blocks = true -> Forall no_nl (flush_lines blocks).
Proof.
  induction blocks as [|[k ts] blocks IH]; intros Hall; [constructor|].
  cbn [forallb] in Hall. apply andb_true_iff in Hall as [Hb Hblocks].
  unfold flush_lines. cbn [flat_map fst snd]. apply Forall_app.
  split; [|now apply IH].
  unfold flush_ok in Hb. cbn [fst snd] in Hb.
  apply andb_true_iff in Hb as [Hb Hts].
  apply andb_true_iff in Hb as [Hk _].
  destruct (key_ok_parts k Hk) as (_ & _ & _ & Hknl & _).
  unfold flush_block. constructor.
  - repeat apply no_nl_app; try assumption; try apply no_nl_repeat2; reflexivity.
  - clear Hk Hknl. induction ts as [|t ts IHts]; [constructor|].
    cbn [forallb] in Hts. apply andb_true_iff in Hts as [Ht Hts].
    destruct (payload_ok_parts t Ht) as (_ & _ & Hnl).
    cbn [map]. constructor; [|now apply IHts].
    repeat apply no_nl_app; try assumption; try apply no_nl_repeat2; reflexivity.
Qed.

Lemma fold_flush_ordered (bs : list (string * list string)) :
  forall o : Props,
    keys_ordered (Object.keys o ++ map fst bs) = true ->
    fold_left (fun o b => Object.set (fst b) (flush_value (snd b)) o) bs o
    = (o ++ map (fun b => (fst b, flush_value (snd b))) bs)%list.
Proof.
  induction bs as [|[k ts] bs IH]; intros o H.
  - cbn [map fold_left]. now rewrite List.app_nil_r.
  - cbn [fold_left fst snd map].
    assert (Hk : keys_ordered (Object.keys o ++ [k]) = true).
    { cbn [map fst] in H.
      change (k :: map fst bs) with ([k] ++ map fst bs)%list in H.
      rewrite List.app_assoc in H.
      now apply keys_ordered_app in H as (H & _). }
    rewrite (set_append k (flush_value ts) o Hk), IH.
    + now rewrite <- List.app_assoc.
    + unfold Object.keys in *. rewrite map_app, <- List.app_assoc. exact H.
Qed.

End FlushLists.

(** X12. The way to obtain an array under a key: write the items at the
    indentation of the key line.  A document made of such lists at the
    top level, with printable keys in the order of [Object.keys], each
    list with at least one item and payloads without surrounding white
    space, decodes to the mapping that binds every key to the array of
    its payloads, each read by [parseValue]. *)
Theorem flush_lists_decode_to_arrays :
  forall blocks : list (string * list string),
    forallb flush_ok blocks = true ->
    keys_ordered (map fst blocks) = true ->
    decode (text (flush_lines blocks))
    = Ok (Mapping (map (fun b => (fst b, flush_value (snd b))) blocks)).
Proof.
  intros blocks Hall Hord. unfold decode, parse.
  rewrite split_text by (now apply no_nl_flush_lines).
  destruct (run_flush_blocks blocks initial [""] [] Hall eq_refl)
    as (s' & Hrun & (Hr & _)).
  rewrite Hrun. cbn [run hd_error].
  change (step s' "" None) with (Ok s'). cbn [bind].
  rewrite Hr. cbn [initial store result update_at].
  now rewrite (fold_flush_ordered blocks [] Hord).
Qed.

Lemma flush_lists_decode_to_arrays_witness :
  decode (text ["tables:"; "- users"; "- orders"; "ports:"; "- 5432"])
  = Ok (Mapping [("tables", Sequence [Prim (Str "users"); Prim (Str "orders")]);
                 ("ports", Sequence [Prim (Number (int_num 5432))])]).
Proof.
  apply (flush_lists_decode_to_arrays
           [("tables", ["users"; "orders"]); ("ports", ["5432"])]);
    vm_compute; reflexivity.
Defined.

(** ** Documents of key-value lines *)

Section KeyValueDocuments.

Lemma get_replace_other (k k' : string) (v : Value) (o : Props) :
  String.eqb k k' = false ->
  Object.get (Object.replace k v o) k' = Object.get o k'.
Proof.
  intros Hne. induction o as [|[k0 v0] r IH]; [reflexivity|].
  cbn [Object.replace]. destruct (String.eqb k0 k) eqn:E.
  - apply String.eqb_eq in E. subst k0. cbn [Object.get]. now rewrite Hne.
  - cbn [Object.get]. now rewrite IH.
Qed.

Lemma get_insert_index_other (i : Z) (k k' : string) (v : Value) (o : Props) :
  String.eqb k k' = false ->
  Object.get (Object.insert_index i k v o) k' = Object.get o k'.
Proof.
  intros Hne. induction o as [|[k0 v0] r IH]; cbn [Object.insert_index].
  - cbn [Object.get]. now rewrite Hne.
  - destruct (Object.array_index k0) as [j|].
    + destruct (j <? i).
      * cbn [Object.get]. now rewrite IH.
      * cbn [Object.get]. now rewrite Hne.
    + cbn [Object.get]. now rewrite Hne.
Qed.

Lemma get_app_other (k k' : string) (v : Value) (o : Props) :
  String.eqb k k' = false ->
  Object.get (o ++ [(k, v)])%list k' = Object.get o k'.
Proof.
  intros Hne. induction o as [|[k0 v0] r IH]; cbn [List.app Object.get].
  - now rewrite Hne.
  - now rewrite IH.
Qed.

(** An assignment leaves the other properties as they are. *)
Lemma get_set_other (k k' : string) (v : Value) (o : Props) :
  String.eqb k k' = false ->
  Object.get (Object.set k v o) k' = Object.get o k'.
Proof.
  intros Hne. unfold Object.set. destruct (Object.has o k).
  - now apply get_replace_other.
  - destruct (Object.array_index k) as [i|].
    + now apply get_insert_index_other.
    + now apply get_app_other.
Qed.

Lemma step_payload_entry (s : State) (k t : string) (next : option string)
      (o : Props) :
  key_ok k = true -> payload_ok t = true ->
  parent_of (store s) (unwind 0 (stack (store s))) = Ok ([], o) ->
  exists s',
    step s (k ++ ": " ++ t) next = Ok s'
    /\ lands s s' 0 [] (Object.set k (Prim (parseValue t)) o).
Proof.
  intros Hk Ht Hparent.
  destruct (payload_ok_parts t Ht) as (Hne & Htrim & _).
  destruct (key_ok_parts k Hk) as (_ & _ & _ & _ & _ & _ & Hproto).
  destruct (trim_fixed _ Htrim) as (Hts & Hte).
  change (k ++ ": " ++ t) with (repeat2 0 ++ k ++ String colon (String space t)).
  rewrite step_key_line by exact Hk.
  assert (Hv : trim (trimEnd (String space t)) = t).
  { cbn [trimEnd]. rewrite Hte, Hne, andb_false_r. exact Htrim. }
  rewrite Hv. change (2 * Z.of_nat 0) with 0.
  rewrite (handleKeyValue_leaf _ _ _ _ _ _ Hproto Hne Hparent).
  rewrite eqb_empty, Hne. cbn [andb bind].
  eexists. split; [reflexivity|].
  repeat split; cbn [store result stack currentArrayKey].
  exists []. split; [reflexivity | constructor].
Qed.

Lemma run_payload_entries (entries : list (string * string)) :
  forall (s : State) (rest : list string) (o : Props),
    forallb entry_ok entries = true ->
    parent_of (store s) (unwind 0 (stack (store s))) = Ok ([], o) ->
    exists s',
      run s (map entry_line entries ++ rest) = run s' rest
      /\ lands s s' 0 []
           (fold_left (fun o e => Object.set (fst e) (Prim (parseValue (snd e))) o)
                      entries o).
Proof.
  induction entries as [|[k t] entries IH]; intros s rest o Hall Hparent.
  - exists s. split; [reflexivity|]. now apply lands_refl.
  - cbn [forallb] in Hall. apply andb_true_iff in Hall as [He Hall].
    unfold entry_ok in He. cbn [fst snd] in He.
    apply andb_true_iff in He as [Hk Ht].
    cbn [map List.app run]. unfold entry_line at 1. cbn [fst snd].
    destruct (step_payload_entry s k t (hd_error (map entry_line entries ++ rest))
                o Hk Ht Hparent) as (s1 & Hstep & Hl1).
    rewrite Hstep. cbn [bind].
    destruct (IH s1 rest (Object.set k (Prim (parseValue t)) o) Hall
                (lands_parent s s1 _ [] _ _ Hparent Hl1)) as (s2 & Hrun & Hl2).
    exists s2. split; [exact Hrun|].
    cbn [fold_left fst snd]. eapply lands_trans; eauto.
Qed.

Lemma get_fold_set (entries : list (string * string)) (k : string) :
  forall o,
    Object.get
      (fold_left (fun o e => Object.set (fst e) (Prim (parseValue (snd e))) o)
                 entries o) k
    = match last_value entries k with
      | Some t => Some (Prim (parseValue t))
      | None => Object.get o k
      end.
Proof.
  induction entries as [|[k' t] entries IH]; intros o; [reflexivity|].
  cbn [fold_left fst snd last_value]. rewrite IH.
  destruct (last_value entries k) as [t'|]; [reflexivity|].
  destruct (String.eqb k' k) eqn:E.
  - apply String.eqb_eq in E. subst k'. apply get_set_same.
  - now apply get_set_other.
Qed.

Lemma no_nl_entry_lines (entries : list (string * string)) :
  forallb entry_ok entries = true -> Forall no_nl (map entry_line entries).
Proof.
  induction entries as [|[k t] entries IH]; intros Hall; [constructor|].
  cbn [forallb] in Hall. apply andb_true_iff in Hall as [He Hall].
  unfold entry_ok in He. cbn [fst snd] in He.
  apply andb_true_iff in He as [Hk Ht].
  destruct (key_ok_parts k Hk) as (_ & _ & _ & Hknl & _).
  destruct (payload_ok_parts t Ht) as (_ & _ & Hnl).
  cbn [map]. constructor; [|now apply IH].
  unfold entry_line. cbn [fst snd].
  repeat apply no_nl_app; try assumption; reflexivity.
Qed.

End KeyValueDocuments.

(** X13. In a document of key-value lines at the top level, with
    printable keys and payloads without surrounding white space, a key
    that occurs on several lines is bound to the value of its last line:
    [decode] returns an object in which every key of the document is
    bound to what [parseValue] reads from the payload of the last line
    that has the key, and no other key is bound. *)
Theorem last_line_of_a_key_wins :
  forall entries : list (string * string),
    forallb entry_ok entries = true ->
    exists o,
      decode (text (map entry_line entries)) = Ok (Mapping o)
      /\ forall k,
           Object.get o k
           = option_map (fun t => Prim (parseValue t)) (last_value entries k).
Proof.
  intros entries Hall. unfold decode, parse.
  rewrite split_text by (now apply no_nl_entry_lines).
  destruct (run_payload_entries entries initial [""] [] Hall eq_refl)
    as (s' & Hrun & (Hr & _)).
  rewrite Hrun. cbn [run hd_error].
  change (step s' "" None) with (Ok s'). cbn [bind].
  rewrite Hr. cbn [initial store result update_at].
  eexists. split; [reflexivity|].
  intros k. rewrite get_fold_set.
  now destruct (last_value entries k).
Qed.

Lemma last_line_of_a_key_wins_witness :
  exists o,
    decode (text ["port: 1"; "url: http://h:80"; "port: 2"]) = Ok (Mapping o)
    /\ forall k,
         Object.get o k
         = option_map (fun t => Prim (parseValue t))
             (last_value [("port", "1"); ("url", "http://h:80"); ("port", "2")] k).
Proof.
  apply (last_line_of_a_key_wins
           [("port", "1"); ("url", "http://h:80"); ("port", "2")]).
  vm_compute. reflexivity.
Defined.

(** ** What [stringify] cannot tell apart *)

Section Emptied.

Lemma concat_map_map (A B : Type) (f : A -> B) (g : B -> string)
      (h : A -> string) (l : list A) :
  Forall (fun x => g (f x) = h x) l ->
  concat_map g (map f l) = concat_map h l.
Proof.
  induction 1 as [|x l Hx _ IH]; [reflexivity|].
  unfold concat_map in *. cbn [map fold_right]. now rewrite Hx, IH.
Qed.

Lemma emptied_item (spaces marker : string) (d : nat) (item : Value) :
  same_text item ->
  match emptied item with
  | Prim s => spaces ++ marker ++ formatValue s ++ String nl ""
  | _ => spaces ++ marker ++ String nl (stringify (emptied item) d)
  end
  = match item with
    | Prim s => spaces ++ marker ++ formatValue s ++ String nl ""
    | _ => spaces ++ marker ++ String nl (stringify item d)
    end.
Proof.
  intros H. destruct item as [s|ps|[|x r]]; try reflexivity.
  - rewrite (H d). reflexivity.
  - rewrite (H d). reflexivity.
Qed.

Lemma emptied_same_text (v : Value) :
  same_text v
  /\ match v with
     | Sequence items => Forall same_text items
     | _ => True
     end.
Proof.
  induction v as [sc|ps IH|items IH] using Value_nested_ind.
  - split; [intros d; reflexivity | exact I].
  - split; [|exact I]. intros d.
    change (emptied (Mapping ps))
      with (Mapping (map (fun e => (fst e, emptied (snd e))) ps)).
    rewrite !stringify_mapping.
    apply concat_map_map.
    eapply Forall_impl; [|exact IH].
    intros [k v] [Hv Hitems]. cbn [fst snd] in *.
    destruct v as [s|ps'|[|x r]]; try reflexivity.
    + pose proof (Hv (d + 1)%nat) as E.
      change (emptied (Mapping ps'))
        with (Mapping (map (fun e => (fst e, emptied (snd e))) ps')) in *.
      cbv iota. rewrite E. reflexivity.
    + change (emptied (Sequence (x :: r)))
        with (Sequence (map emptied (x :: r))).
      cbv iota. do 4 f_equal.
      apply concat_map_map.
      eapply Forall_impl; [|exact Hitems].
      intros item Hitem.
      exact (emptied_item (repeat2 d) "  - " (d + 2) item Hitem).
  - assert (Hall : Forall same_text items).
    { eapply Forall_impl; [|exact IH]. now intros item [H _]. }
    split; [|exact Hall]. intros d.
    destruct items as [|x r]; [reflexivity|].
    change (emptied (Sequence (x :: r))) with (Sequence (map emptied (x :: r))).
    cbn [stringify].
    apply concat_map_map.
    eapply Forall_impl; [|exact Hall].
    intros item Hitem.
    exact (emptied_item (repeat2 d) "- " (d + 1) item Hitem).
Qed.

End Emptied.

(** X14. [stringify] prints an empty array as it prints an empty
    object, as a key line with nothing under it: the value in which
    every empty array is replaced by an empty object has the same text,
    at every depth.  No reader of the text can give both back. *)
Theorem empty_list_prints_as_empty_object :
  forall (v : Value) (d : nat), stringify (emptied v) d = stringify v d.
Proof.
  intros v. exact (proj1 (emptied_same_text v)).
Qed.

(* ===================================================================== *)
(** * The helper functions                                               *)
(* ===================================================================== *)

Section TableNames.

Lemma formatTableName_cons (c : ascii) (r : string) :
  formatTableName (String c r)
  = String (underscore (toLowerCase_unit c)) (formatTableName r).
Proof. reflexivity. Qed.

Lemma formatted_unit_fixed (c : ascii) :
  underscore (toLowerCase_unit (underscore (toLowerCase_unit c)))
  = underscore (toLowerCase_unit c).
Proof. destruct c as [[] [] [] [] [] [] [] []]; reflexivity. Qed.

Lemma formatted_unit_no_space (c : ascii) :
  Ascii.eqb (underscore (toLowerCase_unit c)) space = false.
Proof. destruct c as [[] [] [] [] [] [] [] []]; reflexivity. Qed.

Lemma formatted_unit_lower (c : ascii) :
  toLowerCase_unit (underscore (toLowerCase_unit c))
  = underscore (toLowerCase_unit c).
Proof. destruct c as [[] [] [] [] [] [] [] []]; reflexivity. Qed.

Lemma toLowerCase_formatted (s : string) :
  toLowerCase (formatTableName s) = formatTableName s.
Proof.
  induction s as [|c r IH]; [reflexivity|].
  rewrite formatTableName_cons. cbn [toLowerCase].
  now rewrite formatted_unit_lower, IH.
Qed.

End TableNames.

(** X15. [formatTableName] returns a name of the same length that holds
    no space and that lower-casing leaves as it is, and formatting a
    formatted name changes nothing. *)
Theorem formatTableName_normalises :
  forall tableName : string,
    String.length (formatTableName tableName) = String.length tableName
    /\ includes (formatTableName tableName) space = false
    /\ toLowerCase (formatTableName tableName) = formatTableName tableName
    /\ formatTableName (formatTableName tableName) = formatTableName tableName.
Proof.
  intros s. split; [|split; [|split]].
  - induction s as [|c r IH]; [reflexivity|].
    rewrite formatTableName_cons. cbn [String.length]. now rewrite IH.
  - induction s as [|c r IH]; [reflexivity|].
    rewrite formatTableName_cons. cbn [includes].
    now rewrite formatted_unit_no_space, IH.
  - apply toLowerCase_formatted.
  - induction s as [|c r IH]; [reflexivity|].
    rewrite !formatTableName_cons. now rewrite formatted_unit_fixed, IH.
Qed.

Section Header.

Lemma trimEnd_head (c : ascii) (r : string) :
  is_white c = false -> trimEnd (String c r) = String c (trimEnd r).
Proof. intros H. cbn [trimEnd]. now rewrite H. Qed.

Lemma header_line_is_comment (title : string) :
  startsWith (trim ("# Migration Configuration for " ++ title)) "#" = true.
Proof.
  change ("# Migration Configuration for " ++ title)
    with (String "#" (" Migration Configuration for " ++ title)).
  unfold trim. rewrite trimStart_head by reflexivity.
  rewrite trimEnd_head by reflexivity.
  now rewrite startsWith_cons.
Qed.

End Header.

(** X16. The header [generateYAMLHeader] writes for a title without line
    feed is one comment line: a document decodes to the same outcome
    with the header in front of it. *)
Theorem header_is_skipped_by_decode :
  forall title doc : string,
    no_nl title ->
    decode (generateYAMLHeader title ++ doc) = decode doc.
Proof.
  intros title doc Hnl. unfold generateYAMLHeader.
  rewrite <- append_assoc.
  rewrite (append_assoc ("# Migration Configuration for " ++ title)).
  change (String nl "" ++ doc) with (String nl doc).
  unfold decode, parse.
  rewrite split_nl_app by (apply no_nl_app; [reflexivity | exact Hnl]).
  cbn [run]. unfold step at 1.
  rewrite header_line_is_comment, orb_true_r. reflexivity.
Qed.

Lemma header_is_skipped_by_decode_witness :
  decode (generateYAMLHeader "orders" ++ "a: 1") = decode "a: 1".
Proof.
  apply (header_is_skipped_by_decode "orders" "a: 1"). reflexivity.
Defined.

(** X17. [validateMigrationConfig] accepts exactly the objects and the
    arrays, so it accepts whatever [parse] returns: no document that
    [parse] reads is rejected by it. *)
Theorem parsed_config_always_validates :
  forall (doc : string) (v : Value),
    decode doc = Ok v ->
    validateMigrationConfig v = true
    /\ forall w, validateMigrationConfig w = negb (is_scalar w).
Proof.
  intros doc v H. split.
  - destruct (decode_returns_mapping doc v H) as (props & ->). reflexivity.
  - intros [[|b|n|s]|ps|items]; try reflexivity.
    + unfold validateMigrationConfig. cbn [is_object negb orb is_scalar].
      now rewrite orb_true_r.
    + unfold validateMigrationConfig. cbn [is_object negb orb is_scalar].
      now rewrite orb_true_r.
    + unfold validateMigrationConfig. cbn [is_object negb orb is_scalar].
      now rewrite orb_true_r.
Qed.

Lemma parsed_config_always_validates_witness :
  validateMigrationConfig (Mapping [("a", Prim (Number (int_num 1)))]) = true.
Proof.
  destruct (parsed_config_always_validates
              "a: 1" (Mapping [("a", Prim (Number (int_num 1)))]) eq_refl)
    as [H _].
  exact H.
Defined.

Section Relationships.

Lemma split_arrow_cons2 (c c' : ascii) (r : string) :
  split_arrow (String c (String c' r))
  = if Ascii.eqb c "-" && Ascii.eqb c' ">"
    then EmptyString :: split_arrow r
    else prepend c (split_arrow (String c' r)).
Proof. reflexivity. Qed.

Lemma has_arrow_cons2 (c c' : ascii) (r : string) :
  has_arrow (String c (String c' r))
  = (Ascii.eqb c "-" && Ascii.eqb c' ">") || has_arrow (String c' r).
Proof. reflexivity. Qed.

Lemma split_arrow_at (a t : string) :
  has_arrow a = false ->
  split_arrow (a ++ String "-" (String ">" t)) = a :: split_arrow t.
Proof.
  induction a as [|c r IH]; intros H; [reflexivity|].
  destruct r as [|c' r'].
  - cbn [append]. rewrite split_arrow_cons2.
    change (Ascii.eqb "-" ">") with false. rewrite andb_false_r.
    change (split_arrow (String "-" (String ">" t)))
      with (EmptyString :: split_arrow t).
    reflexivity.
  - rewrite has_arrow_cons2 in H. apply orb_false_iff in H as [Hc Hr].
    change (String c (String c' r') ++ String "-" (String ">" t))
      with (String c (String c' (r' ++ String "-" (String ">" t)))).
    rewrite split_arrow_cons2, Hc.
    change (String c' (r' ++ String "-" (String ">" t)))
      with (String c' r' ++ String "-" (String ">" t)).
    rewrite (IH Hr). reflexivity.
Qed.

Lemma split_arrow_none (a : string) :
  has_arrow a = false -> split_arrow a = [a].
Proof.
  induction a as [|c r IH]; intros H; [reflexivity|].
  destruct r as [|c' r']; [reflexivity|].
  rewrite has_arrow_cons2 in H. apply orb_false_iff in H as [Hc Hr].
  rewrite split_arrow_cons2, Hc, (IH Hr). reflexivity.
Qed.

End Relationships.

(** X18. [parseSoftDefinedRelationship] cuts at the first two arrows:
    for sides [a] and [b] that hold no arrow, ["a->b"] gives the trimmed
    sides, whatever follows a second arrow is dropped, and a text
    without arrow gives [from] alone and leaves [to] undefined. *)
Theorem relationship_sides :
  forall a b : string,
    has_arrow a = false ->
    has_arrow b = false ->
    parseSoftDefinedRelationship (a ++ "->" ++ b)
    = mkRelationship (Some (trim a)) (Some (trim b))
    /\ (forall rest,
          parseSoftDefinedRelationship (a ++ "->" ++ b ++ "->" ++ rest)
          = mkRelationship (Some (trim a)) (Some (trim b)))
    /\ parseSoftDefinedRelationship a = mkRelationship (Some (trim a)) None.
Proof.
  intros a b Ha Hb. unfold parseSoftDefinedRelationship.
  split; [|split].
  - change ("->" ++ b) with (String "-" (String ">" b)).
    rewrite (split_arrow_at a b Ha), (split_arrow_none b Hb). reflexivity.
  - intros rest.
    change ("->" ++ b ++ "->" ++ rest)
      with (String "-" (String ">" (b ++ String "-" (String ">" rest)))).
    rewrite (split_arrow_at a _ Ha), (split_arrow_at b rest Hb). reflexivity.
  - rewrite (split_arrow_none a Ha). reflexivity.
Qed.

Lemma relationship_sides_witness :
  parseSoftDefinedRelationship ("orders.user_id " ++ "->" ++ " users.id")
  = mkRelationship (Some "orders.user_id") (Some "users.id").
Proof.
  destruct (relationship_sides "orders.user_id " " users.id" eq_refl eq_refl)
    as [H _].
  exact H.
Defined.

(* ===================================================================== *)
(** * The callers of the codec                                           *)
(* ===================================================================== *)

Section Validate.

Lemma get_map_values (f : Value -> Value) (ps : Props) (k : string) :
  Object.get (map (fun e => (fst e, f (snd e))) ps) k
  = option_map f (Object.get ps k).
Proof.
  induction ps as [|[k' v] ps IH]; [reflexivity|].
  cbn [map fst snd Object.get]. destruct (String.eqb k' k); [reflexivity | exact IH].
Qed.

Lemma has_field_itemised (ps : Props) (field : string) :
  YamlParser.has_field (itemised (Mapping ps)) field
  = YamlParser.has_field (Mapping ps) field.
Proof.
  cbn [itemised]. unfold YamlParser.has_field, Object.lookup.
  rewrite get_map_values.
  destruct (Object.get ps field); reflexivity.
Qed.

Lemma validate_itemised (ps : Props) :
  YamlParser.validate (itemised (Mapping ps)) = YamlParser.validate (Mapping ps).
Proof.
  unfold YamlParser.validate.
  change (negb (truthy (itemised (Mapping ps)))
          || negb (is_object (itemised (Mapping ps)))) with false.
  cbn [truthy is_object negb orb YamlParser.requiredFields forallb].
  now rewrite !has_field_itemised.
Qed.

End Validate.

(** X19. A configuration that [YamlParser.validate] accepts is still
    accepted after it is written by [stringify] and read by
    [YamlParser.parse], and one that is rejected is still rejected: for
    a mapping with printable keys, scalars that fit on a line and lists
    of such scalars, the verdict on what is read back is the verdict on
    the mapping. *)
Theorem validate_survives_round_trip :
  forall props : Props,
    listed (Mapping props) = true ->
    js_object (Mapping props) = true ->
    (v <- YamlParser.parse (encode (Mapping props)) ;;
     Ok (YamlParser.validate v))
    = Ok (YamlParser.validate (Mapping props)).
Proof.
  intros ps Hp Hj. unfold YamlParser.parse. fold (decode (encode (Mapping ps))).
  rewrite decode_encode_listed by exact Hp.
  rewrite relisted_itemised by exact Hj.
  cbn [bind]. now rewrite validate_itemised.
Qed.

Lemma validate_survives_round_trip_witness :
  (v <- YamlParser.parse
          (encode (Mapping [("database", Prim (Str "shop"));
                            ("host", Prim (Str "localhost"));
                            ("port", Prim (Number (int_num 5432)));
                            ("tables", Sequence [Prim (Str "users")])])) ;;
   Ok (YamlParser.validate v))
  = Ok true.
Proof.
  rewrite (validate_survives_round_trip
             [("database", Prim (Str "shop"));
              ("host", Prim (Str "localhost"));
              ("port", Prim (Number (int_num 5432)));
              ("tables", Sequence [Prim (Str "users")])]);
    vm_compute; reflexivity.
Defined.

Section Templates.

Import YamlGenerator.

Lemma default_port_stable (provider : string) (port : Value) :
  getDefaultPort provider = Some port ->
  exists sc, port = Prim sc /\ leaf_ok sc = true /\ reread sc = sc.
Proof.
  unfold getDefaultPort, entry_or, Object.lookup.
  destruct (Object.get ports provider) as [v|] eqn:G.
  - intros H. inversion H; subst port; clear H.
    unfold ports in G. table_cases G; inversion G; subst v;
      eexists; (split; [reflexivity|]); split; vm_compute; reflexivity.
  - destruct (Object.inherited provider); [discriminate|].
    intros H. inversion H; subst port.
    eexists; (split; [reflexivity|]); split; vm_compute; reflexivity.
Qed.

Lemma provider_options_stable (provider : string) (opts : Value) :
  getProviderOptions provider = Some opts ->
  exists o, opts = Mapping o /\ listed (Mapping o) = true
            /\ js_object (Mapping o) = true
            /\ itemised (Mapping o) = Mapping o.
Proof.
  unfold getProviderOptions, entry_or, Object.lookup.
  destruct (Object.get options provider) as [v|] eqn:G.
  - intros H. inversion H; subst opts; clear H.
    unfold options in G. table_cases G; inversion G; subst v;
      eexists; (split; [reflexivity|]); repeat split; vm_compute; reflexivity.
  - destruct (Object.inherited provider); [discriminate|].
    intros H. inversion H; subst opts.
    eexists; (split; [reflexivity|]); repeat split; vm_compute; reflexivity.
Qed.

Variables (provider : string) (sc : Scalar) (o : Props).
Hypothesis Hprovider : leaf_ok (Str provider) = true.
Hypothesis Hport : leaf_ok sc = true.
Hypothesis Hport_stable : reread sc = sc.
Hypothesis Hopts : listed (Mapping o) = true.
Hypothesis Hopts_object : js_object (Mapping o) = true.
Hypothesis Hopts_stable : itemised (Mapping o) = Mapping o.

Lemma listed_connection (database : string) :
  leaf_ok (Str database) = true ->
  listed (connection (Prim (Str provider)) (Prim sc) (Mapping o) database) = true.
Proof.
  intros Hdb. pose proof Hopts as Ho.
  cbn [connection listed forallb fst snd list_key_ok] in *.
  rewrite Hprovider, Hport, Hdb, Ho. reflexivity.
Qed.

Lemma js_object_connection (p : Value) (database : string) :
  js_object (connection p (Prim sc) (Mapping o) database)
  = js_object p.
Proof.
  pose proof Hopts_object as Ho.
  cbn [connection js_object forallb map fst snd] in *.
  rewrite Ho.
  change (keys_ordered ["provider"; "host"; "port"; "username"; "password";
                        "database"; "options"]) with true.
  cbn [andb]. now rewrite !andb_true_r.
Qed.

Lemma itemised_connection (database : string) :
  reread (Str database) = Str database ->
  itemised (connection (Prim (Str provider)) (Prim sc) (Mapping o) database)
  = connection (Prim (reread (Str provider))) (Prim sc) (Mapping o) database.
Proof.
  intros Hdb. pose proof Hopts_stable as Ho.
  cbn [connection itemised map fst snd] in *.
  rewrite Hport_stable, Hdb, Ho. reflexivity.
Qed.

Lemma listed_template :
  listed (template provider (Prim sc) (Mapping o)) = true.
Proof.
  unfold template.
  pose proof (listed_connection "your_database" eq_refl) as Hs.
  pose proof (listed_connection "target_database" eq_refl) as Ht.
  set (source := connection _ _ _ "your_database") in *.
  set (target := connection _ _ _ "target_database") in *.
  assert (Hsm : list_key_ok "source" source = true) by reflexivity.
  assert (Htm : list_key_ok "target" target = true) by reflexivity.
  cbn [listed forallb fst snd].
  rewrite Hs, Ht, Hsm, Htm. reflexivity.
Qed.

Lemma js_object_template :
  js_object (template provider (Prim sc) (Mapping o)) = true.
Proof.
  unfold template.
  pose proof (js_object_connection (Prim (Str provider)) "your_database") as Hs.
  pose proof (js_object_connection (Prim (Str provider)) "target_database") as Ht.
  set (source := connection _ _ _ "your_database") in *.
  set (target := connection _ _ _ "target_database") in *.
  cbn [js_object forallb map fst snd] in *.
  rewrite Hs, Ht. reflexivity.
Qed.

Lemma itemised_template :
  itemised (template provider (Prim sc) (Mapping o))
  = template_read provider (Prim sc) (Mapping o).
Proof.
  unfold template, template_read.
  pose proof (itemised_connection "your_database" eq_refl) as Hs.
  pose proof (itemised_connection "target_database" eq_refl) as Ht.
  set (source := connection (Prim (Str provider)) _ _ "your_database") in *.
  set (target := connection (Prim (Str provider)) _ _ "target_database") in *.
  cbn [itemised map fst snd].
  rewrite Hs, Ht. reflexivity.
Qed.

(** The text of the template is read as [template_read]. *)
Lemma template_decodes :
  decode (convertToYaml (template provider (Prim sc) (Mapping o)))
  = Ok (template_read provider (Prim sc) (Mapping o)).
Proof.
  pose proof listed_template as Hl.
  pose proof js_object_template as Hj.
  pose proof itemised_template as Hi.
  unfold convertToYaml.
  change (stringify ?v 0) with (encode v).
  unfold template in *.
  rewrite decode_encode_listed by exact Hl.
  rewrite relisted_itemised by exact Hj.
  now rewrite Hi.
Qed.

End Templates.

Section TemplateRoundTrip.

Import YamlGenerator.

Lemma entry_or_defined (table : Props) (provider : string) (fallback : Value) :
  Object.inherited provider = false ->
  exists v, entry_or table provider fallback = Some v.
Proof.
  intros H. unfold entry_or, Object.lookup.
  destruct (Object.get table provider); [now eexists|].
  rewrite H. now eexists.
Qed.

(** The template of a provider that names no member of
    [Object.prototype] exists and is read as [template_read]. *)
Lemma template_of_provider (provider : string) :
  leaf_ok (Str provider) = true ->
  Object.inherited provider = false ->
  exists port opts,
    getDefaultPort provider = Some port
    /\ getProviderOptions provider = Some opts
    /\ generateConfigTemplate provider
       = Some (convertToYaml (template provider port opts))
    /\ decode (convertToYaml (template provider port opts))
       = Ok (template_read provider port opts).
Proof.
  intros Hp Hi.
  destruct (entry_or_defined ports provider (Prim (Number (int_num 0))) Hi)
    as (port & Eport).
  destruct (entry_or_defined options provider (Mapping []) Hi) as (opts & Eopts).
  fold (getDefaultPort provider) in Eport.
  fold (getProviderOptions provider) in Eopts.
  destruct (default_port_stable provider port Eport) as (sc & -> & Hsc & Hst).
  destruct (provider_options_stable provider opts Eopts)
    as (o & -> & Hl & Hj & Hit).
  exists (Prim sc), (Mapping o).
  split; [exact Eport|]. split; [exact Eopts|]. split.
  - unfold generateConfigTemplate. now rewrite Eport, Eopts.
  - now apply template_decodes.
Qed.

Lemma scalar_items_are_objects (items : list Value) :
  forallb scalar_item items = true -> forallb js_object items = true.
Proof.
  induction items as [|v items IH]; [reflexivity|].
  cbn [forallb]. intros H. apply andb_true_iff in H as [Hv Hitems].
  destruct v; try discriminate. cbn [js_object andb]. now apply IH.
Qed.

End TemplateRoundTrip.

(** X20. For a provider name that fits on a line and names no member of
    [Object.prototype], the text [YamlGenerator.generateConfigTemplate]
    returns is not read back as the template it was printed from:
    the version ['2.0'] comes back as the number 2, the empty lists
    [tables] and [collections] come back as empty objects, and the
    provider comes back as [parseValue] reads it.  The port and the
    options of the provider, and every other field, come back as they
    were. *)
Theorem config_template_read_back :
  forall provider : string,
    leaf_ok (Str provider) = true ->
    Object.inherited provider = false ->
    exists port opts,
      YamlGenerator.getDefaultPort provider = Some port
      /\ YamlGenerator.getProviderOptions provider = Some opts
      /\ option_map decode (YamlGenerator.generateConfigTemplate provider)
         = Some (Ok (YamlGenerator.template_read provider port opts)).
Proof.
  intros provider Hp Hi.
  destruct (template_of_provider provider Hp Hi)
    as (port & opts & Eport & Eopts & Egen & Hdec).
  exists port, opts. split; [exact Eport|]. split; [exact Eopts|].
  rewrite Egen. cbn [option_map]. now rewrite Hdec.
Qed.

Lemma config_template_read_back_witness :
  exists port opts,
    YamlGenerator.getDefaultPort "postgresql" = Some port
    /\ YamlGenerator.getProviderOptions "postgresql" = Some opts
    /\ option_map decode (YamlGenerator.generateConfigTemplate "postgresql")
       = Some (Ok (YamlGenerator.template_read "postgresql" port opts)).
Proof.
  apply (config_template_read_back "postgresql"); vm_compute; reflexivity.
Defined.

(** X21. [loadConfigFromFile] finds the two connections of a template
    written by [YamlGenerator.generateConfigTemplate] under [migration]:
    for a provider name that fits on a line and names no member of
    [Object.prototype] it returns, as [source] and [target], the
    connections of the template with the provider read by [parseValue],
    the databases ['your_database'] and ['target_database']. *)
Theorem template_loads_as_source_and_target :
  forall provider : string,
    leaf_ok (Str provider) = true ->
    Object.inherited provider = false ->
    exists port opts,
      YamlGenerator.getDefaultPort provider = Some port
      /\ YamlGenerator.getProviderOptions provider = Some opts
      /\ option_map loadConfigFromFile
           (YamlGenerator.generateConfigTemplate provider)
         = Some (Ok (Some (YamlGenerator.connection
                             (Prim (reread (Str provider))) port opts
                             "your_database"),
                     Some (YamlGenerator.connection
                             (Prim (reread (Str provider))) port opts
                             "target_database"))).
Proof.
  intros provider Hp Hi.
  destruct (template_of_provider provider Hp Hi)
    as (port & opts & Eport & Eopts & Egen & Hdec).
  exists port, opts. split; [exact Eport|]. split; [exact Eopts|].
  rewrite Egen. cbn [option_map]. unfold loadConfigFromFile.
  unfold decode in Hdec. rewrite Hdec. reflexivity.
Qed.

Lemma template_loads_as_source_and_target_witness :
  exists port opts,
    YamlGenerator.getDefaultPort "mongodb" = Some port
    /\ YamlGenerator.getProviderOptions "mongodb" = Some opts
    /\ option_map loadConfigFromFile
         (YamlGenerator.generateConfigTemplate "mongodb")
       = Some (Ok (Some (YamlGenerator.connection
                           (Prim (reread (Str "mongodb"))) port opts
                           "your_database"),
                   Some (YamlGenerator.connection
                           (Prim (reread (Str "mongodb"))) port opts
                           "target_database"))).
Proof.
  apply (template_loads_as_source_and_target "mongodb"); vm_compute; reflexivity.
Defined.

(** X22. The text [YamlGenerator.generateTableMigrationYaml] returns for
    a table name that fits on a line and relationships that are scalars
    that fit on a line is read back with the relationships under the key
    ['items'] of an object, not as the array they were; the legacy
    [generate], which passes no relationship on, is read back with an
    empty object for the relationships. *)
Theorem table_migration_yaml_read_back :
  forall (tableName : string) (relationships : list Value),
    leaf_ok (Str tableName) = true ->
    forallb scalar_item relationships = true ->
    decode (YamlGenerator.generateTableMigrationYaml tableName relationships)
    = Ok (Mapping [("table", Prim (reread (Str tableName)));
                   ("relationships",
                    Mapping (items_obj (map reread_value relationships)))])
    /\ decode (YamlGenerator.generate tableName relationships)
       = Ok (Mapping [("table", Prim (reread (Str tableName)));
                      ("relationships", Mapping [])]).
Proof.
  intros tableName relationships Ht Hr.
  assert (G : forall rels,
             forallb scalar_item rels = true ->
             decode (YamlGenerator.generateTableMigrationYaml tableName rels)
             = Ok (Mapping [("table", Prim (reread (Str tableName)));
                            ("relationships",
                             Mapping (items_obj (map reread_value rels)))])).
  { intros rels Hrels.
    unfold YamlGenerator.generateTableMigrationYaml, YamlGenerator.convertToYaml.
    change (stringify ?v 0) with (encode v).
    rewrite decode_encode_listed.
    - rewrite relisted_itemised; [reflexivity|].
      cbn [js_object forallb map fst snd].
      rewrite (scalar_items_are_objects rels Hrels). reflexivity.
    - cbn [listed forallb fst snd list_key_ok]. rewrite Ht, Hrels.
      destruct rels; reflexivity. }
  split; [exact (G relationships Hr) | exact (G [] eq_refl)].
Qed.

Lemma table_migration_yaml_read_back_witness :
  decode (YamlGenerator.generateTableMigrationYaml
            "orders" [Prim (Str "users"); Prim (Str "products")])
  = Ok (Mapping [("table", Prim (Str "orders"));
                 ("relationships",
                  Mapping [("items", Sequence [Prim (Str "users");
                                               Prim (Str "products")])])]).
Proof.
  destruct (table_migration_yaml_read_back
              "orders" [Prim (Str "users"); Prim (Str "products")]
              eq_refl eq_refl) as [H _].
  exact H.
Defined.

Section TemplateValidation.

Import YamlGenerator.

Lemma loaded_template (provider : Value) (port opts : Value) :
  let config :=
    Mapping
      [("version", Prim (Number (int_num 2)));
       ("migration",
        Mapping
          [("source", connection provider port opts "your_database");
           ("target", connection provider port opts "target_database");
           ("options",
            Mapping [("includeData", Prim (Boolean false));
                     ("batchSize", Prim (Number (int_num 1000)));
                     ("generateScripts", Prim (Boolean false));
                     ("tables", Mapping []);
                     ("collections", Mapping [])])])] in
  (or_else (property (Some config) "source")
           (property (property (Some config) "migration") "source"),
   or_else (property (Some config) "target")
           (property (property (Some config) "migration") "target"))
  = (Some (connection provider port opts "your_database"),
     Some (connection provider port opts "target_database")).
Proof. reflexivity. Qed.

Lemma unsupported_connection_errors (provider database : string) :
  is_empty provider = false ->
  is_empty database = false ->
  existsb (String.eqb provider) DatabaseFactory.getSupportedProviders = false ->
  DatabaseFactory.validateConfig
    (Some (connection (Prim (Str provider)) (Prim (Number (int_num 0)))
                      (Mapping []) database))
  = Ok [DatabaseFactory.UnsupportedProvider (Prim (Str provider));
        DatabaseFactory.PortRequired].
Proof.
  intros Hne Hdb Hsup.
  pose proof Hsup as Hnames.
  cbn [existsb DatabaseFactory.getSupportedProviders] in Hnames.
  apply orb_false_iff in Hnames as [H1 Hnames].
  apply orb_false_iff in Hnames as [H2 Hnames].
  apply orb_false_iff in Hnames as [H3 Hnames].
  apply orb_false_iff in Hnames as [H4 Hnames].
  apply orb_false_iff in Hnames as [H5 Hnames].
  apply orb_false_iff in Hnames as [H6 _].
  unfold DatabaseFactory.validateConfig.
  change (DatabaseFactory.member
            (connection (Prim (Str provider)) (Prim (Number (int_num 0)))
                        (Mapping []) database) "provider")
    with (Some (Prim (Str provider))).
  change (DatabaseFactory.member
            (connection (Prim (Str provider)) (Prim (Number (int_num 0)))
                        (Mapping []) database) "host")
    with (Some (Prim (Str "localhost"))).
  change (DatabaseFactory.member
            (connection (Prim (Str provider)) (Prim (Number (int_num 0)))
                        (Mapping []) database) "port")
    with (Some (Prim (Number (int_num 0)))).
  change (DatabaseFactory.member
            (connection (Prim (Str provider)) (Prim (Number (int_num 0)))
                        (Mapping []) database) "username")
    with (Some (Prim (Str "your_username"))).
  change (DatabaseFactory.member
            (connection (Prim (Str provider)) (Prim (Number (int_num 0)))
                        (Mapping []) database) "password")
    with (Some (Prim (Str "your_password"))).
  change (DatabaseFactory.member
            (connection (Prim (Str provider)) (Prim (Number (int_num 0)))
                        (Mapping []) database) "database")
    with (Some (Prim (Str database))).
  cbv zeta.
  unfold DatabaseFactory.supported.
  cbn [DatabaseFactory.falsy DatabaseFactory.is_string truthy existsb
       DatabaseFactory.getSupportedProviders].
  rewrite Hne, Hdb, H1, H2, H3, H4, H5, H6.
  reflexivity.
Qed.

Lemma template_validates_unsupported (provider : string) :
  leaf_ok (Str provider) = true ->
  Object.inherited provider = false ->
  reread (Str provider) = Str provider ->
  existsb (String.eqb provider) DatabaseFactory.getSupportedProviders = false ->
  match generateConfigTemplate provider with
  | Some text => validate_loaded text
  | None => Unmodelled
  end
  = Ok ([DatabaseFactory.UnsupportedProvider (Prim (Str provider));
         DatabaseFactory.PortRequired],
        [DatabaseFactory.UnsupportedProvider (Prim (Str provider));
         DatabaseFactory.PortRequired]).
Proof.
  intros Hleaf Hinh Hread Hsup.
  assert (Hne : is_empty provider = false).
  { destruct provider; [discriminate Hleaf | reflexivity]. }
  pose proof Hsup as Hnames.
  cbn [existsb DatabaseFactory.getSupportedProviders] in Hnames.
  apply orb_false_iff in Hnames as [H1 Hnames].
  apply orb_false_iff in Hnames as [H2 Hnames].
  apply orb_false_iff in Hnames as [H3 Hnames].
  apply orb_false_iff in Hnames as [H4 Hnames].
  apply orb_false_iff in Hnames as [H5 Hnames].
  apply orb_false_iff in Hnames as [H6 _].
  assert (Hport : getDefaultPort provider = Some (Prim (Number (int_num 0)))).
  { unfold getDefaultPort, entry_or, Object.lookup, ports. cbn [Object.get].
    rewrite !(String.eqb_sym _ provider), H1, H2, H3, H4, H5, H6.
    now rewrite Hinh. }
  assert (Hopts : getProviderOptions provider = Some (Mapping [])).
  { unfold getProviderOptions, entry_or, Object.lookup, options.
    cbn [Object.get].
    rewrite !(String.eqb_sym _ provider), H1, H2, H3, H4, H5, H6.
    now rewrite Hinh. }
  unfold generateConfigTemplate. rewrite Hport, Hopts.
  unfold validate_loaded, loadConfigFromFile.
  change (parse (convertToYaml ?v)) with (decode (convertToYaml v)).
  rewrite (template_decodes provider (Number (int_num 0)) [] Hleaf
             eq_refl eq_refl eq_refl eq_refl eq_refl).
  cbn [bind]. unfold template_read. rewrite Hread.
  rewrite (loaded_template (Prim (Str provider)) (Prim (Number (int_num 0)))
             (Mapping [])).
  cbn [fst snd].
  rewrite (unsupported_connection_errors provider "your_database" Hne
             eq_refl Hsup).
  rewrite (unsupported_connection_errors provider "target_database" Hne
             eq_refl Hsup).
  reflexivity.
Qed.

End TemplateValidation.

(** X23. What executeMigrate finds when it is given a template of
    [YamlGenerator.generateConfigTemplate] as its configuration file:
    for a provider name that fits on a line, names no member of
    [Object.prototype] and is read back as the string it is, the
    configuration is loaded and [DatabaseFactory.validateConfig] reports
    no error on the source and on the target when the provider is one of
    the six supported ones; for any other provider it reports, on both,
    the unsupported provider and the port, which is 0. *)
Theorem generated_template_validates :
  forall provider : string,
    leaf_ok (Str provider) = true ->
    Object.inherited provider = false ->
    reread (Str provider) = Str provider ->
    match YamlGenerator.generateConfigTemplate provider with
    | Some text => validate_loaded text
    | None => Unmodelled
    end
    = Ok (template_errors provider, template_errors provider).
Proof.
  intros provider Hleaf Hinh Hread. unfold template_errors.
  destruct (existsb (String.eqb provider) DatabaseFactory.getSupportedProviders)
    eqn:Hsup.
  - cbn [existsb DatabaseFactory.getSupportedProviders] in Hsup.
    repeat (apply orb_true_iff in Hsup as [Hsup|Hsup];
            [apply String.eqb_eq in Hsup; subst provider;
             vm_compute; reflexivity|]).
    discriminate.
  - now apply template_validates_unsupported.
Qed.

Lemma generated_template_validates_witness :
  match YamlGenerator.generateConfigTemplate "oracle" with
  | Some text => validate_loaded text
  | None => Unmodelled
  end
  = Ok ([], []).
Proof.
  apply (generated_template_validates "oracle"); vm_compute; reflexivity.
Defined.

(** X24. A configuration file without [source] and without [migration]
    at its top level, such as the flat configuration of database, host
    and port that [YamlParser.validate] asks for, or the empty file, is
    loaded with [source] undefined, and the validation that
    executeMigrate runs next throws on reading the provider of
    [undefined] instead of reporting an error of the configuration. *)
Theorem config_without_source_throws :
  forall (doc : string) (o : Props),
    decode doc = Ok (Mapping o) ->
    Object.get o "source" = None ->
    Object.get o "migration" = None ->
    validate_loaded doc = TypeError.
Proof.
  intros doc o Hdoc Hsource Hmigration.
  unfold validate_loaded, loadConfigFromFile.
  change (parse doc) with (decode doc). rewrite Hdoc.
  cbn [bind property or_else fst]. rewrite Hsource, Hmigration.
  reflexivity.
Qed.

Lemma config_without_source_throws_witness :
  YamlParser.validate
    (Mapping [("database", Prim (Str "shop")); ("host", Prim (Str "localhost"));
              ("port", Prim (Number (int_num 5432)))]) = true
  /\ validate_loaded
       (text ["database: shop"; "host: localhost"; "port: 5432"])
     = TypeError.
Proof.
  split; [reflexivity|].
  apply (config_without_source_throws
           (text ["database: shop"; "host: localhost"; "port: 5432"])
           [("database", Prim (Str "shop")); ("host", Prim (Str "localhost"));
            ("port", Prim (Number (int_num 5432)))]);
    vm_compute; reflexivity.
Defined.

(* ===================================================================== *)
(** * The scalars of the round trip                                      *)
(* ===================================================================== *)

(** ** Strings of one class of characters *)

Section Characters.

Import Numeral.

Lemma every_app (p : ascii -> bool) (a b : string) :
  every p (a ++ b) = every p a && every p b.
Proof.
  induction a as [|c r IH]; [reflexivity|].
  cbn [append every]. now rewrite IH, andb_assoc.
Qed.

Lemma every_digits (s : string) :
  all_digits s = true -> every numeric_char s = true.
Proof.
  induction s as [|c r IH]; [reflexivity|].
  cbn [all_digits every]. intros H. apply andb_true_iff in H as [Hc Hr].
  unfold numeric_char at 1. rewrite Hc. cbn [orb andb]. now apply IH.
Qed.

Lemma every_take (p : ascii -> bool) (n : nat) :
  forall s, every p s = true -> every p (take n s) = true.
Proof.
  induction n as [|n IH]; intros [|c r] H; try reflexivity.
  cbn [every] in H. apply andb_true_iff in H as [Hc Hr].
  cbn [take every]. now rewrite Hc, IH.
Qed.

Lemma every_drop (p : ascii -> bool) (n : nat) :
  forall s, every p s = true -> every p (drop n s) = true.
Proof.
  induction n as [|n IH]; intros [|c r] H; try reflexivity; try exact H.
  cbn [every] in H. apply andb_true_iff in H as [Hc Hr].
  cbn [drop]. now apply IH.
Qed.

Lemma every_includes (p : ascii -> bool) (s : string) (c : ascii) :
  p c = false -> every p s = true -> includes s c = false.
Proof.
  intros Hc. induction s as [|a r IH]; intros H; [reflexivity|].
  cbn [every] in H. apply andb_true_iff in H as [Ha Hr].
  cbn [includes]. rewrite (IH Hr).
  destruct (Ascii.eqb a c) eqn:E; [|reflexivity].
  apply Ascii.eqb_eq in E. subst a. congruence.
Qed.

Lemma numeric_not_white (c : ascii) :
  numeric_char c = true -> is_white c = false.
Proof.
  unfold numeric_char. intros H.
  repeat (apply orb_true_iff in H as [H|H]);
    first [ now apply digit_not_white
          | apply Ascii.eqb_eq in H; subst c; reflexivity ].
Qed.

Lemma every_trimEnd (s : string) :
  every numeric_char s = true -> trimEnd s = s.
Proof.
  induction s as [|c r IH]; intros H; [reflexivity|].
  cbn [every] in H. apply andb_true_iff in H as [Hc Hr].
  cbn [trimEnd]. now rewrite (IH Hr), (numeric_not_white c Hc).
Qed.

Lemma every_trim (s : string) : every numeric_char s = true -> trim s = s.
Proof.
  intros H. unfold trim.
  assert (E : trimStart s = s).
  { destruct s as [|c r]; [reflexivity|].
    cbn [every] in H. apply andb_true_iff in H as [Hc _].
    now apply trimStart_head, numeric_not_white. }
  rewrite E. now apply every_trimEnd.
Qed.

(** A text of numeric characters is none of the keywords. *)
Lemma numeric_not_keyword (t : string) :
  every numeric_char t = true -> is_empty t = false ->
  String.eqb t "true" = false /\ String.eqb t "false" = false
  /\ String.eqb t "null" = false /\ String.eqb t "~" = false
  /\ String.eqb t "" = false.
Proof.
  intros H Hne.
  repeat split;
    (destruct (String.eqb t _) eqn:E; [|reflexivity];
     apply String.eqb_eq in E; subst t; discriminate).
Qed.

Lemma numeric_not_quoted (t : string) :
  every numeric_char t = true ->
  startsWith t (String dquote "") = false /\ startsWith t "'" = false.
Proof.
  intros H. destruct t as [|c r]; [split; reflexivity|].
  cbn [every] in H. apply andb_true_iff in H as [Hc _].
  split.
  - rewrite startsWith_cons.
    destruct (Ascii.eqb dquote c) eqn:E; [|reflexivity].
    apply Ascii.eqb_eq in E. subst c. discriminate.
  - change "'" with (String "'" ""). rewrite startsWith_cons.
    destruct (Ascii.eqb "'" c) eqn:E; [|reflexivity].
    apply Ascii.eqb_eq in E. subst c. discriminate.
Qed.

End Characters.

(** ** Decimals are printed and read back *)

Section Decimals.

Import Numeral.

Lemma digit_val_range (c : ascii) :
  is_digit c = true -> 0 <= digit_val c <= 9.
Proof.
  unfold is_digit, digit_val. set (n := nat_of_ascii c). intros H.
  apply andb_true_iff in H as [H1 H2].
  apply Nat.leb_le in H1. apply Nat.leb_le in H2. lia.
Qed.

Lemma digits_value_bound (s : string) :
  all_digits s = true ->
  forall a, 0 <= a ->
    a * 10 ^ Z.of_nat (String.length s) <= digits_value s a
    < (a + 1) * 10 ^ Z.of_nat (String.length s).
Proof.
  induction s as [|c r IH]; intros H a Ha.
  - cbn [digits_value String.length]. change (Z.of_nat 0) with 0.
    rewrite Z.pow_0_r. lia.
  - cbn [all_digits] in H. apply andb_true_iff in H as [Hc Hr].
    cbn [digits_value String.length]. rewrite Hc.
    pose proof (digit_val_range c Hc) as Hd.
    specialize (IH Hr (10 * a + digit_val c) ltac:(lia)).
    rewrite Nat2Z.inj_succ, Z.pow_succ_r by lia.
    assert (0 < 10 ^ Z.of_nat (String.length r))
      by (apply Z.pow_pos_nonneg; lia).
    nia.
Qed.

(** A number has fewer digits than the power of ten above it. *)
Lemma digits_upper (n : Z) :
  0 <= n -> n < 10 ^ Z.of_nat (String.length (digits n)).
Proof.
  intros Hn. destruct (digits_spec n Hn) as (Hall & _ & Hval & _).
  pose proof (digits_value_bound (digits n) Hall 0 ltac:(lia)) as Hb.
  rewrite Hval in Hb. lia.
Qed.

Lemma normalize_scale (sc : nat) :
  forall m, (scale (normalize m sc) <= sc)%nat.
Proof.
  induction sc as [|sc IH]; intros m; cbn [normalize].
  - cbn [scale]. lia.
  - destruct (m mod 10 =? 0); [specialize (IH (m / 10)); lia|].
    cbn [scale]. lia.
Qed.

Lemma normalize_fixed (m : Z) (sc : nat) :
  m mod 10 <> 0 -> normalize m (S sc) = mkNum m (S sc).
Proof. intros H. cbn [normalize]. apply Z.eqb_neq in H. now rewrite H. Qed.

Lemma normalized_eq (n : Num) :
  normalized n = true -> normalize (mant n) (scale n) = n.
Proof.
  unfold normalized, num_eqb. destruct n as [m sc]. cbn [mant scale].
  destruct (normalize m sc) as [m' sc']. cbn [mant scale]. intros H.
  apply andb_true_iff in H as [H1 H2].
  apply Z.eqb_eq in H1. apply Nat.eqb_eq in H2. now subst.
Qed.

Lemma normalized_fraction (m : Z) (sc : nat) :
  normalized (mkNum m (S sc)) = true -> m mod 10 <> 0.
Proof.
  intros H E. apply normalized_eq in H. cbn [mant scale normalize] in H.
  apply Z.eqb_eq in E. rewrite E in H.
  pose proof (normalize_scale sc (m / 10)) as Hs.
  rewrite H in Hs. cbn [scale] in Hs. lia.
Qed.

(** [parseInt] and [parseFloat] return normalized numbers. *)
Lemma normalize_normalized (sc : nat) :
  forall m, normalized (normalize m sc) = true.
Proof.
  induction sc as [|sc IH]; intros m; cbn [normalize].
  - unfold normalized, num_eqb. cbn [mant scale normalize].
    now rewrite Z.eqb_refl.
  - destruct (m mod 10 =? 0) eqn:E; [apply IH|].
    unfold normalized. cbn [mant scale normalize]. rewrite E.
    unfold num_eqb. cbn [mant scale]. now rewrite Z.eqb_refl, Nat.eqb_refl.
Qed.

Lemma take_drop (n : nat) : forall s, take n s ++ drop n s = s.
Proof.
  induction n as [|n IH]; intros [|c r]; try reflexivity.
  cbn [take drop append]. now rewrite IH.
Qed.

Lemma length_drop (n : nat) :
  forall s, String.length (drop n s) = (String.length s - n)%nat.
Proof.
  induction n as [|n IH]; intros [|c r]; try reflexivity.
  cbn [drop String.length]. now rewrite IH.
Qed.

Lemma length_zeros (z : nat) : String.length (zeros z) = z.
Proof.
  induction z as [|z IH]; [reflexivity|].
  cbn [zeros String.length]. now rewrite IH.
Qed.

Lemma all_digits_take (n : nat) :
  forall s, all_digits s = true -> all_digits (take n s) = true.
Proof.
  induction n as [|n IH]; intros [|c r] H; try reflexivity.
  cbn [all_digits] in H. apply andb_true_iff in H as [Hc Hr].
  cbn [take all_digits]. now rewrite Hc, IH.
Qed.

Lemma all_digits_drop (n : nat) :
  forall s, all_digits s = true -> all_digits (drop n s) = true.
Proof.
  induction n as [|n IH]; intros [|c r] H; try reflexivity; try exact H.
  cbn [all_digits] in H. apply andb_true_iff in H as [Hc Hr].
  cbn [drop]. now apply IH.
Qed.

Lemma digit_not (c x : ascii) :
  is_digit c = true -> is_digit x = false -> Ascii.eqb c x = false.
Proof.
  intros Hc Hx. destruct (Ascii.eqb c x) eqn:E; [|reflexivity].
  apply Ascii.eqb_eq in E. subst x. congruence.
Qed.

Lemma split_dot_digits (a b : string) :
  all_digits a = true -> split_dot (a ++ String dot b) = Some (a, b).
Proof.
  induction a as [|c r IH]; intros H.
  - reflexivity.
  - cbn [all_digits] in H. apply andb_true_iff in H as [Hc Hr].
    cbn [append split_dot].
    rewrite (digit_not c dot Hc eq_refl), (IH Hr). reflexivity.
Qed.

Lemma split_dot_some (s a b : string) :
  split_dot s = Some (a, b) -> s = a ++ String dot b.
Proof.
  revert a b. induction s as [|c r IH]; intros a b H; [discriminate|].
  cbn [split_dot] in H. destruct (Ascii.eqb c dot) eqn:E.
  - apply Ascii.eqb_eq in E. subst c. now inversion H.
  - destruct (split_dot r) as [[a' b']|]; [|discriminate].
    inversion H; subst. cbn [append]. now rewrite (IH a' b eq_refl).
Qed.

(** A text made of an optional minus sign, digits, a dot and digits is
    read as the decimal it denotes. *)
Lemma decimal_reads_back (neg : bool) (ip fp : string) :
  all_digits ip = true -> all_digits fp = true -> is_empty fp = false ->
  let v := digits_value fp (digits_value ip 0) in
  let t := if neg then String dash (ip ++ String dot fp)
           else ip ++ String dot fp in
  parseValue t = Number (normalize (if neg then - v else v) (String.length fp)).
Proof.
  intros Hip Hfp Hne v t.
  set (body := ip ++ String dot fp).
  assert (Hbody : every numeric_char body = true).
  { subst body. rewrite every_app, (every_digits ip Hip).
    cbn [every andb]. change (numeric_char dot) with true.
    cbn [andb]. now apply every_digits. }
  assert (Hev : every numeric_char t = true).
  { subst t. destruct neg; [|exact Hbody].
    cbn [every]. fold body. now rewrite Hbody. }
  assert (Hte : is_empty t = false).
  { subst t body. destruct neg; [reflexivity|]. now destruct ip. }
  assert (Hstrip : strip_sign t = (neg, body)).
  { subst t. destruct neg; [reflexivity|]. fold body.
    subst body. destruct ip as [|c r]; [reflexivity|].
    cbn [all_digits] in Hip. apply andb_true_iff in Hip as [Hc _].
    cbn [append strip_sign]. now rewrite (digit_not c dash Hc eq_refl). }
  assert (Hint : is_int_literal t = false).
  { unfold is_int_literal. rewrite Hstrip. cbn [snd]. subst body.
    rewrite all_digits_app. cbn [all_digits].
    change (is_digit dot) with false. cbn [andb].
    now rewrite !andb_false_r. }
  assert (Hfloat : is_float_literal t = true).
  { unfold is_float_literal. rewrite Hstrip. cbn [snd]. subst body.
    rewrite (split_dot_digits ip fp Hip). now rewrite Hip, Hfp, Hne. }
  destruct (numeric_not_keyword t Hev Hte) as (K1 & K2 & K3 & K4 & K5).
  unfold parseValue. rewrite K1, K2, K3, K4, K5. cbn [orb].
  rewrite Hint, Hfloat. unfold parseFloat. rewrite Hstrip. subst body.
  now rewrite (split_dot_digits ip fp Hip).
Qed.

(** The text of a positive decimal with a fraction, of magnitude at
    least 10^-6 and below 10^21: digits, a dot, and as many digits as
    the scale. *)
Lemma toString_pos_fraction (m : Z) (sc : nat) :
  0 < m -> m mod 10 <> 0 ->
  10 ^ Z.of_nat (S sc) <= m * 10 ^ 6 ->
  m < 10 ^ (21 + Z.of_nat (S sc)) ->
  exists ip fp,
    toString_pos m (S sc) = ip ++ String dot fp
    /\ all_digits ip = true /\ all_digits fp = true
    /\ String.length fp = S sc
    /\ digits_value fp (digits_value ip 0) = m.
Proof.
  intros Hm Hmod Hlo Hhi. unfold toString_pos.
  assert (Hsz : strip_zeros (S (Z.to_nat (Z.log2 m))) m 0 = (m, 0%nat)).
  { cbn [strip_zeros]. apply Z.eqb_neq in Hmod. now rewrite Hmod. }
  rewrite Hsz.
  destruct (digits_spec m ltac:(lia)) as (Hall & Hne & Hval & Hlow).
  specialize (Hlow Hm). pose proof (digits_upper m ltac:(lia)) as Hup.
  pose proof (Hval 0) as Hv0. rewrite Z.mul_0_l, Z.add_0_l in Hv0.
  assert (Hk : (1 <= String.length (digits m))%nat).
  { destruct (digits m); [discriminate|]. cbn [String.length]. lia. }
  set (ds := digits m) in *.
  set (k := Z.of_nat (String.length ds)) in *.
  assert (Hkz : 1 <= k) by (subst k; lia).
  assert (Hn1 : k - Z.of_nat (S sc) <= 21).
  { assert (Hp : 10 ^ (k - 1) < 10 ^ (21 + Z.of_nat (S sc))) by lia.
    apply Z.pow_lt_mono_r_iff in Hp; lia. }
  assert (Hn2 : -6 < k - Z.of_nat (S sc)).
  { assert (Hp : 10 ^ Z.of_nat (S sc) < 10 ^ (k + 6)).
    { rewrite Z.pow_add_r by lia. change (10 ^ 6) with 1000000 in *. lia. }
    apply Z.pow_lt_mono_r_iff in Hp; lia. }
  change (Z.of_nat 0) with 0. rewrite Z.add_0_r.
  set (n := k - Z.of_nat (S sc)) in *.
  assert (E1 : (k <=? n) = false) by (apply Z.leb_gt; subst n; lia).
  assert (E3 : (n <=? 21) = true) by (apply Z.leb_le; lia).
  rewrite E1, E3. cbn [andb].
  destruct (0 <? n) eqn:E2.
  - apply Z.ltb_lt in E2. cbn [andb].
    exists (take (Z.to_nat n) ds), (drop (Z.to_nat n) ds).
    split; [reflexivity|].
    split; [now apply all_digits_take|].
    split; [now apply all_digits_drop|].
    split; [rewrite length_drop; subst n k; lia|].
    rewrite <- digits_value_app by (now apply all_digits_take).
    now rewrite take_drop.
  - apply Z.ltb_ge in E2. cbn [andb].
    assert (E4 : (-6 <? n) = true) by (apply Z.ltb_lt; lia).
    assert (E5 : (n <=? 0) = true) by (apply Z.leb_le; lia).
    rewrite E4, E5. cbn [andb].
    exists "0", (zeros (Z.to_nat (- n)) ++ ds).
    split; [reflexivity|].
    split; [reflexivity|].
    split; [now rewrite all_digits_app, all_digits_zeros|].
    split; [rewrite length_append, length_zeros; subst n k; lia|].
    change (digits_value "0" 0) with 0.
    rewrite digits_value_app by apply all_digits_zeros.
    rewrite digits_value_zeros, Z.mul_0_l. exact Hv0.
Qed.

(** Outside that range the text holds an exponent. *)
Lemma toString_pos_exponent (m : Z) (sc : nat) :
  0 < m ->
  (10 ^ Z.of_nat sc <=? m * 10 ^ 6) && (m <? 10 ^ (21 + Z.of_nat sc)) = false ->
  includes (toString_pos m sc) "e" = true.
Proof.
  intros Hm Hout. unfold toString_pos.
  destruct (strip_zeros_spec (S (Z.to_nat (Z.log2 m))) m 0 ltac:(lia))
    as (Hs & Hv & _).
  destruct (strip_zeros (S (Z.to_nat (Z.log2 m))) m 0) as [s z].
  cbn [fst snd] in *. change (Z.of_nat 0) with 0 in Hv. rewrite Z.sub_0_r in Hv.
  destruct (digits_spec s ltac:(lia)) as (Hall & Hne & Hval & Hlow).
  specialize (Hlow Hs). pose proof (digits_upper s ltac:(lia)) as Hup.
  assert (Hk : (1 <= String.length (digits s))%nat).
  { destruct (digits s); [discriminate|]. cbn [String.length]. lia. }
  set (ds := digits s) in *.
  set (k := Z.of_nat (String.length ds)) in *.
  assert (Hkz : 1 <= k) by (subst k; lia).
  set (n := k + Z.of_nat z - Z.of_nat sc).
  assert (Hz : 0 < 10 ^ Z.of_nat z) by (apply Z.pow_pos_nonneg; lia).
  assert (Hrange : 21 < n \/ n <= -6).
  { apply andb_false_iff in Hout as [Hout|Hout].
    - right. apply Z.leb_gt in Hout.
      assert (Hp : 10 ^ (k - 1 + Z.of_nat z + 6) < 10 ^ Z.of_nat sc).
      { rewrite !Z.pow_add_r by lia. change (10 ^ 6) with 1000000 in *. nia. }
      apply Z.pow_lt_mono_r_iff in Hp; subst n; lia.
    - left. apply Z.ltb_ge in Hout.
      assert (Hp : 10 ^ (21 + Z.of_nat sc) < 10 ^ (k + Z.of_nat z)).
      { rewrite (Z.pow_add_r 10 k) by lia. nia. }
      apply Z.pow_lt_mono_r_iff in Hp; subst n; lia. }
  assert (E1 : (k <=? n) && (n <=? 21) = false).
  { destruct Hrange; [apply andb_false_iff; right; apply Z.leb_gt; lia|].
    apply andb_false_iff; left; apply Z.leb_gt; lia. }
  assert (E2 : (0 <? n) && (n <=? 21) = false).
  { destruct Hrange; [apply andb_false_iff; right; apply Z.leb_gt; lia|].
    apply andb_false_iff; left; apply Z.ltb_ge; lia. }
  assert (E3 : (-6 <? n) && (n <=? 0) = false).
  { destruct Hrange; [apply andb_false_iff; right; apply Z.leb_gt; lia|].
    apply andb_false_iff; left; apply Z.ltb_ge; lia. }
  fold n. rewrite E1, E2, E3.
  rewrite includes_app. apply orb_true_iff. right. reflexivity.
Qed.

(** The text of a positive number starts with a digit and is made of
    numeric characters. *)
Lemma toString_pos_chars (m : Z) (sc : nat) :
  0 < m ->
  every numeric_char (toString_pos m sc) = true
  /\ exists c r, toString_pos m sc = String c r /\ is_digit c = true.
Proof.
  intros Hm. unfold toString_pos.
  destruct (strip_zeros_spec (S (Z.to_nat (Z.log2 m))) m 0 ltac:(lia))
    as (Hs & _ & _).
  destruct (strip_zeros (S (Z.to_nat (Z.log2 m))) m 0) as [s z].
  cbn [fst snd] in *.
  destruct (digits_spec s ltac:(lia)) as (Hall & Hne & _ & _).
  pose proof (every_digits _ Hall) as Hev.
  destruct (digits s) as [|c r] eqn:Eds; [discriminate|].
  pose proof Hall as Hc. cbn [all_digits] in Hc.
  apply andb_true_iff in Hc as [Hc _].
  set (ds := String c r) in *.
  set (k := Z.of_nat (String.length ds)).
  set (n := k + Z.of_nat z - Z.of_nat sc).
  destruct ((k <=? n) && (n <=? 21)) eqn:E1.
  { split.
    - rewrite every_app, Hev. cbn [andb].
      apply every_digits, all_digits_zeros.
    - subst ds. cbn [append]. eauto. }
  destruct ((0 <? n) && (n <=? 21)) eqn:E2.
  { apply andb_true_iff in E2 as [E2 _]. apply Z.ltb_lt in E2.
    split.
    - rewrite every_app, (every_take numeric_char _ ds Hev).
      cbn [andb every]. change (numeric_char dot) with true. cbn [andb].
      now apply every_drop.
    - destruct (Z.to_nat n) as [|n'] eqn:En; [lia|].
      subst ds. cbn [take append]. eauto. }
  destruct ((-6 <? n) && (n <=? 0)) eqn:E3.
  { split; [|eauto].
    cbn [every]. change (numeric_char "0") with true.
    change (numeric_char dot) with true. cbn [andb].
    rewrite every_app, Hev, andb_true_r.
    apply every_digits, all_digits_zeros. }
  assert (Hhead : every numeric_char
                    (if k =? 1 then ds
                     else take 1 ds ++ String dot (drop 1 ds)) = true
                  /\ exists r', (if k =? 1 then ds
                                 else take 1 ds ++ String dot (drop 1 ds))
                                = String c r').
  { destruct (k =? 1).
    - split; [exact Hev | subst ds; eauto].
    - split.
      + rewrite every_app, (every_take numeric_char 1 ds Hev).
        cbn [andb every]. change (numeric_char dot) with true. cbn [andb].
        now apply every_drop.
      + subst ds. cbn [take append]. eauto. }
  destruct Hhead as (Hh & r' & Er).
  split.
  - rewrite every_app, Hh. cbn [andb].
    change ("e" ++ (if 0 <=? n - 1 then "+" else "-") ++ digits (Z.abs (n - 1)))
      with (String "e" ((if 0 <=? n - 1 then "+" else "-")
                        ++ digits (Z.abs (n - 1)))).
    cbn [every]. change (numeric_char "e") with true. cbn [andb].
    rewrite every_app.
    destruct (digits_spec (Z.abs (n - 1)) (Z.abs_nonneg _)) as (Ha & _).
    rewrite (every_digits _ Ha), andb_true_r.
    now destruct (0 <=? n - 1).
  - rewrite Er. cbn [append]. eauto.
Qed.

(** What [toString] prints is made of numeric characters. *)
Lemma toString_chars (n : Num) :
  every numeric_char (toString n) = true /\ is_empty (toString n) = false.
Proof.
  unfold toString.
  destruct (mant (normalize (mant n) (scale n)) =? 0) eqn:E0;
    [split; reflexivity|].
  apply Z.eqb_neq in E0.
  destruct (mant (normalize (mant n) (scale n)) <? 0) eqn:E1.
  - apply Z.ltb_lt in E1.
    destruct (toString_pos_chars (- mant (normalize (mant n) (scale n)))
                (scale (normalize (mant n) (scale n))) ltac:(lia))
      as (Hev & _).
    split; [|reflexivity]. cbn [every]. now rewrite Hev.
  - apply Z.ltb_ge in E1.
    destruct (toString_pos_chars (mant (normalize (mant n) (scale n)))
                (scale (normalize (mant n) (scale n))) ltac:(lia))
      as (Hev & c & r & Er & _).
    split; [exact Hev|]. now rewrite Er.
Qed.

(** Every number is printed on one line. *)
Lemma number_leaf_ok (n : Num) : leaf_ok (Number n) = true.
Proof.
  unfold leaf_ok. cbn [formatValue].
  destruct (toString_chars n) as [Hev Hne].
  rewrite Hne, (every_trim _ Hev), String.eqb_refl.
  now rewrite (every_includes numeric_char _ nl eq_refl Hev).
Qed.

Lemma mod_opp_nonzero (m : Z) : m mod 10 <> 0 -> (- m) mod 10 <> 0.
Proof.
  intros H E. apply H.
  replace m with (- - m) by lia. apply Z.mod_opp_l_z; [lia | exact E].
Qed.

(** A normalized number that is printed in plain notation is read back
    as itself. *)
Lemma plain_number_stable (n : Num) :
  normalized n = true -> plain_notation n = true ->
  reread (Number n) = Number n.
Proof.
  destruct n as [m [|sc]]; intros Hnorm Hplain.
  - unfold plain_notation in Hplain. cbn [mant scale] in Hplain.
    change (Z.of_nat 0) with 0 in Hplain. rewrite Z.add_0_r in Hplain.
    apply (integer_leaf m).
    apply orb_true_iff in Hplain as [H|H].
    + apply Z.eqb_eq in H. subst m. reflexivity.
    + apply andb_true_iff in H as [_ H]. now apply Z.ltb_lt in H.
  - pose proof (normalized_fraction m sc Hnorm) as Hmod.
    assert (Hm0 : m <> 0) by (intros ->; now apply Hmod).
    unfold plain_notation in Hplain. cbn [mant scale] in Hplain.
    apply orb_true_iff in Hplain as [H|H]; [apply Z.eqb_eq in H; lia|].
    apply andb_true_iff in H as [Hlo Hhi].
    apply Z.leb_le in Hlo. apply Z.ltb_lt in Hhi.
    unfold reread. cbn [formatValue]. unfold toString.
    rewrite (normalized_eq _ Hnorm). cbn [mant scale].
    apply Z.eqb_neq in Hm0. rewrite Hm0. apply Z.eqb_neq in Hm0.
    destruct (m <? 0) eqn:Eneg.
    + apply Z.ltb_lt in Eneg. rewrite Z.abs_neq in Hlo, Hhi by lia.
      destruct (toString_pos_fraction (- m) sc ltac:(lia)
                  (mod_opp_nonzero m Hmod) Hlo Hhi)
        as (ip & fp & Et & Hip & Hfp & Hlen & Hv).
      rewrite Et.
      assert (Hne : is_empty fp = false) by (now destruct fp).
      pose proof (decimal_reads_back true ip fp Hip Hfp Hne) as Hp.
      cbv zeta in Hp. rewrite Hp, Hv, Hlen, Z.opp_involutive.
      now rewrite (normalize_fixed m sc Hmod).
    + apply Z.ltb_ge in Eneg. rewrite Z.abs_eq in Hlo, Hhi by lia.
      destruct (toString_pos_fraction m sc ltac:(lia) Hmod Hlo Hhi)
        as (ip & fp & Et & Hip & Hfp & Hlen & Hv).
      rewrite Et.
      assert (Hne : is_empty fp = false) by (now destruct fp).
      pose proof (decimal_reads_back false ip fp Hip Hfp Hne) as Hp.
      cbv zeta in Hp. rewrite Hp, Hv, Hlen.
      now rewrite (normalize_fixed m sc Hmod).
Qed.

(** A text of numeric characters with an exponent is read as a string. *)
Lemma exponent_text_is_string (t : string) :
  every numeric_char t = true -> is_empty t = false ->
  includes t "e" = true ->
  parseValue t = Str t.
Proof.
  intros Hev Hne He.
  assert (Hbody : includes (snd (strip_sign t)) "e" = true).
  { destruct t as [|c r]; [discriminate|]. cbn [strip_sign].
    destruct (Ascii.eqb c dash) eqn:E; [|exact He].
    apply Ascii.eqb_eq in E. subst c. exact He. }
  assert (Hint : is_int_literal t = false).
  { unfold is_int_literal.
    destruct (all_digits (snd (strip_sign t))) eqn:E;
      [|now rewrite andb_false_r].
    rewrite (all_digits_includes _ "e" eq_refl E) in Hbody. discriminate. }
  assert (Hfloat : is_float_literal t = false).
  { unfold is_float_literal.
    destruct (split_dot (snd (strip_sign t))) as [[ip fp]|] eqn:E;
      [|reflexivity].
    apply split_dot_some in E. rewrite E, includes_app in Hbody.
    cbn [includes] in Hbody. change (Ascii.eqb dot "e") with false in Hbody.
    cbn [orb] in Hbody.
    destruct (all_digits ip) eqn:Eip; [|reflexivity].
    destruct (all_digits fp) eqn:Efp; [|now rewrite andb_false_r].
    rewrite (all_digits_includes _ "e" eq_refl Eip) in Hbody.
    rewrite (all_digits_includes _ "e" eq_refl Efp) in Hbody.
    discriminate. }
  destruct (numeric_not_keyword t Hev Hne) as (K1 & K2 & K3 & K4 & K5).
  destruct (numeric_not_quoted t Hev) as [Q1 Q2].
  unfold parseValue. rewrite K1, K2, K3, K4, K5. cbn [orb].
  now rewrite Hint, Hfloat, Q1, Q2.
Qed.

(** A number that is printed with an exponent is read back as the
    string of its text. *)
Lemma exponent_number_reread (n : Num) :
  normalized n = true -> plain_notation n = false ->
  reread (Number n) = Str (Numeral.toString n).
Proof.
  intros Hnorm Hplain. unfold reread. cbn [formatValue].
  destruct (toString_chars n) as [Hev Hne].
  apply exponent_text_is_string; [exact Hev | exact Hne |].
  unfold toString. rewrite (normalized_eq _ Hnorm).
  unfold plain_notation in Hplain.
  apply orb_false_iff in Hplain as [H0 Hout]. rewrite H0.
  apply Z.eqb_neq in H0.
  destruct (mant n <? 0) eqn:Eneg.
  - apply Z.ltb_lt in Eneg. rewrite Z.abs_neq in Hout by lia.
    cbn [includes]. change (Ascii.eqb dash "e") with false. cbn [orb].
    apply toString_pos_exponent; [lia | exact Hout].
  - apply Z.ltb_ge in Eneg. rewrite Z.abs_eq in Hout by lia.
    apply toString_pos_exponent; [lia | exact Hout].
Qed.

End Decimals.

(** ** The classes of scalars, exactly *)

Section ScalarClasses.

Import Numeral.

(** The simple scalars fit on a line and are read back as themselves. *)
Lemma simple_scalar_ok (s : Scalar) :
  simple_scalar s = true -> leaf_ok s = true /\ reread s = s.
Proof.
  destruct s as [|b|n|x]; cbn [simple_scalar]; intros H.
  - split; reflexivity.
  - destruct b; split; reflexivity.
  - apply andb_true_iff in H as [Hn Hp].
    split; [apply number_leaf_ok | now apply plain_number_stable].
  - apply orb_true_iff in H as [H|H].
    + now apply bare_string_ok.
    + unfold quotable_string in H.
      repeat rewrite andb_true_iff in H. repeat rewrite negb_true_iff in H.
      destruct H as ((Hq & Hd) & Hn).
      now destruct (needs_quotes_parts x Hd Hn Hq) as (_ & Hl & Hr).
Qed.

Lemma parseValue_number_normalized (t : string) (n : Num) :
  parseValue t = Number n -> normalized n = true.
Proof.
  unfold parseValue.
  destruct (String.eqb t "true"); [discriminate|].
  destruct (String.eqb t "false"); [discriminate|].
  destruct (String.eqb t "null" || String.eqb t "~"); [discriminate|].
  destruct (String.eqb t ""); [discriminate|].
  destruct (is_int_literal t).
  { intros H. inversion H. unfold parseInt.
    destruct (strip_sign t) as [neg body]. unfold int_num, normalized, num_eqb.
    cbn [mant scale normalize]. now rewrite Z.eqb_refl. }
  destruct (is_float_literal t).
  { intros H. inversion H. unfold parseFloat.
    destruct (strip_sign t) as [neg body].
    destruct (split_dot body) as [[ip fp]|]; [apply normalize_normalized|].
    reflexivity. }
  destruct (_ || _); discriminate.
Qed.

Lemma length_dropLast (s : string) :
  (String.length (dropLast s) <= String.length s)%nat.
Proof.
  induction s as [|c r IH]; [reflexivity|].
  cbn [dropLast]. destruct (is_empty r); cbn [String.length]; lia.
Qed.

Lemma length_slice (x : string) :
  is_empty x = false ->
  (String.length (slice_1_m1 x) < String.length x)%nat.
Proof.
  destruct x as [|c r]; [discriminate|]. intros _.
  unfold slice_1_m1. cbn [drop String.length].
  pose proof (length_dropLast r). lia.
Qed.

Lemma slice_not_fixed (x : string) :
  is_empty x = false -> slice_1_m1 x <> x.
Proof.
  intros Hne E. pose proof (length_slice x Hne) as H.
  rewrite E in H. lia.
Qed.

Lemma escape_fixed (s : string) :
  String.length (escape_quotes s) = String.length s ->
  includes s dquote = false.
Proof.
  intros E. destruct (includes s dquote) eqn:H; [|reflexivity].
  destruct (length_escape_quotes s) as [_ Hlt]. specialize (Hlt H). lia.
Qed.

Lemma includes_escape (s : string) (c : ascii) :
  Ascii.eqb backslash c = false ->
  includes (escape_quotes s) c = includes s c.
Proof.
  intros Hb. induction s as [|a r IH]; [reflexivity|].
  cbn [escape_quotes]. destruct (Ascii.eqb a dquote) eqn:E.
  - apply Ascii.eqb_eq in E. subst a.
    cbn [includes]. now rewrite Hb, IH.
  - cbn [includes]. now rewrite IH.
Qed.

(** The quoted form of a string: what fits on a line, and the string it
    is read back as. *)
Lemma quoted_string_parts (x : string) :
  needs_quotes x = true -> leaf_ok (Str x) = true ->
  formatValue (Str x) = String dquote (escape_quotes x ++ String dquote "")
  /\ reread (Str x) = Str (escape_quotes x)
  /\ includes x nl = false.
Proof.
  intros Hq Hl.
  assert (Hf : formatValue (Str x)
               = String dquote (escape_quotes x ++ String dquote ""))
    by (cbn [formatValue]; now rewrite Hq).
  split; [exact Hf|]. split.
  - unfold reread. rewrite Hf. apply parseValue_quoted.
  - destruct (leaf_ok_parts _ Hl) as (_ & _ & Hn). rewrite Hf in Hn.
    cbn [includes] in Hn. apply orb_false_iff in Hn as [_ Hn].
    rewrite includes_app in Hn. apply orb_false_iff in Hn as [Hn _].
    now rewrite includes_escape in Hn by reflexivity.
Qed.

Lemma parseValue_reading (x : string) :
  is_empty x = false -> bare_reading x (parseValue x).
Proof.
  intros Hne. unfold parseValue.
  destruct (String.eqb x "true") eqn:K1;
    [apply String.eqb_eq in K1; now constructor|].
  destruct (String.eqb x "false") eqn:K2;
    [apply String.eqb_eq in K2; now constructor|].
  destruct (String.eqb x "null") eqn:K3;
    [apply String.eqb_eq in K3; now constructor|].
  destruct (String.eqb x "~") eqn:K4;
    [apply String.eqb_eq in K4; now apply reads_tilde|].
  cbn [orb]. rewrite eqb_empty, Hne.
  assert (Hk : keyword x = false)
    by (unfold keyword; now rewrite K1, K2, K3, K4).
  destruct (is_int_literal x) eqn:Hi.
  { replace (parseInt x) with (read_number x)
      by (unfold read_number; now rewrite Hi).
    apply reads_number; [exact Hk | unfold numeral; now rewrite Hi]. }
  destruct (is_float_literal x) eqn:Hf.
  { replace (parseFloat x) with (read_number x)
      by (unfold read_number; now rewrite Hi).
    apply reads_number; [exact Hk | unfold numeral; now rewrite Hi, Hf]. }
  assert (Hn : numeral x = false) by (unfold numeral; now rewrite Hi, Hf).
  fold (quote_wrapped x).
  destruct (quote_wrapped x) eqn:Hw; now constructor.
Qed.

(** A scalar that fits on a line and is read back as itself is a simple
    scalar. *)
Lemma stable_is_simple (s : Scalar) :
  leaf_ok s = true -> reread s = s -> simple_scalar s = true.
Proof.
  destruct s as [|b|n|x]; intros Hl Hr; try reflexivity.
  - cbn [simple_scalar].
    pose proof (parseValue_number_normalized _ _ Hr) as Hn. rewrite Hn.
    destruct (plain_notation n) eqn:Hp; [reflexivity|].
    rewrite (exponent_number_reread n Hn Hp) in Hr. discriminate.
  - cbn [simple_scalar]. destruct (needs_quotes x) eqn:Hq.
    + destruct (quoted_string_parts x Hq Hl) as (_ & Hre & Hnl).
      rewrite Hre in Hr.
      assert (E : escape_quotes x = x) by congruence.
      assert (Hd : includes x dquote = false)
        by (apply escape_fixed; now rewrite E).
      apply orb_true_iff. right. unfold quotable_string.
      now rewrite Hq, Hd, Hnl.
    + destruct (leaf_ok_parts _ Hl) as (Hne & Ht & _).
      cbn [formatValue] in Hne, Ht. rewrite Hq in Hne, Ht.
      unfold reread in Hr. cbn [formatValue] in Hr. rewrite Hq in Hr.
      apply orb_true_iff. left. unfold bare_string.
      rewrite Hq, Hne, Ht, String.eqb_refl. cbn [negb andb].
      pose proof (parseValue_reading x Hne) as Hb. rewrite Hr in Hb.
      inversion Hb as [| | | | | Hk Hn Hw E | Hk Hn Hw].
      * exfalso. apply (slice_not_fixed x Hne). congruence.
      * unfold numeral in Hn. apply orb_false_iff in Hn as [Hi Hf].
        now rewrite Hk, Hi, Hf, Hw.
Qed.

(** A positive number is printed, once read back, as it was printed:
    read back as itself in plain notation, and as the string of its
    text otherwise. *)
Lemma positive_number_reprints (n : Num) :
  normalized n = true -> 0 < mant n ->
  formatValue (reread (Number n)) = formatValue (Number n).
Proof.
  intros Hn Hpos.
  destruct (plain_notation n) eqn:Hp;
    [now rewrite (plain_number_stable n Hn Hp)|].
  rewrite (exponent_number_reread n Hn Hp). cbn [formatValue].
  destruct (toString_chars n) as [Hev _].
  assert (Hq : needs_quotes (toString n) = false).
  { unfold needs_quotes.
    rewrite (every_includes numeric_char _ colon eq_refl Hev).
    rewrite (every_includes numeric_char _ hash eq_refl Hev).
    rewrite (every_includes numeric_char _ nl eq_refl Hev). cbn [orb].
    unfold toString in *. rewrite (normalized_eq _ Hn) in *.
    assert (E0 : (mant n =? 0) = false) by (apply Z.eqb_neq; lia).
    assert (E1 : (mant n <? 0) = false) by (apply Z.ltb_ge; lia).
    rewrite E0, E1 in *.
    destruct (toString_pos_chars (mant n) (scale n) Hpos)
      as (_ & c & r & Er & Hc).
    rewrite Er.
    change "-" with (String dash ""). change "[" with (String "[" "").
    change "{" with (String "{" ""). rewrite !startsWith_cons.
    rewrite (Ascii.eqb_sym dash), (digit_not c dash Hc eq_refl).
    rewrite (Ascii.eqb_sym "["), (digit_not c "[" Hc eq_refl).
    rewrite (Ascii.eqb_sym "{"), (digit_not c "{" Hc eq_refl).
    reflexivity. }
  now rewrite Hq.
Qed.

(** A negative number that is printed with an exponent is read back as
    a string that is printed between quotes. *)
Lemma negative_exponent_number_changes (n : Num) :
  normalized n = true -> plain_notation n = false -> mant n < 0 ->
  formatValue (reread (Number n)) <> formatValue (Number n).
Proof.
  intros Hn Hp Hneg.
  rewrite (exponent_number_reread n Hn Hp). cbn [formatValue].
  unfold toString. rewrite (normalized_eq _ Hn).
  assert (E0 : (mant n =? 0) = false) by (apply Z.eqb_neq; lia).
  assert (E1 : (mant n <? 0) = true) by (apply Z.ltb_lt; lia).
  rewrite E0, E1.
  assert (Hq : needs_quotes (String dash (toString_pos (- mant n) (scale n)))
               = true).
  { unfold needs_quotes. change "-" with (String dash "").
    rewrite startsWith_cons. change (Ascii.eqb dash dash) with true.
    cbn [andb startsWith]. now rewrite !orb_true_r. }
  rewrite Hq. discriminate.
Qed.

(** A numeral that is printed bare and printed again from the number it
    denotes. *)
Lemma numeral_string_ok (x : string) :
  needs_quotes x = false -> numeral x = true ->
  toString (read_number x) = x ->
  leaf_ok (Str x) = true /\ reread (Str x) = Number (read_number x).
Proof.
  intros Hq Hn Hp.
  destruct (toString_chars (read_number x)) as [Hev Hne].
  rewrite Hp in Hev, Hne.
  split.
  - unfold leaf_ok. cbn [formatValue]. rewrite Hq.
    rewrite Hne, (every_trim _ Hev), String.eqb_refl.
    now rewrite (every_includes numeric_char _ nl eq_refl Hev).
  - unfold reread. cbn [formatValue]. rewrite Hq.
    pose proof (parseValue_reading x Hne) as Hb.
    destruct (numeric_not_keyword x Hev Hne) as (K1 & K2 & K3 & K4 & _).
    inversion Hb as [E|E|E|E|Hk Hn' E|Hk Hn' Hw E|Hk Hn' Hw E];
      try (subst x; discriminate); try congruence.
Qed.

Lemma relabelled_string_ok (x : string) :
  relabelled_string x = true ->
  leaf_ok (Str x) = true
  /\ formatValue (reread (Str x)) = formatValue (Str x).
Proof.
  unfold relabelled_string. intros H.
  repeat (apply orb_true_iff in H as [H|H]);
    try (apply String.eqb_eq in H; subst x; split; reflexivity).
  repeat rewrite andb_true_iff in H. rewrite negb_true_iff in H.
  destruct H as (((Hq & Hn) & _) & Hp). apply String.eqb_eq in Hp.
  destruct (numeral_string_ok x Hq Hn Hp) as [Hl Hr].
  split; [exact Hl|]. rewrite Hr. cbn [formatValue]. now rewrite Hq.
Qed.

Lemma requoted_string_ok (x : string) :
  requoted_string x = true ->
  leaf_ok (Str x) = true
  /\ formatValue (reread (Str x)) = formatValue (Str x).
Proof.
  unfold requoted_string. intros H.
  repeat rewrite andb_true_iff in H. repeat rewrite negb_true_iff in H.
  destruct H as (((Hq & Ex) & Hqi) & Hd). apply String.eqb_eq in Ex.
  set (inner := slice_1_m1 x) in *.
  assert (Hf : formatValue (Str x) = x) by (cbn [formatValue]; now rewrite Hq).
  assert (Hr : reread (Str x) = Str inner).
  { unfold reread. rewrite Hf, Ex. apply parseValue_quoted. }
  split.
  - unfold leaf_ok. rewrite Hf.
    assert (Ht : trim x = x).
    { rewrite Ex. unfold trim. rewrite trimStart_head by reflexivity.
      change (String dquote (inner ++ String dquote ""))
        with (String dquote inner ++ String dquote "").
      rewrite trimEnd_app; reflexivity. }
    rewrite Ht, String.eqb_refl, (needs_quotes_nl x Hq).
    rewrite Ex. reflexivity.
  - rewrite Hr, Hf. cbn [formatValue]. rewrite Hqi.
    rewrite (escape_quotes_none inner Hd). now symmetry.
Qed.

(** The reprintable scalars fit on a line and are printed, once read
    back, as they were printed. *)
Lemma reprintable_scalar_ok (s : Scalar) :
  reprintable_scalar s = true ->
  leaf_ok s = true /\ formatValue (reread s) = formatValue s.
Proof.
  unfold reprintable_scalar. intros H. apply orb_true_iff in H as [H|H].
  - destruct (simple_scalar_ok s H) as [Hl Hr]. split; [exact Hl|].
    now rewrite Hr.
  - destruct s as [|b|n|x]; try discriminate.
    + apply andb_true_iff in H as [Hn Hpos]. apply Z.ltb_lt in Hpos.
      split; [apply number_leaf_ok | now apply positive_number_reprints].
    + apply orb_true_iff in H as [H|H];
        [now apply relabelled_string_ok | now apply requoted_string_ok].
Qed.

(** Within the range of the embedding, a scalar that fits on a line and
    is printed, once read back, as it was printed is a reprintable
    scalar. *)
Lemma reprinted_is_reprintable (s : Scalar) :
  leaf_ok s = true -> scalar_in_range s = true ->
  formatValue (reread s) = formatValue s ->
  reprintable_scalar s = true.
Proof.
  destruct s as [|b|n|x]; intros Hl Hin Hr; try reflexivity.
  - cbn [scalar_in_range] in Hin. unfold reprintable_scalar.
    cbn [simple_scalar]. rewrite Hin. cbn [andb].
    destruct (plain_notation n) eqn:Hp; [reflexivity|]. cbn [orb].
    apply Z.ltb_lt.
    destruct (Z.lt_trichotomy (mant n) 0) as [Hneg|[H0|Hpos]];
      [| | exact Hpos].
    + now destruct (negative_exponent_number_changes n Hin Hp Hneg).
    + unfold plain_notation in Hp. rewrite H0 in Hp. discriminate.
  - unfold reprintable_scalar. cbn [simple_scalar].
    destruct (needs_quotes x) eqn:Hq.
    + destruct (quoted_string_parts x Hq Hl) as (Hf & Hre & Hnl).
      rewrite Hre, Hf in Hr. cbn [formatValue] in Hr.
      assert (Hd : includes (escape_quotes x) dquote = false).
      { destruct (needs_quotes (escape_quotes x)).
        - inversion Hr as [E]. apply escape_fixed.
          apply (f_equal String.length) in E.
          rewrite !length_append in E. lia.
        - apply (f_equal String.length) in Hr.
          cbn [String.length] in Hr. rewrite length_append in Hr.
          cbn [String.length] in Hr. lia. }
      assert (Hd' : includes x dquote = false).
      { destruct (includes x dquote) eqn:E; [|reflexivity].
        clear - E Hd. induction x as [|a r IH]; [discriminate|].
        cbn [escape_quotes includes] in *.
        destruct (Ascii.eqb a dquote) eqn:Ea.
        - cbn [includes] in Hd.
          change (Ascii.eqb dquote dquote) with true in Hd.
          now rewrite orb_true_r in Hd.
        - cbn [includes] in Hd. rewrite Ea in Hd. cbn [orb] in *. auto. }
      apply orb_true_iff. left. apply orb_true_iff. right.
      unfold quotable_string. now rewrite Hq, Hd', Hnl.
    + destruct (leaf_ok_parts _ Hl) as (Hne & Ht & _).
      cbn [formatValue] in Hne, Ht. rewrite Hq in Hne, Ht.
      cbn [scalar_in_range] in Hin. rewrite Hq in Hin. cbn [orb] in Hin.
      unfold reread in Hr. cbn [formatValue] in Hr. rewrite Hq in Hr.
      pose proof (parseValue_reading x Hne) as Hb.
      inversion Hb as [E R|E R|E R|E R|Hk Hn R|Hk Hn Hw R|Hk Hn Hw R];
        rewrite <- R in Hr; clear R.
      * subst x. reflexivity.
      * subst x. reflexivity.
      * subst x. reflexivity.
      * subst x. discriminate.
      * cbn [formatValue] in Hr. rewrite Hn in Hin. cbn [negb orb] in Hin.
        apply orb_true_iff. right. apply orb_true_iff. left.
        unfold relabelled_string.
        rewrite Hq, Hn, Hin, Hr, String.eqb_refl. cbn [negb andb].
        now rewrite !orb_true_r.
      * cbn [formatValue] in Hr.
        destruct (needs_quotes (slice_1_m1 x)) eqn:Hqi;
          [|now apply slice_not_fixed in Hr].
        remember (escape_quotes (slice_1_m1 x)) as e eqn:He.
        assert (Hs : slice_1_m1 x = e).
        { rewrite <- Hr at 1. unfold slice_1_m1. cbn [drop].
          apply dropLast_app. }
        rewrite Hs in He, Hqi.
        assert (Hd : includes e dquote = false)
          by (apply escape_fixed; now rewrite <- He).
        apply orb_true_iff. right. apply orb_true_iff. right.
        unfold requoted_string.
        rewrite Hq, Hs, Hr, String.eqb_refl, Hqi, Hd. reflexivity.
      * unfold numeral in Hn. apply orb_false_iff in Hn as [Hi Hf].
        apply orb_true_iff. left. apply orb_true_iff. left.
        unfold bare_string.
        now rewrite Hq, Hne, Ht, String.eqb_refl, Hk, Hi, Hf, Hw.
Qed.

End ScalarClasses.

(** ** Mappings of scalars of a class *)

Section MappingClasses.

(** A mapping of simple scalars is plain and its scalars are stable. *)
Lemma simple_mapping (v : Value) :
  mapping_of simple_scalar v = true ->
  plain v = true /\ leaves_stable v = true.
Proof.
  induction v as [sc|ps IH|items _] using Value_nested_ind;
    intros H; [| |discriminate].
  - cbn [mapping_of plain leaves_stable] in *.
    destruct (simple_scalar_ok sc H) as [Hl Hr].
    split; [exact Hl|]. rewrite Hr. apply scalar_eqb_refl.
  - cbn [mapping_of plain leaves_stable] in *.
    induction IH as [|[k v] ps He _ IHps]; [now split|].
    cbn [forallb fst snd] in *. cbn [snd] in He.
    repeat rewrite andb_true_iff in H. destruct H as ((Hk & Hv) & Hps).
    destruct (He Hv) as [Hp Hs]. destruct (IHps Hps) as [Hp' Hs'].
    now rewrite Hk, Hp, Hs, Hp', Hs'.
Qed.

(** A plain mapping whose scalars are stable is a mapping of simple
    scalars. *)
Lemma stable_mapping (v : Value) :
  plain v = true -> leaves_stable v = true ->
  mapping_of simple_scalar v = true.
Proof.
  induction v as [sc|ps IH|items _] using Value_nested_ind;
    intros Hp Hs; [| |discriminate].
  - cbn [mapping_of plain leaves_stable] in *.
    apply stable_is_simple; [exact Hp | now apply scalar_eqb_eq].
  - cbn [mapping_of leaves_stable] in *.
    induction IH as [|[k v] ps He _ IHps]; [reflexivity|].
    apply plain_entry in Hp as (Hk & Hv & Hps).
    cbn [forallb fst snd] in *. apply andb_true_iff in Hs as [Hsv Hsps].
    rewrite Hk, (He Hv Hsv). cbn [andb]. now apply IHps.
Qed.

(** A value that is left as it is when its scalars are read back has
    stable scalars. *)
Lemma reread_fixed (v : Value) : reread_value v = v -> leaves_stable v = true.
Proof.
  induction v as [sc|ps IH|items IH] using Value_nested_ind; intros H.
  - cbn [reread_value leaves_stable] in *.
    assert (E : reread sc = sc) by congruence.
    rewrite E. apply scalar_eqb_refl.
  - cbn [reread_value] in H.
    assert (E : map (fun e => (fst e, reread_value (snd e))) ps = ps)
      by congruence.
    clear H. cbn [leaves_stable].
    induction IH as [|[k v] ps He _ IHps]; [reflexivity|].
    cbn [map fst snd] in E. injection E as E1 E2.
    cbn [forallb snd] in *. now rewrite (He E1), (IHps E2).
  - cbn [reread_value] in H.
    assert (E : map reread_value items = items) by congruence.
    clear H. cbn [leaves_stable].
    induction IH as [|v items He _ IHps]; [reflexivity|].
    cbn [map] in E. injection E as E1 E2.
    cbn [forallb]. now rewrite (He E1), (IHps E2).
Qed.

(** A plain mapping that survives the round trip has stable scalars. *)
Lemma roundtrip_only_stable (ps : Props) :
  plain (Mapping ps) = true ->
  js_object (Mapping ps) = true ->
  decode (encode (Mapping ps)) = Ok (Mapping ps) ->
  leaves_stable (Mapping ps) = true.
Proof.
  intros Hp Hj H.
  rewrite decode_encode_plain in H by exact Hp.
  rewrite decoded_reread in H by assumption.
  apply reread_fixed. congruence.
Qed.

End MappingClasses.

(** ** Lists without elements *)

Section EmptyLists.

(** With its empty lists replaced by empty mappings, a mapping of
    scalars of a class and of empty lists is a mapping of scalars of
    that class. *)
Lemma mapping_of_emptied (leaf : Scalar -> bool) (v : Value) :
  mapping_or_nil_of leaf v = true ->
  match v with
  | Prim s => leaf s = true
  | _ => mapping_of leaf (emptied v) = true
  end.
Proof.
  induction v as [sc|ps IH|items _] using Value_nested_ind; intros H.
  - exact H.
  - change (emptied (Mapping ps))
      with (Mapping (map (fun e => (fst e, emptied (snd e))) ps)).
    cbn [mapping_or_nil_of mapping_of] in *.
    induction IH as [|[k v] ps He _ IHps]; [reflexivity|].
    cbn [forallb map fst snd] in *.
    repeat rewrite andb_true_iff in H. destruct H as ((Hk & Hv) & Hps).
    rewrite Hk, (IHps Hps), andb_true_r. cbn [andb].
    specialize (He Hv). now destruct v as [s|ps'|[|x r]].
  - destruct items; [reflexivity | discriminate].
Qed.

Lemma plain_emptied (ps : Props) :
  mapping_or_nil_of leaf_ok (Mapping ps) = true ->
  plain (emptied (Mapping ps)) = true.
Proof.
  intros H.
  pose proof (mapping_of_emptied leaf_ok (Mapping ps) H) as Hm.
  cbv iota in Hm. clear H.
  revert Hm. generalize (emptied (Mapping ps)). intros v.
  induction v as [sc|ps' IH|items _] using Value_nested_ind;
    intros H; [exact H | | discriminate].
  cbn [mapping_of plain] in *.
  induction IH as [|[k v] ps' He _ IHps]; [reflexivity|].
  cbn [forallb fst snd] in *.
  repeat rewrite andb_true_iff in H. destruct H as ((Hk & Hv) & Hps).
  now rewrite Hk, (He Hv), (IHps Hps).
Qed.

(** The scalars of the value are those of the value without its empty
    lists. *)
Lemma leaves_emptied (leaf : Scalar -> bool) (v : Value) :
  mapping_or_nil_of (fun _ => true) v = true ->
  mapping_or_nil_of leaf v
  = match v with
    | Prim s => leaf s
    | _ => mapping_of leaf (emptied v)
    end.
Proof.
  induction v as [sc|ps IH|items _] using Value_nested_ind; intros H.
  - reflexivity.
  - change (emptied (Mapping ps))
      with (Mapping (map (fun e => (fst e, emptied (snd e))) ps)).
    cbn [mapping_or_nil_of mapping_of] in *.
    induction IH as [|[k v] ps He _ IHps]; [reflexivity|].
    cbn [forallb map fst snd] in *.
    repeat rewrite andb_true_iff in H. destruct H as ((Hk & Hv) & Hps).
    rewrite (IHps Hps). f_equal. f_equal.
    rewrite (He Hv). now destruct v as [s|ps'|[|x r]].
  - destruct items; [reflexivity | discriminate].
Qed.

Lemma keys_emptied (ps : Props) :
  map fst (map (fun e => (fst e, emptied (snd e))) ps) = map fst ps.
Proof.
  induction ps as [|[k v] ps IH]; [reflexivity|].
  cbn [map fst]. now rewrite IH.
Qed.

Lemma js_object_emptied (v : Value) :
  js_object v = true -> js_object (emptied v) = true.
Proof.
  induction v as [sc|ps IH|items IH] using Value_nested_ind; intros H.
  - exact H.
  - change (emptied (Mapping ps))
      with (Mapping (map (fun e => (fst e, emptied (snd e))) ps)).
    cbn [js_object] in *. apply andb_true_iff in H as [Hk Hv].
    rewrite keys_emptied, Hk. cbn [andb]. clear Hk.
    induction IH as [|[k v] ps He _ IHps]; [reflexivity|].
    cbn [forallb map fst snd] in *. apply andb_true_iff in Hv as [Hv Hps].
    now rewrite (He Hv), IHps.
  - destruct items as [|x r]; [reflexivity|].
    change (emptied (Sequence (x :: r)))
      with (Sequence (map emptied (x :: r))).
    cbn [js_object] in *.
    induction IH as [|v items He _ IHps]; [reflexivity|].
    cbn [forallb map] in *. apply andb_true_iff in H as [Hv Hps].
    rewrite (He Hv). cbn [andb].
    destruct items as [|y r']; [reflexivity|]. now apply IHps.
Qed.

Lemma encode_emptied (v : Value) : encode (emptied v) = encode v.
Proof. destruct (emptied_same_text v) as [H _]. apply H. Qed.

End EmptyLists.

(** ** Two texts of [stringify] that are equal *)

Section SameText.

Lemma append_inv_head (a b c : string) : a ++ b = a ++ c -> b = c.
Proof.
  induction a as [|x a IH]; cbn [append]; intros H; [exact H|].
  injection H as H. now apply IH.
Qed.

Lemma text_inj (l1 l2 : list string) :
  Forall no_nl l1 -> Forall no_nl l2 -> text l1 = text l2 -> l1 = l2.
Proof.
  intros H1 H2 E. apply (f_equal split_nl) in E.
  rewrite !split_text in E by assumption. now apply app_inv_tail in E.
Qed.

Lemma app_inv_length (A : Type) (a a' b b' : list A) :
  List.length a = List.length a' -> (a ++ b = a' ++ b')%list ->
  a = a' /\ b = b'.
Proof.
  revert a'. induction a as [|x a IH]; intros [|x' a'] Hl E;
    try discriminate; [now split|].
  cbn [List.app List.length] in *. injection E as Ex E. injection Hl as Hl.
  destruct (IH a' Hl E). subst. now split.
Qed.

Lemma includes_dropLast (s : string) (c : ascii) :
  includes s c = false -> includes (dropLast s) c = false.
Proof.
  induction s as [|a r IH]; [reflexivity|].
  cbn [includes dropLast]. intros H. apply orb_false_iff in H as [Ha Hr].
  destruct (is_empty r); [reflexivity|].
  cbn [includes]. now rewrite Ha, IH.
Qed.

Lemma includes_slice (x : string) (c : ascii) :
  includes x c = false -> includes (slice_1_m1 x) c = false.
Proof.
  intros H. unfold slice_1_m1. apply includes_dropLast.
  destruct x as [|a r]; [reflexivity|].
  cbn [drop]. cbn [includes] in H. now apply orb_false_iff in H as [_ H].
Qed.

Lemma formatValue_no_nl (y : string) :
  includes y nl = false -> includes (formatValue (Str y)) nl = false.
Proof.
  intros H. cbn [formatValue]. destruct (needs_quotes y); [|exact H].
  cbn [includes]. change (Ascii.eqb dquote nl) with false. cbn [orb].
  rewrite includes_app, includes_escape by reflexivity. now rewrite H.
Qed.

(** What is read back from a scalar that fits on a line is printed on
    one line. *)
Lemma reread_no_nl (s : Scalar) :
  leaf_ok s = true -> includes (formatValue (reread s)) nl = false.
Proof.
  intros Hl. destruct (leaf_ok_parts s Hl) as (Hne & _ & Hn).
  unfold reread. pose proof (parseValue_reading _ Hne) as Hb.
  inversion Hb as [E R|E R|E R|E R|Hk Hnum R|Hk Hnum Hw R|Hk Hnum Hw R];
    try reflexivity.
  - apply (leaf_ok_parts (Number (read_number (formatValue s)))).
    apply number_leaf_ok.
  - now apply formatValue_no_nl, includes_slice.
  - now apply formatValue_no_nl.
Qed.

Lemma mapping_of_entry (leaf : Scalar -> bool) (k : string) (v : Value)
      (ps : Props) :
  mapping_of leaf (Mapping ((k, v) :: ps)) = true ->
  key_ok k = true /\ mapping_of leaf v = true
  /\ mapping_of leaf (Mapping ps) = true.
Proof.
  cbn [mapping_of forallb fst snd]. intros H.
  repeat rewrite andb_true_iff in H. tauto.
Qed.

(** The lines of a mapping without lists, whatever its scalars. *)
Lemma lines_of_mapping (leaf : Scalar -> bool) (v : Value) :
  forall d ps, v = Mapping ps -> mapping_of leaf v = true ->
               stringify v d = text (props_lines d ps).
Proof.
  induction v as [sc|ps0 IH|items _] using Value_nested_ind;
    intros d ps E Hp; inversion E; subst ps0; clear E.
  rewrite stringify_mapping.
  induction IH as [|[k v] ps He Hrest IHps]; [reflexivity|].
  apply mapping_of_entry in Hp as (Hk & Hv & Hps).
  specialize (IHps Hps). cbn [snd] in He.
  unfold concat_map in *. cbn [fold_right fst snd].
  rewrite IHps, props_lines_cons, text_app.
  f_equal.
  destruct v as [sc|ps'|a]; [| |discriminate].
  - cbn [entry_lines]. rewrite text_cons.
    rewrite !append_assoc. reflexivity.
  - rewrite (He (d + 1)%nat ps' eq_refl Hv).
    cbn [entry_lines]. rewrite text_cons, Nat.add_1_r.
    fold (props_lines (S d) ps').
    rewrite !append_assoc. reflexivity.
Qed.

Lemma mapping_of_reread (v : Value) :
  plain v = true -> mapping_of (fun _ => true) (reread_value v) = true.
Proof.
  induction v as [sc|ps IH|items _] using Value_nested_ind;
    intros Hp; [reflexivity | | discriminate].
  cbn [reread_value mapping_of].
  induction IH as [|[k v] ps He _ IHps]; [reflexivity|].
  apply plain_entry in Hp as (Hk & Hv & Hps).
  cbn [map forallb fst snd] in *. now rewrite Hk, (He Hv), (IHps Hps).
Qed.

Lemma no_nl_lines_reread (v : Value) :
  forall d ps, v = Mapping ps -> plain v = true ->
    Forall no_nl
      (props_lines d (map (fun e => (fst e, reread_value (snd e))) ps)).
Proof.
  induction v as [sc|ps0 IH|items _] using Value_nested_ind;
    intros d ps E Hp; inversion E; subst ps0; clear E.
  induction IH as [|[k v] ps He Hrest IHps]; [constructor|].
  apply plain_entry in Hp as (Hk & Hv & Hps).
  specialize (IHps Hps). cbn [snd] in He.
  cbn [map fst snd]. rewrite props_lines_cons.
  apply Forall_app. split; [|exact IHps].
  destruct (key_ok_parts k Hk) as (_ & _ & _ & Hknl & _).
  destruct v as [sc|ps'|a]; [| |discriminate].
  - cbn [reread_value entry_lines]. constructor; [|constructor].
    pose proof (reread_no_nl sc Hv) as Hnl.
    repeat apply no_nl_app; try assumption; try apply no_nl_repeat2;
      reflexivity.
  - cbn [reread_value entry_lines]. constructor.
    + repeat apply no_nl_app; try assumption; try apply no_nl_repeat2;
        reflexivity.
    + apply (He (S d) ps' eq_refl Hv).
Qed.

Lemma length_entry_lines_reread (v : Value) :
  forall d k, List.length (entry_lines d k (reread_value v))
              = List.length (entry_lines d k v).
Proof.
  induction v as [sc|ps IH|items _] using Value_nested_ind;
    intros d k; [reflexivity | | reflexivity].
  cbn [reread_value entry_lines List.length]. f_equal.
  induction IH as [|[k' v] ps He _ IHps]; [reflexivity|].
  cbn [map flat_map fst snd] in *.
  now rewrite !length_app, He, IHps.
Qed.

(** Equal lines come from scalars that are printed alike. *)
Lemma entry_lines_reread_inj (v : Value) :
  forall d k, plain v = true ->
              entry_lines d k (reread_value v) = entry_lines d k v ->
              leaves_reprint v = true.
Proof.
  induction v as [sc|ps IH|items _] using Value_nested_ind;
    intros d k Hp H; [| |discriminate].
  - cbn [reread_value entry_lines leaves_reprint] in *.
    injection H as H.
    apply append_inv_head in H. apply append_inv_head in H.
    apply (append_inv_head ": ") in H. rewrite H. apply String.eqb_refl.
  - cbn [reread_value entry_lines leaves_reprint] in *.
    injection H as H.
    induction IH as [|[k' v] ps He _ IHps]; [reflexivity|].
    apply plain_entry in Hp as (_ & Hv & Hps).
    cbn [map flat_map forallb fst snd] in *.
    apply app_inv_length in H as [H1 H2];
      [|apply length_entry_lines_reread].
    now rewrite (He (S d) k' Hv H1), (IHps Hps H2).
Qed.

Lemma props_lines_reread_inj (ps : Props) (d : nat) :
  plain (Mapping ps) = true ->
  props_lines d (map (fun e => (fst e, reread_value (snd e))) ps)
  = props_lines d ps ->
  leaves_reprint (Mapping ps) = true.
Proof.
  induction ps as [|[k v] ps IH]; intros Hp H; [reflexivity|].
  apply plain_entry in Hp as (_ & Hv & Hps).
  cbn [map fst snd] in H. rewrite !props_lines_cons in H.
  apply app_inv_length in H as [H1 H2]; [|apply length_entry_lines_reread].
  cbn [leaves_reprint forallb snd].
  rewrite (entry_lines_reread_inj v d k Hv H1). now apply IH.
Qed.

(** A plain mapping whose text is printed again from what [decode]
    reads in it has scalars that are printed alike once read back. *)
Lemma reencode_only_reprinted (ps : Props) :
  plain (Mapping ps) = true ->
  js_object (Mapping ps) = true ->
  reencode (encode (Mapping ps)) = Ok (encode (Mapping ps)) ->
  leaves_reprint (Mapping ps) = true.
Proof.
  intros Hp Hj H. unfold reencode in H.
  rewrite decode_encode_plain in H by exact Hp.
  rewrite decoded_reread in H by assumption. cbn [bind] in H.
  assert (E : encode (reread_value (Mapping ps)) = encode (Mapping ps))
    by congruence.
  clear H. unfold encode in E.
  rewrite (lines_of_mapping (fun _ => true) (reread_value (Mapping ps)) 0
             (map (fun e => (fst e, reread_value (snd e))) ps) eq_refl
             (mapping_of_reread _ Hp)) in E.
  rewrite (stringify_plain _ 0 _ eq_refl Hp) in E.
  apply text_inj in E.
  - now apply (props_lines_reread_inj ps 0).
  - now apply (no_nl_lines_reread (Mapping ps)).
  - now apply (no_nl_props_lines (Mapping ps)).
Qed.

End SameText.

(** ** Mappings of reprintable scalars *)

Section Reprintable.

Lemma reprintable_mapping (v : Value) :
  mapping_of reprintable_scalar v = true ->
  plain v = true /\ leaves_reprint v = true.
Proof.
  induction v as [sc|ps IH|items _] using Value_nested_ind;
    intros H; [| |discriminate].
  - cbn [mapping_of plain leaves_reprint] in *.
    destruct (reprintable_scalar_ok sc H) as [Hl Hr].
    split; [exact Hl|]. rewrite Hr. apply String.eqb_refl.
  - cbn [mapping_of plain leaves_reprint] in *.
    induction IH as [|[k v] ps He _ IHps]; [now split|].
    cbn [forallb fst snd] in *. cbn [snd] in He.
    repeat rewrite andb_true_iff in H. destruct H as ((Hk & Hv) & Hps).
    destruct (He Hv) as [Hp Hs]. destruct (IHps Hps) as [Hp' Hs'].
    now rewrite Hk, Hp, Hs, Hp', Hs'.
Qed.

Lemma reprinted_mapping (v : Value) :
  plain v = true -> in_range v = true -> leaves_reprint v = true ->
  mapping_of reprintable_scalar v = true.
Proof.
  induction v as [sc|ps IH|items _] using Value_nested_ind;
    intros Hp Hin Hs; [| |discriminate].
  - cbn [mapping_of plain in_range leaves_reprint] in *.
    apply reprinted_is_reprintable; try assumption.
    now apply String.eqb_eq.
  - cbn [mapping_of in_range leaves_reprint] in *.
    induction IH as [|[k v] ps He _ IHps]; [reflexivity|].
    apply plain_entry in Hp as (Hk & Hv & Hps).
    cbn [forallb fst snd] in *.
    apply andb_true_iff in Hs as [Hsv Hsps].
    apply andb_true_iff in Hin as [Hiv Hips].
    rewrite Hk, (He Hv Hiv Hsv). cbn [andb]. now apply IHps.
Qed.

Lemma in_range_emptied (v : Value) :
  in_range v = true -> in_range (emptied v) = true.
Proof.
  induction v as [sc|ps IH|items IH] using Value_nested_ind; intros H.
  - exact H.
  - change (emptied (Mapping ps))
      with (Mapping (map (fun e => (fst e, emptied (snd e))) ps)).
    cbn [in_range] in *.
    induction IH as [|[k v] ps He _ IHps]; [reflexivity|].
    cbn [forallb map fst snd] in *. apply andb_true_iff in H as [Hv Hps].
    now rewrite (He Hv), IHps.
  - destruct items as [|x r]; [reflexivity|].
    change (emptied (Sequence (x :: r)))
      with (Sequence (map emptied (x :: r))).
    cbn [in_range] in *.
    induction IH as [|v items He _ IHps]; [reflexivity|].
    cbn [forallb map] in *. apply andb_true_iff in H as [Hv Hps].
    rewrite (He Hv). cbn [andb].
    destruct items as [|y r']; [reflexivity|]. now apply IHps.
Qed.

Lemma mapping_or_nil_weaken (leaf : Scalar -> bool) (v : Value) :
  mapping_or_nil_of leaf v = true ->
  mapping_or_nil_of (fun _ => true) v = true.
Proof.
  induction v as [sc|ps IH|items _] using Value_nested_ind; intros H.
  - reflexivity.
  - cbn [mapping_or_nil_of] in *.
    induction IH as [|[k v] ps He _ IHps]; [reflexivity|].
    cbn [forallb fst snd] in *.
    repeat rewrite andb_true_iff in H. destruct H as ((Hk & Hv) & Hps).
    now rewrite Hk, (He Hv), (IHps Hps).
  - exact H.
Qed.

(** Encoding a mapping of reprintable scalars and empty lists, decoding
    and encoding again gives the same text. *)
Lemma reencode_reprintable (ps : Props) :
  js_object (Mapping ps) = true ->
  mapping_or_nil_of reprintable_scalar (Mapping ps) = true ->
  reencode (encode (Mapping ps)) = Ok (encode (Mapping ps)).
Proof.
  intros Hj H.
  pose proof (mapping_of_emptied reprintable_scalar (Mapping ps) H) as Hm.
  cbv iota in Hm.
  destruct (reprintable_mapping _ Hm) as [Hp Hs].
  pose proof (js_object_emptied _ Hj) as Hj'.
  rewrite <- (encode_emptied (Mapping ps)).
  change (emptied (Mapping ps))
    with (Mapping (map (fun e => (fst e, emptied (snd e))) ps)) in *.
  now apply reencode_reprinted_leaves.
Qed.

(** Conversely, within the range of the embedding and when every scalar
    fits on a line. *)
Lemma reencode_only_reprintable (ps : Props) :
  js_object (Mapping ps) = true ->
  mapping_or_nil_of leaf_ok (Mapping ps) = true ->
  in_range (Mapping ps) = true ->
  reencode (encode (Mapping ps)) = Ok (encode (Mapping ps)) ->
  mapping_or_nil_of reprintable_scalar (Mapping ps) = true.
Proof.
  intros Hj Hl Hin H.
  pose proof (plain_emptied ps Hl) as Hp.
  pose proof (js_object_emptied _ Hj) as Hj'.
  pose proof (in_range_emptied _ Hin) as Hin'.
  rewrite <- (encode_emptied (Mapping ps)) in H.
  rewrite (leaves_emptied reprintable_scalar (Mapping ps)
             (mapping_or_nil_weaken _ _ Hl)).
  change (emptied (Mapping ps))
    with (Mapping (map (fun e => (fst e, emptied (snd e))) ps)) in *.
  apply reprinted_mapping; try assumption.
  now apply reencode_only_reprinted.
Qed.

End Reprintable.

(* ===================================================================== *)
(** * The round trip and the second encoding                             *)
(* ===================================================================== *)

(** What the round trip does to the scalars outside the class of the
    simple scalars, kind by kind: a number that is printed with an
    exponent comes back as a string; a string that reads as a number
    comes back as the number; a string between quotes loses them; an
    empty string comes back as an empty mapping; a string with white
    space around it is trimmed; a string with a line feed is cut at the
    line feed; a list comes back under the key [items], and an empty
    list as an empty mapping. *)
Example roundtrip_changes_other_values :
  decode (encode (Mapping [("a", Prim (Number (mkNum 1000000000000000000000 0)))]))
  = Ok (Mapping [("a", Prim (Str "1e+21"))])
  /\ decode (encode (Mapping [("a", Prim (Number (mkNum 1 7)))]))
     = Ok (Mapping [("a", Prim (Str "1e-7"))])
  /\ decode (encode (Mapping [("a", Prim (Str "42"))]))
     = Ok (Mapping [("a", Prim (Number (int_num 42)))])
  /\ decode (encode (Mapping [("a", Prim (Str "'x'"))]))
     = Ok (Mapping [("a", Prim (Str "x"))])
  /\ decode (encode (Mapping [("a", Prim (Str ""))]))
     = Ok (Mapping [("a", Mapping [])])
  /\ decode (encode (Mapping [("a", Prim (Str " x"))]))
     = Ok (Mapping [("a", Prim (Str "x"))])
  /\ decode (encode (Mapping [("a", Prim (Str (String "x" (String nl "y"))))]))
     = Ok (Mapping [("a", Prim (Str (String dquote "x")))])
  /\ decode (encode (Mapping [("a", Sequence [Prim (Str "x")])]))
     = Ok (Mapping [("a", Mapping [("items", Sequence [Prim (Str "x")])])])
  /\ decode (encode (Mapping [("a", Sequence [])]))
     = Ok (Mapping [("a", Mapping [])]).
Proof. repeat split; vm_compute; reflexivity. Qed.

(** Keys that are not printable are not read back either: an empty key
    makes a malformed line, a colon in the key moves to the value, white
    space around the key is lost, a key that starts with "#" makes a
    comment and one that starts with "- " makes an item.  A scalar or a
    list at the top is not a mapping and comes back as one. *)
Example roundtrip_changes_other_keys :
  decode (encode (Mapping [("", Prim (Str "x"))])) = Ok (Mapping [])
  /\ decode (encode (Mapping [("a:b", Prim (Str "x"))]))
     = Ok (Mapping [("a", Prim (Str "b: x"))])
  /\ decode (encode (Mapping [(" a", Prim (Str "x"))]))
     = Ok (Mapping [("a", Prim (Str "x"))])
  /\ decode (encode (Mapping [("#a", Prim (Str "x"))])) = Ok (Mapping [])
  /\ decode (encode (Mapping [("- a", Prim (Str "x"))]))
     = Ok (Mapping [("items", Sequence [Prim (Str "a: x")])])
  /\ decode (encode (Prim (Str "x"))) = Ok (Mapping [])
  /\ decode (encode (Sequence [Prim (Str "x")]))
     = Ok (Mapping [("items", Sequence [Prim (Str "x")])]).
Proof. repeat split; vm_compute; reflexivity. Qed.

(** C1, amended. Take a mapping whose keys are printable ([key_ok]: not
    empty, no surrounding white space, no colon, no line feed, not
    starting with "#" or "- ", not [__proto__]) and stand without
    duplicates in the order of [Object.keys], and whose values are such
    mappings or simple scalars: [null], a boolean, a number that
    [toString] prints in plain notation (zero, or a magnitude of at
    least 10^-6 and below 10^21: integers and decimals), a bare string
    or a quotable string.  It survives the round trip, keys in their
    order.  The class is exact: a plain mapping, one whose scalars are
    printed on a line of their own, without white space around them,
    survives the round trip only if its scalars are simple. *)
Theorem roundtrip_simple_mapping :
  forall props : Props,
    js_object (Mapping props) = true ->
    (mapping_of simple_scalar (Mapping props) = true ->
     decode (encode (Mapping props)) = Ok (Mapping props))
    /\ (plain (Mapping props) = true ->
        decode (encode (Mapping props)) = Ok (Mapping props) ->
        mapping_of simple_scalar (Mapping props) = true).
Proof.
  intros ps Hj. split.
  - intros Hm. destruct (simple_mapping (Mapping ps) Hm) as [Hp Hs].
    now apply roundtrip_stable_leaves.
  - intros Hp H. apply stable_mapping; [exact Hp|].
    now apply roundtrip_only_stable.
Qed.

Lemma roundtrip_simple_mapping_witness :
  decode (encode (Mapping sample_config)) = Ok (Mapping sample_config)
  /\ mapping_of simple_scalar (Mapping sample_config) = true.
Proof.
  destruct (roundtrip_simple_mapping sample_config) as [Hf Hb];
    [vm_compute; reflexivity|].
  assert (H : decode (encode (Mapping sample_config))
              = Ok (Mapping sample_config))
    by (apply Hf; vm_compute; reflexivity).
  split; [exact H|].
  apply Hb; [vm_compute; reflexivity | exact H].
Defined.

(** What the second encoding does to the scalars outside the class of
    the reprintable scalars, kind by kind: a negative number that is
    printed with an exponent comes back as a string and is quoted; the
    string "~" is printed as [null]; a numeral that is not written as
    [toString] writes it is rewritten; a quoted string with a double
    quote gets a second backslash; an empty string becomes an empty
    mapping; white space around a string is lost; a string with a line
    feed loses what follows the line feed; a list moves under the key
    [items]. *)
Example reencode_changes_other_values :
  reencode (encode (Mapping [("a", Prim (Number (mkNum (-1000000000000000000000) 0)))]))
  = Ok (text ["a: " ++ String dquote ("-1e+21" ++ String dquote "")])
  /\ reencode (encode (Mapping [("a", Prim (Str "~"))])) = Ok (text ["a: null"])
  /\ reencode (encode (Mapping [("a", Prim (Str "007"))])) = Ok (text ["a: 7"])
  /\ reencode (encode (Mapping [("a", Prim (Str "1.50"))])) = Ok (text ["a: 1.5"])
  /\ reencode (encode (Mapping [("a", Prim (Str ("b:" ++ String dquote "c")))]))
     = Ok (text ["a: " ++ String dquote
                   ("b:" ++ String backslash
                      (String backslash
                         (String dquote ("c" ++ String dquote ""))))])
  /\ reencode (encode (Mapping [("a", Prim (Str ""))])) = Ok (text ["a:"])
  /\ reencode (encode (Mapping [("a", Prim (Str " x"))])) = Ok (text ["a: x"])
  /\ reencode (encode (Mapping [("a", Prim (Str (String "x" (String nl "y"))))]))
     = Ok (text ["a: " ++ String dquote "x"])
  /\ reencode (encode (Mapping [("a", Sequence [Prim (Str "x")])]))
     = Ok (text ["a:"; "  items:"; "    - x"]).
Proof. repeat split; vm_compute; reflexivity. Qed.

(** Keys that are not printable are not printed again either. *)
Example reencode_changes_other_keys :
  reencode (encode (Mapping [("", Prim (Str "x"))])) = Ok ""
  /\ reencode (encode (Mapping [("a:b", Prim (Str "x"))]))
     = Ok (text ["a: " ++ String dquote ("b: x" ++ String dquote "")])
  /\ reencode (encode (Mapping [(" a", Prim (Str "x"))])) = Ok (text ["a: x"])
  /\ reencode (encode (Mapping [("#a", Prim (Str "x"))])) = Ok ""
  /\ reencode (encode (Sequence [Prim (Str "x")]))
     = Ok (text ["items:"; "  - x"]).
Proof. repeat split; vm_compute; reflexivity. Qed.

(** The numerals of the class stay within the range in which reading
    them is exact. *)
Example numerals_within_range :
  relabelled_string "9007199254740991" = true
  /\ relabelled_string "9007199254740993" = false
  /\ relabelled_string "0.1" = true
  /\ relabelled_string "123456789012345.5" = false
  /\ relabelled_string "100000000000000000000" = true.
Proof. repeat split; vm_compute; reflexivity. Qed.

(** C7, amended. A scalar or a list without elements is encoded to the
    empty text, which is decoded and encoded to the empty text again.
    For a mapping whose keys are printable and stand without duplicates
    in the order of [Object.keys], and whose values are such mappings,
    lists without elements or reprintable scalars, encoding the decoded
    output of [encode] gives the same text.  The reprintable scalars are
    the simple scalars of C1 and those that change in [decode] and are
    printed alike: a positive number printed with an exponent, a string
    that reads as a boolean or as [null] ("true", "false", "null"), a
    numeral as [toString] writes it (an integer below 2^53 or a decimal
    of at most 15 significant digits), and a string that carries double
    quotes around a text that [formatValue] quotes.  The class is exact:
    within the range of the embedding of numbers, a mapping whose
    scalars are printed on a line of their own, without white space
    around them, is encoded to the same text the second time only if
    its scalars are reprintable. *)
Theorem reencode_reprintable_mapping :
  forall v : Value,
    js_object v = true ->
    (reprintable v = true -> reencode (encode v) = Ok (encode v))
    /\ (mapping_or_nil_of leaf_ok v = true -> in_range v = true ->
        reencode (encode v) = Ok (encode v) -> reprintable v = true).
Proof.
  intros v Hj. split.
  - intros H. destruct v as [s|ps|items].
    + reflexivity.
    + now apply reencode_reprintable.
    + destruct items; [reflexivity | discriminate].
  - intros Hl Hin H. destruct v as [s|ps|items].
    + reflexivity.
    + now apply reencode_only_reprintable.
    + exact Hl.
Qed.

Lemma reencode_reprintable_mapping_witness :
  reencode (encode (Mapping sample_strings))
  = Ok (encode (Mapping sample_strings))
  /\ reprintable (Mapping sample_strings) = true
  /\ decode (encode (Mapping sample_strings)) <> Ok (Mapping sample_strings).
Proof.
  destruct (reencode_reprintable_mapping (Mapping sample_strings))
    as [Hf Hb]; [vm_compute; reflexivity|].
  assert (H : reencode (encode (Mapping sample_strings))
              = Ok (encode (Mapping sample_strings)))
    by (apply Hf; vm_compute; reflexivity).
  split; [exact H|]. split.
  - apply Hb; [vm_compute; reflexivity | vm_compute; reflexivity | exact H].
  - vm_compute. discriminate.
Defined.
